(** * Multi-chain Safe-wallet onboarding orchestrator

    A shallow embedding of the onboarding provider of the FlowForge front-end
    (the [OnboardingProvider] component with [processChain], [checkUser],
    [startOnboarding] and [retryChain]), of [verifyModuleEnabled]
    (web3/onboard-utils/safemodule-verifier.ts) and of [ensureChainSelected]
    and [waitForChain] (the chain switcher), together with the properties of
    the onboarding state machine.

    React state is threaded explicitly; the asynchronous collaborators (wallet
    creation, signing, submission, the on-chain read, the user-record fetch)
    are answered by response streams carried by the world, so a theorem
    quantified over worlds speaks about every execution. *)

From Stdlib Require Import ZArith QArith Qround Qpower Lia.
From stdpp Require Import gmap strings list pretty.
From Equations Require Import Equations.

Local Open Scope Z_scope.

(** ** Data model *)

(** [OnboardingStepStatus = "idle" | "pending" | "success" | "error"] *)
Inductive OnboardingStepStatus : Type :=
  | idle
  | pending
  | success
  | error.

Global Instance OnboardingStepStatus_eq_dec : EqDecision OnboardingStepStatus.
Proof. solve_decision. Defined.

(** [ChainProgress].  The four statuses are typed as mandatory in the
    interface, but an entry built by spreading a missing map entry
    ([{ ...prev[chainKey], walletCreate: "pending" }] with [prev[chainKey]]
    undefined) carries only the fields written so far; a field that is absent
    (or [undefined]) is [None]. *)
Record ChainProgress : Type := mkProgress {
  walletCreate : option OnboardingStepStatus;
  moduleSign   : option OnboardingStepStatus;
  moduleEnable : option OnboardingStepStatus;
  moduleVerify : option OnboardingStepStatus;
  errorMsg     : option string;         (* [error?: string] *)
  safeAddress  : option string          (* [safeAddress?: string] *)
}.

Global Instance ChainProgress_eq_dec : EqDecision ChainProgress.
Proof. solve_decision. Defined.

(** [ChainConfig = ChainInfo] of the chain registry: the fields the
    orchestrator reads. *)
Record ChainConfig : Type := mkChain {
  id        : string;
  name      : string;
  chainId   : Z;
  isTestnet : bool
}.

Global Instance ChainConfig_eq_dec : EqDecision ChainConfig.
Proof. solve_decision. Defined.

(** [UserData]: only the two wallet fields are read here. *)
Record UserData : Type := mkUser {
  user_id : string;
  address : string;
  safe_wallet_address_testnet : option string;
  safe_wallet_address_mainnet : option string
}.

(** Result shapes of the wallet hook (web3 types). *)
Record CreateSafeResult : Type := mkCreate {
  create_success     : bool;
  create_safeAddress : option string;   (* [string | null] *)
  create_error       : option string
}.

Record SignEnableModuleResult : Type := mkSignData {
  threshold  : Z;
  owners     : list string;
  safeTxHash : string
}.

Record SignResult : Type := mkSign {
  sign_success : bool;
  sign_data    : option SignEnableModuleResult;
  sign_error   : option string
}.

Record SubmitResult : Type := mkSubmit {
  submit_success : bool;
  submit_error   : option string
}.

(** A value thrown by JavaScript code: an [Error] object with its message, or
    any other value, kept as [String(value)]. *)
Inductive JsThrown : Type :=
  | ErrorObj (message : string)
  | NonError (asString : string).

(** How an awaited call ends. *)
Inductive Outcome (A : Type) : Type :=
  | Returned (a : A)
  | Thrown (e : JsThrown).
Arguments Returned {A} a.
Arguments Thrown {A} e.

(** The [data] of a response body, which is also what [fetchUserData] hands
    back: a user record, [null], or [undefined] when the body has no [data]
    field. *)
Inductive FetchedUser : Type :=
  | UserRecord (user : UserData)
  | UserNull
  | UserUndefined.

(** [user?.safe_wallet_address_testnet] and [user?.safe_wallet_address_mainnet] *)
Definition testnetWallet (user : FetchedUser) : option string :=
  match user with
  | UserRecord u => safe_wallet_address_testnet u
  | UserNull | UserUndefined => None
  end.

Definition mainnetWallet (user : FetchedUser) : option string :=
  match user with
  | UserRecord u => safe_wallet_address_mainnet u
  | UserNull | UserUndefined => None
  end.

(** What the request to [/users/me] does: the [fetch] itself rejects, the
    response is not [ok], reading the body throws ([response.json()] rejects,
    or the body is not an object), or a body [{ success, data }] arrives. *)
Inductive FetchResult : Type :=
  | FetchRejects (e : JsThrown)
  | NotOk
  | JsonRejects (e : JsThrown)
  | Body (body_success : bool) (body_data : FetchedUser).

(** ** JavaScript helpers *)

(** Truthiness of an optional string: [undefined], [null] and [""] are falsy. *)
Definition truthy (s : option string) : bool :=
  match s with
  | Some s => negb (String.eqb s "")
  | None => false
  end.

(** [e instanceof Error ? e.message : String(e)] *)
Definition messageOrString (e : JsThrown) : string :=
  match e with
  | ErrorObj m => m
  | NonError s => s
  end.

(** [e instanceof Error ? e.message : "Unknown error"] *)
Definition messageOrUnknown (e : JsThrown) : string :=
  match e with
  | ErrorObj m => m
  | NonError _ => "Unknown error"
  end.

(** [e instanceof Error ? e : new Error(String(e))] *)
Definition toError (e : JsThrown) : JsThrown :=
  ErrorObj (messageOrString e).

(** [delayMs * Math.pow(1.5, attempt)], as an exact rational in lowest terms
    (the product is exact in double precision for the attempts a retry budget
    allows). *)
Definition backoffDelay (delayMs : Z) (attempt : nat) : Q :=
  Qred (inject_Z delayMs * Qpower (3 # 2) (Z.of_nat attempt)).

(** ** The world: React state, collaborators, clock and call log *)

(** The state cells of [OnboardingProvider] that the operations touch. *)
Record State : Type := mkState {
  needsOnboarding     : bool;
  isOnboarding        : bool;
  isCheckingUser      : bool;
  isModeValid         : option bool;      (* [boolean | null] *)
  chainsToSetup       : list ChainConfig;
  progress            : gmap string ChainProgress;
  currentSigningChain : option string
}.

(** The answers of the collaborators, one stream per collaborator: entry [0]
    answers the next call. *)
Record Env : Type := mkEnv {
  accessTokens  : nat → Outcome (option string);   (* getPrivyAccessToken *)
  fetches       : nat → FetchResult;               (* fetch(/users/me) *)
  creates       : nat → Outcome CreateSafeResult;  (* createSafeWallet *)
  switches      : nat → Outcome ();                (* embeddedWallet.switchChain *)
  signs         : nat → Outcome SignResult;        (* signEnableModule *)
  submits       : nat → Outcome SubmitResult;      (* submitEnableModule *)
  reads         : nat → Outcome bool;              (* safeContract.isModuleEnabled *)
  providerChain : Z → option Z;  (* chain the wallet provider reports at a time *)
  contractTargetError : JsThrown (* what [new ethers.Contract(null, ...)] throws *)
}.

(** The log of collaborator calls (with their answers) and timer waits,
    oldest first. *)
Inductive Event : Type :=
  | EvGetAccessToken
  | EvFetchUser (token : string)
  | EvCreateSafeWallet (owner : string) (chain : Z) (res : Outcome CreateSafeResult)
  | EvSwitchChain (chain : Z) (res : Outcome ())
  | EvSignEnableModule (safe : option string) (chain : Z) (res : Outcome SignResult)
  | EvSubmitEnableModule (res : Outcome SubmitResult)
  | EvIsModuleEnabled (safe : option string) (moduleAddress : string) (res : Outcome bool)
  | EvSleep (ms : Q).

(** [now] is what [Date.now()] returns, in ms.  Time passes only while a timer
    runs: a collaborator call takes no time in this model. *)
Record World : Type := mkWorld {
  st    : State;
  env   : Env;
  now   : Z;
  trace : list Event
}.

(** ** A state-and-exception monad for async functions *)

Definition M (A : Type) : Type := World → Outcome A * World.

Definition ret {A} (a : A) : M A := λ w, (Returned a, w).

Definition throw {A} (e : JsThrown) : M A := λ w, (Thrown e, w).

Definition bind {A B} (m : M A) (k : A → M B) : M B :=
  λ w, match m w with
       | (Returned a, w') => k a w'
       | (Thrown e, w') => (Thrown e, w')
       end.

(** [try { m } catch (e) { h e }] *)
Definition try_catch {A} (m : M A) (h : JsThrown → M A) : M A :=
  λ w, match m w with
       | (Returned a, w') => (Returned a, w')
       | (Thrown e, w') => h e w'
       end.

(** [try { m } finally { f }], for an [f] that neither throws nor returns. *)
Definition try_finally {A} (m : M A) (f : World → World) : M A :=
  λ w, let '(r, w') := m w in (r, f w').

Declare Scope async_scope.
Delimit Scope async_scope with async.
Notation "x <- m ;; k" := (bind m (λ x, k))
  (at level 100, m at next level, right associativity) : async_scope.
Notation "m ;;; k" := (bind m (λ _, k))
  (at level 100, right associativity) : async_scope.
Local Open Scope async_scope.

(** *** World updates *)

Definition log (e : Event) (w : World) : World :=
  mkWorld (st w) (env w) (now w) (trace w ++ [e]).

Definition with_st (f : State → State) (w : World) : World :=
  mkWorld (f (st w)) (env w) (now w) (trace w).

Definition with_env (f : Env → Env) (w : World) : World :=
  mkWorld (st w) (f (env w)) (now w) (trace w).

Definition next {A} (s : nat → A) : nat → A := λ n, s (S n).

(** *** State setters *)

Definition set_needsOnboarding (b : bool) (s : State) : State :=
  mkState b (isOnboarding s) (isCheckingUser s) (isModeValid s) (chainsToSetup s)
          (progress s) (currentSigningChain s).

Definition set_isOnboarding (b : bool) (s : State) : State :=
  mkState (needsOnboarding s) b (isCheckingUser s) (isModeValid s) (chainsToSetup s)
          (progress s) (currentSigningChain s).

Definition set_isCheckingUser (b : bool) (s : State) : State :=
  mkState (needsOnboarding s) (isOnboarding s) b (isModeValid s) (chainsToSetup s)
          (progress s) (currentSigningChain s).

Definition set_chainsToSetup (cs : list ChainConfig) (s : State) : State :=
  mkState (needsOnboarding s) (isOnboarding s) (isCheckingUser s) (isModeValid s) cs
          (progress s) (currentSigningChain s).

Definition set_isModeValid (v : option bool) (s : State) : State :=
  mkState (needsOnboarding s) (isOnboarding s) (isCheckingUser s) v (chainsToSetup s)
          (progress s) (currentSigningChain s).

Definition set_progress (p : gmap string ChainProgress) (s : State) : State :=
  mkState (needsOnboarding s) (isOnboarding s) (isCheckingUser s) (isModeValid s)
          (chainsToSetup s) p (currentSigningChain s).

Definition set_currentSigningChain (c : option string) (s : State) : State :=
  mkState (needsOnboarding s) (isOnboarding s) (isCheckingUser s) (isModeValid s)
          (chainsToSetup s) (progress s) c.

Definition setNeedsOnboarding (b : bool) : M () :=
  λ w, (Returned (), with_st (set_needsOnboarding b) w).

Definition setIsOnboarding (b : bool) : M () :=
  λ w, (Returned (), with_st (set_isOnboarding b) w).

Definition setIsCheckingUser (b : bool) : M () :=
  λ w, (Returned (), with_st (set_isCheckingUser b) w).

Definition setCurrentSigningChain (c : option string) : M () :=
  λ w, (Returned (), with_st (set_currentSigningChain c) w).

(** [{ ...entry }] for a possibly missing entry. *)
Definition noProgress : ChainProgress :=
  mkProgress None None None None None None.

Definition spread (entry : option ChainProgress) : ChainProgress :=
  default noProgress entry.

(** [setProgress((prev) => ({ ...prev, [chainKey]: upd({ ...prev[chainKey] }) }))] *)
Definition setProgressEntry (chainKey : string)
    (upd : ChainProgress → ChainProgress) : M () :=
  λ w, let prev := progress (st w) in
       let entry := upd (spread (prev !! chainKey)) in
       (Returned (), with_st (set_progress (<[chainKey := entry]> prev)) w).

(** Field updates of a spread entry. *)
Definition with_walletCreate (s : OnboardingStepStatus) (p : ChainProgress) :=
  mkProgress (Some s) (moduleSign p) (moduleEnable p) (moduleVerify p)
             (errorMsg p) (safeAddress p).
Definition with_moduleSign (s : OnboardingStepStatus) (p : ChainProgress) :=
  mkProgress (walletCreate p) (Some s) (moduleEnable p) (moduleVerify p)
             (errorMsg p) (safeAddress p).
Definition with_moduleEnable (s : OnboardingStepStatus) (p : ChainProgress) :=
  mkProgress (walletCreate p) (moduleSign p) (Some s) (moduleVerify p)
             (errorMsg p) (safeAddress p).
Definition with_moduleVerify (s : OnboardingStepStatus) (p : ChainProgress) :=
  mkProgress (walletCreate p) (moduleSign p) (moduleEnable p) (Some s)
             (errorMsg p) (safeAddress p).
Definition with_error (e : option string) (p : ChainProgress) :=
  mkProgress (walletCreate p) (moduleSign p) (moduleEnable p) (moduleVerify p)
             e (safeAddress p).
Definition with_safeAddress (a : option string) (p : ChainProgress) :=
  mkProgress (walletCreate p) (moduleSign p) (moduleEnable p) (moduleVerify p)
             (errorMsg p) a.

(** *** Collaborator calls *)

Definition getPrivyAccessToken : M (option string) :=
  λ w, let r := accessTokens (env w) 0%nat in
       (r, log EvGetAccessToken
               (with_env (λ e, mkEnv (next (accessTokens e)) (fetches e) (creates e)
                                     (switches e) (signs e) (submits e) (reads e)
                                     (providerChain e) (contractTargetError e)) w)).

Definition fetchUsersMe (token : string) : M FetchResult :=
  λ w, let r := fetches (env w) 0%nat in
       (Returned r,
        log (EvFetchUser token)
            (with_env (λ e, mkEnv (accessTokens e) (next (fetches e)) (creates e)
                                  (switches e) (signs e) (submits e) (reads e)
                                  (providerChain e) (contractTargetError e)) w)).

Definition createSafeWallet (owner : string) (chain : Z) : M CreateSafeResult :=
  λ w, let r := creates (env w) 0%nat in
       (r, log (EvCreateSafeWallet owner chain r)
               (with_env (λ e, mkEnv (accessTokens e) (fetches e) (next (creates e))
                                     (switches e) (signs e) (submits e) (reads e)
                                     (providerChain e) (contractTargetError e)) w)).

Definition switchChain (chain : Z) : M () :=
  λ w, let r := switches (env w) 0%nat in
       (r, log (EvSwitchChain chain r)
               (with_env (λ e, mkEnv (accessTokens e) (fetches e) (creates e)
                                     (next (switches e)) (signs e) (submits e) (reads e)
                                     (providerChain e) (contractTargetError e)) w)).

Definition signEnableModule (safe : option string) (chain : Z) : M SignResult :=
  λ w, let r := signs (env w) 0%nat in
       (r, log (EvSignEnableModule safe chain r)
               (with_env (λ e, mkEnv (accessTokens e) (fetches e) (creates e)
                                     (switches e) (next (signs e)) (submits e) (reads e)
                                     (providerChain e) (contractTargetError e)) w)).

Definition submitEnableModule : M SubmitResult :=
  λ w, let r := submits (env w) 0%nat in
       (r, log (EvSubmitEnableModule r)
               (with_env (λ e, mkEnv (accessTokens e) (fetches e) (creates e)
                                     (switches e) (signs e) (next (submits e)) (reads e)
                                     (providerChain e) (contractTargetError e)) w)).

Definition isModuleEnabled (safe : option string) (moduleAddress : string) : M bool :=
  λ w, let r := reads (env w) 0%nat in
       (r, log (EvIsModuleEnabled safe moduleAddress r)
               (with_env (λ e, mkEnv (accessTokens e) (fetches e) (creates e)
                                     (switches e) (signs e) (submits e) (next (reads e))
                                     (providerChain e) (contractTargetError e)) w)).

(** [await new Promise((resolve) => setTimeout(resolve, ms))]: the timer runs
    for [ms] (whole milliseconds), during which nothing else happens. *)
Definition sleep_world (ms : Q) (w : World) : World :=
  log (EvSleep ms) (mkWorld (st w) (env w) (now w + Qfloor ms) (trace w)).

Definition sleep (ms : Q) : M () := λ w, (Returned (), sleep_world ms w).

(** The chain the wallet provider reports now. *)
Definition currentProviderChainId (w : World) : option Z :=
  providerChain (env w) (now w).

(** ** The chain switcher *)

(** [ensureChainSelected(embeddedWallet, targetChainId)]; the wallet handle is
    modelled by whether it is there. *)
Definition ensureChainSelected (embeddedWallet : bool) (targetChainId : Z) : M () :=
  if negb embeddedWallet then throw (ErrorObj "Embedded wallet not available")
  else
    try_catch (switchChain targetChainId)
      (λ error,
         let message := messageOrString error in
         throw (ErrorObj ("Failed to switch to chain " +:+ pretty targetChainId
                          +:+ ": " +:+ message))).

(** The [while (Date.now() - startTime < timeoutMs)] loop of [waitForChain]:
    every turn that does not see the target chain sleeps 100 ms, so the time
    left before the timeout shrinks. *)
Equations? waitForChain_loop (getCurrentChainId : World → option Z)
    (targetChainId timeoutMs startTime : Z) (w : World) : Outcome () * World
    by wf (Z.to_nat (timeoutMs - (now w - startTime))) lt :=
  waitForChain_loop getCurrentChainId targetChainId timeoutMs startTime w
    with decide (now w - startTime < timeoutMs) := {
    | left _ with decide (getCurrentChainId w = Some targetChainId) := {
      | left _ => (Returned (), w)
      | right _ =>
          waitForChain_loop getCurrentChainId targetChainId timeoutMs startTime
                            (sleep_world (inject_Z 100) w) }
    | right _ =>
        (Thrown (ErrorObj ("Timeout waiting for chain " +:+ pretty targetChainId
                           +:+ " to become active")), w) }.
Proof. cbn. rewrite Z.div_1_r. lia. Qed.

(** [waitForChain(getCurrentChainId, targetChainId, timeoutMs = 5000)] *)
Definition waitForChain (getCurrentChainId : World → option Z)
    (targetChainId : Z) (timeoutMs : Z) : M () :=
  λ w, let startTime := now w in
       waitForChain_loop getCurrentChainId targetChainId timeoutMs startTime w.

(** ** The module verifier *)

Section Orchestrator.

(** Static configuration that lives outside the modelled files: the chain
    registry lookup [getChain(chainId)] and the per-chain module address
    [getSafeModuleAddress(chainId)] ([None] when nothing is configured). *)
Variable getChain : Z → option ChainConfig.
Variable getSafeModuleAddress : Z → option string.

(** [lastError?.message || "Unknown error"] *)
Definition lastErrorMessage (lastError : option JsThrown) : string :=
  match lastError with
  | Some e => if truthy (Some (messageOrString e)) then messageOrString e
              else "Unknown error"
  | None => "Unknown error"
  end.

(** The [for (let attempt = 0; attempt < maxRetries; attempt++)] loop;
    [remaining] counts the turns left, [maxRetries - attempt]. *)
Fixpoint verifyModuleEnabled_loop (safeAddress : option string)
    (moduleAddress : string) (maxRetries : nat) (delayMs : Z)
    (remaining attempt : nat) (lastError : option JsThrown) : M bool :=
  match remaining with
  | O =>
      throw (ErrorObj ("Failed to verify module status after " +:+ pretty maxRetries
                       +:+ " attempts: " +:+ lastErrorMessage lastError))
  | S remaining' =>
      try_catch (isModuleEnabled safeAddress moduleAddress)
        (λ error,
           let lastError := Some (toError error) in
           (if (attempt <? maxRetries - 1)%nat
            then sleep (backoffDelay delayMs attempt)
            else ret ());;;
           verifyModuleEnabled_loop safeAddress moduleAddress maxRetries delayMs
                                    remaining' (S attempt) lastError)
  end.

(** [new ethers.BrowserProvider(provider)] and
    [new ethers.Contract(safeAddress, SafeArtifact.abi, ethersProvider)]: the
    handle is built before the loop and outside its [try], without reading
    the chain.  The [provider] is an EIP-1193 provider (the caller has tested
    it) and is left out; the constructor of the contract refuses a target that
    is not a string, so with a [null] Safe address it throws. *)
Definition newSafeContract (safeAddress : option string) : M () :=
  λ w, match safeAddress with
       | Some _ => (Returned (), w)
       | None => (Thrown (contractTargetError (env w)), w)
       end.

(** [verifyModuleEnabled(safeAddress, chainId, provider, maxRetries = 3,
    delayMs = 2000)] *)
Definition verifyModuleEnabled (safeAddress : option string) (chainId : Z)
    (maxRetries : nat) (delayMs : Z) : M bool :=
  let moduleAddress := getSafeModuleAddress chainId in
  if negb (truthy moduleAddress) then
    throw (ErrorObj ("Module address not configured for chain " +:+ pretty chainId))
  else
    newSafeContract safeAddress;;;
    verifyModuleEnabled_loop safeAddress (default "" moduleAddress)
                             maxRetries delayMs maxRetries 0%nat None.

(** ** The onboarding provider *)

(** What the hooks hand to the component ([usePrivy], [usePrivyWallet]) and
    the wallet-choice flag. *)
Record Hooks : Type := mkHooks {
  authenticated         : bool;
  ready                 : bool;
  walletAddress         : option string;
  embeddedWallet        : bool;          (* is there a wallet handle *)
  ethereumProvider      : bool;          (* is there an EIP-1193 provider *)
  walletChoiceCompleted : bool
}.

Definition idleProgress : ChainProgress :=
  mkProgress (Some idle) (Some idle) (Some idle) (Some idle) None None.

Definition successProgress : ChainProgress :=
  mkProgress (Some success) (Some success) (Some success) (Some success) None None.

Fixpoint initializeProgress_from (acc : gmap string ChainProgress)
    (chains : list ChainConfig) : gmap string ChainProgress :=
  match chains with
  | [] => acc
  | chain :: rest => initializeProgress_from (<[id chain := idleProgress]> acc) rest
  end.

Definition initializeProgress (chains : list ChainConfig) : gmap string ChainProgress :=
  initializeProgress_from ∅ chains.

(** [validateMode], given how [validateAndGetOnboardingChains()] ended. *)
Definition validateMode (validated : Outcome (list ChainConfig)) (s : State) : State :=
  match validated with
  | Returned chains =>
      set_progress (initializeProgress chains)
        (set_chainsToSetup chains (set_isModeValid (Some true) s))
  | Thrown _ =>
      set_chainsToSetup [] (set_isModeValid (Some false) s)
  end.

(** [fetchUserData()].  The declared return type is [UserData | null], but
    [data.success ? data.data : null] hands back whatever the body holds under
    [data]: [undefined] when the field is missing. *)
Definition fetchUserData (h : Hooks) : M FetchedUser :=
  if negb (authenticated h) then ret UserNull
  else
    try_catch
      (accessToken <- getPrivyAccessToken;;
       if negb (truthy accessToken) then ret UserNull
       else
         response <- fetchUsersMe (default "" accessToken);;
         match response with
         | FetchRejects e => throw e
         | NotOk => ret UserNull
         | JsonRejects e => throw e
         | Body body_success body_data =>
             ret (if body_success then body_data else UserNull)
         end)
      (λ _, ret UserNull).

(** [signResult.data && !signResult.data.safeTxHash] *)
Definition alreadyEnabled (signResult : SignResult) : bool :=
  match sign_data signResult with
  | Some data => negb (truthy (Some (safeTxHash data)))
  | None => false
  end.

(** [processChain(chain)]: create the wallet, switch chain, sign, submit and
    verify.  An early [return] of the source is a branch that ends in [ret]
    here; the inner [try] around the switch yields whether to go on. *)
Definition processChain (h : Hooks) (chain : ChainConfig) : M bool :=
  let chainKey := id chain in
  let numericChainId := chainId chain in
  try_catch
    ((* Step 1: create wallet *)
     setProgressEntry chainKey (λ p, with_error None (with_walletCreate pending p));;;
     createResult <- createSafeWallet (default "" (walletAddress h)) numericChainId;;
     if negb (create_success createResult) then
       setProgressEntry chainKey
         (λ p, with_error (create_error createResult) (with_walletCreate error p));;;
       ret false
     else
       let safeAddress := create_safeAddress createResult in
       setProgressEntry chainKey
         (λ p, with_safeAddress safeAddress (with_walletCreate success p));;;
       (* Step 2: switch to the target chain before signing *)
       setProgressEntry chainKey (with_moduleSign pending);;;
       setCurrentSigningChain (Some chainKey);;;
       switched <-
         try_catch
           (ensureChainSelected (embeddedWallet h) numericChainId;;;
            waitForChain (λ _, Some numericChainId) numericChainId 10000;;;
            ret true)
           (λ switchError,
              setProgressEntry chainKey
                (λ p, with_error (Some ("Failed to switch to " +:+ name chain +:+ ": "
                                        +:+ messageOrString switchError))
                        (with_moduleSign error p));;;
              setCurrentSigningChain None;;;
              ret false);;
       if negb switched then ret false
       else
         (* Step 3: sign the enable-module transaction *)
         signResult <- signEnableModule safeAddress numericChainId;;
         if negb (sign_success signResult) then
           setProgressEntry chainKey
             (λ p, with_error (sign_error signResult) (with_moduleSign error p));;;
           setCurrentSigningChain None;;;
           ret false
         else
           setProgressEntry chainKey (with_moduleSign success);;;
           setCurrentSigningChain None;;;
           if alreadyEnabled signResult then
             setProgressEntry chainKey
               (λ p, with_moduleVerify success (with_moduleEnable success p));;;
             ret true
           else
             (* Step 4: submit the enable-module transaction *)
             setProgressEntry chainKey (with_moduleEnable pending);;;
             submitResult <- submitEnableModule;;
             if negb (submit_success submitResult) then
               setProgressEntry chainKey
                 (λ p, with_error (submit_error submitResult)
                         (with_moduleEnable error p));;;
               ret false
             else
               setProgressEntry chainKey (with_moduleEnable success);;;
               (* Step 5: verify on-chain *)
               setProgressEntry chainKey (with_moduleVerify pending);;;
               try_catch
                 ((if negb (ethereumProvider h)
                   then throw (ErrorObj "Ethereum provider not available")
                   else ret ());;;
                  isEnabled <- verifyModuleEnabled safeAddress numericChainId
                                                   5%nat 2000;;
                  if negb isEnabled then
                    setProgressEntry chainKey
                      (λ p, with_error (Some "Module not enabled after transaction")
                              (with_moduleVerify error p));;;
                    ret false
                  else
                    setProgressEntry chainKey (with_moduleVerify success);;;
                    ret true)
                 (λ verifyError,
                    setProgressEntry chainKey
                      (λ p, with_error (Some ("Verification failed: "
                                              +:+ messageOrString verifyError))
                              (with_moduleVerify error p));;;
                    ret false))
    (λ error,
       setProgressEntry (id chain) (with_error (Some (messageOrUnknown error)));;;
       ret false).

(** The filter of [checkUser]: does this chain still need setup?  The wallet
    fields are read with [user?.], so [user] may be [undefined]. *)
Definition needsSetup (user : FetchedUser) (chain : ChainConfig) : bool :=
  match getChain (chainId chain) with
  | Some c =>
      if isTestnet c then negb (truthy (testnetWallet user))
      else negb (truthy (mainnetWallet user))
  | None => true
  end.

(** [hasWallet] of the pre-fill loop. *)
Definition hasWallet (user : FetchedUser) (chain : ChainConfig) : bool :=
  match getChain (chainId chain) with
  | Some c =>
      if isTestnet c then truthy (testnetWallet user)
      else truthy (mainnetWallet user)
  | None => false
  end.

(** The pre-fill loop over [chainsToSetup], on the copy [updated]. *)
Fixpoint prefill (user : FetchedUser) (chains : list ChainConfig)
    (updated : gmap string ChainProgress) : gmap string ChainProgress :=
  match chains with
  | [] => updated
  | chain :: rest =>
      prefill user rest
        (if hasWallet user chain then <[id chain := successProgress]> updated
         else updated)
  end.

(** [checkUser()], with the [chainsToSetup] the effect closed over.  The test
    [user === null] is strict: an [undefined] user goes on as an existing
    one. *)
Definition checkUser (h : Hooks) : M () :=
  λ w,
    let chains := chainsToSetup (st w) in
    (setIsCheckingUser true;;;
     try_finally
       (try_catch
          (user <- fetchUserData h;;
           match user with
           | UserNull => setNeedsOnboarding true
           | UserRecord _ | UserUndefined =>
               let chainsNeedingSetup := filter (λ c, needsSetup user c = true) chains in
               if (0 <? length chainsNeedingSetup)%nat then
                 setNeedsOnboarding true;;;
                 (λ w, (Returned (),
                        with_st (λ s, set_progress (prefill user chains (progress s)) s) w))
               else setNeedsOnboarding false
           end)
          (λ _, setNeedsOnboarding true))
       (with_st (set_isCheckingUser false))) w.

(** The effect that runs [checkUser] once the wallet-choice step is done. *)
Definition checkUserEffect (h : Hooks) : M () :=
  λ w,
    if negb (ready h) || negb (authenticated h) || negb (truthy (walletAddress h))
       || negb (bool_decide (isModeValid (st w) = Some true))
       || negb (walletChoiceCompleted h)
    then setNeedsOnboarding false w
    else checkUser h w.

(** [chainProgress?.walletCreate === "success" && ... ] *)
Definition isComplete (chainProgress : option ChainProgress) : bool :=
  match chainProgress with
  | Some p =>
      bool_decide (walletCreate p = Some success)
      && bool_decide (moduleSign p = Some success)
      && bool_decide (moduleEnable p = Some success)
      && bool_decide (moduleVerify p = Some success)
  | None => false
  end.

(** The [for (const chain of chainsToSetup)] loop of [startOnboarding];
    [progress0] is the progress map the callback closed over. *)
Fixpoint startOnboarding_loop (h : Hooks) (progress0 : gmap string ChainProgress)
    (chains : list ChainConfig) (allSuccessful : bool) : M bool :=
  match chains with
  | [] => ret allSuccessful
  | chain :: rest =>
      if isComplete (progress0 !! id chain) then
        startOnboarding_loop h progress0 rest allSuccessful
      else
        ok <- processChain h chain;;
        startOnboarding_loop h progress0 rest (if negb ok then false else allSuccessful)
  end.

(** [startOnboarding()]; [isOnboarding], [chainsToSetup] and [progress] are
    those of the render the callback was made in, the state at the call. *)
Definition startOnboarding (h : Hooks) : M () :=
  λ w,
    if isOnboarding (st w) then (Returned (), w)
    else
      (setIsOnboarding true;;;
       allSuccessful <- startOnboarding_loop h (progress (st w))
                                             (chainsToSetup (st w)) true;;
       _ <- fetchUserData h;;
       (if allSuccessful then setNeedsOnboarding false else ret ());;;
       setIsOnboarding false) w.

(** [identifier: string | number] *)
Inductive Identifier : Type :=
  | IdString (s : string)
  | IdNumber (n : Z).

(** [c.id === identifier || c.chainId === identifier] *)
Definition identifierMatch (identifier : Identifier) (c : ChainConfig) : bool :=
  match identifier with
  | IdString s => bool_decide (id c = s)
  | IdNumber n => bool_decide (chainId c = n)
  end.

(** [p?.moduleVerify === "success"] *)
Definition verifySucceeded (p : option ChainProgress) : bool :=
  match p with
  | Some p => bool_decide (moduleVerify p = Some success)
  | None => false
  end.

(** [retryChain(identifier)], with [chainsToSetup] and [progress] as the
    callback closed over them. *)
Definition retryChain (h : Hooks) (identifier : Identifier) : M () :=
  λ w,
    let chains := chainsToSetup (st w) in
    let progress0 := progress (st w) in
    match List.find (identifierMatch identifier) chains with
    | None => (Returned (), w)
    | Some chain =>
        (ok <- processChain h chain;;
         if ok then
           _ <- fetchUserData h;;
           let allComplete :=
             forallb (λ c, if identifierMatch identifier c then true
                           else verifySucceeded (progress0 !! id c)) chains in
           if allComplete then
             setNeedsOnboarding false;;;
             setIsOnboarding false
           else ret ()
         else ret ()) w
    end.

End Orchestrator.

(** [dismissOnboarding()] *)
Definition dismissOnboarding : M () :=
  setNeedsOnboarding false;;;
  setIsOnboarding false.

(** ** Reading a Safe (web3/utils/safe.ts) *)

(** What one round of
    [Promise.all([getThreshold(), getOwners(), isModuleEnabled(moduleAddress)])]
    resolves to, and what [readSafeInfo] returns ([Number(thresholdBig)] is the
    threshold itself below 2^53). *)
Record SafeInfo : Type := mkSafeInfo {
  safe_threshold : Z;
  safe_owners    : list string;
  safe_isEnabled : bool
}.

(** What a call leaves behind beside its result: the rounds it read and the
    waits it made, in ms, oldest first. *)
Record SafeLog : Type := mkSafeLog {
  rounds : nat;
  waits  : list Z
}.

(** The [while (retryCount < maxRetries)] loop of [readSafeInfo].  The rounds
    are answered by [answers], round [i] by [answers i]; as every failed round
    adds one to [retryCount], the round read now is round [retryCount].
    [remaining] counts the turns left, [maxRetries - retryCount].  The loop
    ends with the three values of the round that resolved ([break]), with the
    error of the round that used up the budget ([throw error], here [err]), or, the
    condition false, with the three values still [undefined] ([None]). *)
Fixpoint readSafeInfo_loop (answers : nat → Outcome SafeInfo)
    (maxRetries remaining retryCount : nat) (waited : list Z)
    : Outcome (option SafeInfo) * SafeLog :=
  match remaining with
  | O => (Returned None, mkSafeLog retryCount waited)
  | S remaining' =>
      match answers retryCount with
      | Returned results =>
          (Returned (Some results), mkSafeLog (S retryCount) waited)
      | Thrown err =>
          let retryCount := S retryCount in
          if (maxRetries <=? retryCount)%nat then
            (Thrown err, mkSafeLog retryCount waited)
          else
            readSafeInfo_loop answers maxRetries remaining' retryCount
                              (waited ++ [1000 * 2 ^ Z.of_nat retryCount])
      end
  end.

(** [readSafeInfo(safeAddress, moduleAddress, provider)], given the answers of
    the contract.  Of the final test
    [!thresholdBig || !owners || isEnabled === undefined] only [!thresholdBig]
    can hold once a round has resolved: [0n] is falsy, an array and a boolean
    are not. *)
Definition readSafeInfo (answers : nat → Outcome SafeInfo)
    : Outcome SafeInfo * SafeLog :=
  let maxRetries := 5%nat in
  match readSafeInfo_loop answers maxRetries maxRetries 0%nat [] with
  | (Thrown err, l) => (Thrown err, l)
  | (Returned None, l) =>
      (Thrown (ErrorObj "Failed to read Safe information after retries"), l)
  | (Returned (Some results), l) =>
      if safe_threshold results =? 0 then
        (Thrown (ErrorObj "Failed to read Safe information after retries"), l)
      else (Returned results, l)
  end.

(** [getSafeModuleStatus(safeAddress, moduleAddress, provider)] *)
Definition getSafeModuleStatus (answers : nat → Outcome SafeInfo) : bool * SafeLog :=
  match readSafeInfo answers with
  | (Returned info, l) => (safe_isEnabled info, l)
  | (Thrown _, l) => (false, l)
  end.

(** * Specification vocabulary *)

(** The events an execution from [w] to [w'] added to the log. *)
Definition newEvents (w w' : World) : list Event :=
  drop (length (trace w)) (trace w').

(** [Keeps R m]: every run of [m] relates the state before to the state
    after by [R]. *)
Definition Keeps {A} (R : relation State) (m : M A) : Prop :=
  ∀ w, R (st w) (st (m w).2).

(** Everything but the progress entry of [key] and the signing slot is as
    before. *)
Record sameOutside (key : string) (s s' : State) : Prop := mkSameOutside {
  same_needsOnboarding : needsOnboarding s' = needsOnboarding s;
  same_isOnboarding    : isOnboarding s' = isOnboarding s;
  same_isCheckingUser  : isCheckingUser s' = isCheckingUser s;
  same_isModeValid     : isModeValid s' = isModeValid s;
  same_chainsToSetup   : chainsToSetup s' = chainsToSetup s;
  same_progress        : ∀ k, k ≠ key → progress s' !! k = progress s !! k
}.

(** The progress entries of all keys but [key] are as before. *)
Definition othersUntouched (key : string) (s s' : State) : Prop :=
  ∀ k, k ≠ key → progress s' !! k = progress s !! k.

(** [Emits P m]: a run of [m] only appends events, all of them in [P]. *)
Definition Emits {A} (P : Event → Prop) (m : M A) : Prop :=
  ∀ w, ∃ evs, trace (m w).2 = trace w ++ evs ∧ Forall P evs.

(** The events of the module verifier: contract reads and back-off waits. *)
Definition isVerifyEvent (e : Event) : Prop :=
  match e with
  | EvIsModuleEnabled _ _ _ | EvSleep _ => True
  | _ => False
  end.

(** The events of the user-record fetch. *)
Definition isFetchEvent (e : Event) : Prop :=
  match e with
  | EvGetAccessToken | EvFetchUser _ => True
  | _ => False
  end.

(** The chains whose wallet creation was requested, in order. *)
Definition createCalls (evs : list Event) : list Z :=
  omap (λ e, match e with
             | EvCreateSafeWallet _ chain _ => Some chain
             | _ => None
             end) evs.

(** How many on-chain reads a list of events contains. *)
Definition isRead (e : Event) : bool :=
  match e with
  | EvIsModuleEnabled _ _ _ => true
  | _ => false
  end.

Definition readCount (evs : list Event) : nat := length (List.filter isRead evs).

(** The chains a full run still has to process: those not already complete
    in the progress map the run starts from. *)
Definition pendingChains (progress0 : gmap string ChainProgress)
    (chains : list ChainConfig) : list ChainConfig :=
  filter (λ c, isComplete (progress0 !! id c) = false) chains.

(** The results of processing [chains] one after the other, each from the
    world the one before it left: [true] where [processChain] returned
    [true]. *)
Fixpoint chainResults (gsma : Z → option string) (h : Hooks)
    (chains : list ChainConfig) (w : World) : list bool :=
  match chains with
  | [] => []
  | chain :: rest =>
      match (processChain gsma h chain w).1 with Returned true => true | _ => false end
      :: chainResults gsma h rest (processChain gsma h chain w).2
  end.

(** What a fetch of the user record sends: the token request and, when it
    resolves with a non-empty token, the request to [/users/me] with that
    token; nothing without authentication. *)
Definition refetchEvents (h : Hooks) (w : World) : list Event :=
  if authenticated h then
    match accessTokens (env w) 0%nat with
    | Returned token =>
        if truthy token then [EvGetAccessToken; EvFetchUser (default "" token)]
        else [EvGetAccessToken]
    | Thrown _ => [EvGetAccessToken]
    end
  else [].

(** [LeavesFetch m]: a run of [m] uses up no answer of the token request or
    of the user-record request. *)
Definition LeavesFetch {A} (m : M A) : Prop :=
  ∀ w, accessTokens (env (m w).2) = accessTokens (env w)
       ∧ fetches (env (m w).2) = fetches (env w).

(** ** Runs of [processChain], path by path *)

(** What a run of [processChain] leaves behind: its result, the progress
    entry of the chain, the signing slot and the events it logged. *)
Record RunSummary : Type := mkSummary {
  run_result : bool;
  run_entry  : ChainProgress;
  run_slot   : option string;
  run_events : list Event
}.

(** The state after a run, from the state before. *)
Definition stateAfter (s : State) (key : string) (sm : RunSummary) : State :=
  set_currentSigningChain (run_slot sm)
    (set_progress (<[key := run_entry sm]> (progress s)) s).

(** The collaborator streams once wallet creation, chain switch, signature
    and submission have each answered once. *)
Definition afterSubmit (e : Env) : Env :=
  mkEnv (accessTokens e) (fetches e) (next (creates e)) (next (switches e))
        (next (signs e)) (next (submits e)) (reads e) (providerChain e)
        (contractTargetError e).

Section ChainRun.
Context (gsma : Z → option string) (h : Hooks) (chain : ChainConfig) (w : World).

Let prev := spread (progress (st w) !! id chain).
Let owner := default "" (walletAddress h).
Let cid := chainId chain.
Let evCreate r := EvCreateSafeWallet owner cid r.

(** The exits of [processChain], each with the answers that lead to it. *)
Inductive ChainRun : RunSummary → Prop :=
| CreateThrew e :
    creates (env w) 0%nat = Thrown e →
    ChainRun (mkSummary false
      (mkProgress (Some pending) (moduleSign prev) (moduleEnable prev)
                  (moduleVerify prev) (Some (messageOrUnknown e)) (safeAddress prev))
      (currentSigningChain (st w))
      [evCreate (Thrown e)])
| CreateRefused cr :
    creates (env w) 0%nat = Returned cr → create_success cr = false →
    ChainRun (mkSummary false
      (mkProgress (Some error) (moduleSign prev) (moduleEnable prev)
                  (moduleVerify prev) (create_error cr) (safeAddress prev))
      (currentSigningChain (st w))
      [evCreate (Returned cr)])
| NoWallet cr :
    creates (env w) 0%nat = Returned cr → create_success cr = true →
    embeddedWallet h = false →
    ChainRun (mkSummary false
      (mkProgress (Some success) (Some error) (moduleEnable prev) (moduleVerify prev)
         (Some ("Failed to switch to " +:+ name chain +:+ ": "
                +:+ "Embedded wallet not available"))
         (create_safeAddress cr))
      None
      [evCreate (Returned cr)])
| SwitchThrew cr e :
    creates (env w) 0%nat = Returned cr → create_success cr = true →
    embeddedWallet h = true →
    switches (env w) 0%nat = Thrown e →
    ChainRun (mkSummary false
      (mkProgress (Some success) (Some error) (moduleEnable prev) (moduleVerify prev)
         (Some ("Failed to switch to " +:+ name chain +:+ ": "
                +:+ ("Failed to switch to chain " +:+ pretty cid +:+ ": "
                     +:+ messageOrString e)))
         (create_safeAddress cr))
      None
      [evCreate (Returned cr); EvSwitchChain cid (Thrown e)])
| SignThrew cr e :
    creates (env w) 0%nat = Returned cr → create_success cr = true →
    embeddedWallet h = true →
    switches (env w) 0%nat = Returned () →
    signs (env w) 0%nat = Thrown e →
    ChainRun (mkSummary false
      (mkProgress (Some success) (Some pending) (moduleEnable prev) (moduleVerify prev)
         (Some (messageOrUnknown e)) (create_safeAddress cr))
      (Some (id chain))
      [evCreate (Returned cr); EvSwitchChain cid (Returned ());
       EvSignEnableModule (create_safeAddress cr) cid (Thrown e)])
| SignRefused cr sg :
    creates (env w) 0%nat = Returned cr → create_success cr = true →
    embeddedWallet h = true →
    switches (env w) 0%nat = Returned () →
    signs (env w) 0%nat = Returned sg → sign_success sg = false →
    ChainRun (mkSummary false
      (mkProgress (Some success) (Some error) (moduleEnable prev) (moduleVerify prev)
         (sign_error sg) (create_safeAddress cr))
      None
      [evCreate (Returned cr); EvSwitchChain cid (Returned ());
       EvSignEnableModule (create_safeAddress cr) cid (Returned sg)])
| AlreadyEnabled cr sg :
    creates (env w) 0%nat = Returned cr → create_success cr = true →
    embeddedWallet h = true →
    switches (env w) 0%nat = Returned () →
    signs (env w) 0%nat = Returned sg → sign_success sg = true →
    alreadyEnabled sg = true →
    ChainRun (mkSummary true
      (mkProgress (Some success) (Some success) (Some success) (Some success)
         None (create_safeAddress cr))
      None
      [evCreate (Returned cr); EvSwitchChain cid (Returned ());
       EvSignEnableModule (create_safeAddress cr) cid (Returned sg)])
| SubmitThrew cr sg e :
    creates (env w) 0%nat = Returned cr → create_success cr = true →
    embeddedWallet h = true →
    switches (env w) 0%nat = Returned () →
    signs (env w) 0%nat = Returned sg → sign_success sg = true →
    alreadyEnabled sg = false →
    submits (env w) 0%nat = Thrown e →
    ChainRun (mkSummary false
      (mkProgress (Some success) (Some success) (Some pending) (moduleVerify prev)
         (Some (messageOrUnknown e)) (create_safeAddress cr))
      None
      [evCreate (Returned cr); EvSwitchChain cid (Returned ());
       EvSignEnableModule (create_safeAddress cr) cid (Returned sg);
       EvSubmitEnableModule (Thrown e)])
| SubmitRefused cr sg sb :
    creates (env w) 0%nat = Returned cr → create_success cr = true →
    embeddedWallet h = true →
    switches (env w) 0%nat = Returned () →
    signs (env w) 0%nat = Returned sg → sign_success sg = true →
    alreadyEnabled sg = false →
    submits (env w) 0%nat = Returned sb → submit_success sb = false →
    ChainRun (mkSummary false
      (mkProgress (Some success) (Some success) (Some error) (moduleVerify prev)
         (submit_error sb) (create_safeAddress cr))
      None
      [evCreate (Returned cr); EvSwitchChain cid (Returned ());
       EvSignEnableModule (create_safeAddress cr) cid (Returned sg);
       EvSubmitEnableModule (Returned sb)])
| NoProvider cr sg sb :
    creates (env w) 0%nat = Returned cr → create_success cr = true →
    embeddedWallet h = true →
    switches (env w) 0%nat = Returned () →
    signs (env w) 0%nat = Returned sg → sign_success sg = true →
    alreadyEnabled sg = false →
    submits (env w) 0%nat = Returned sb → submit_success sb = true →
    ethereumProvider h = false →
    ChainRun (mkSummary false
      (mkProgress (Some success) (Some success) (Some success) (Some error)
         (Some ("Verification failed: " +:+ "Ethereum provider not available"))
         (create_safeAddress cr))
      None
      [evCreate (Returned cr); EvSwitchChain cid (Returned ());
       EvSignEnableModule (create_safeAddress cr) cid (Returned sg);
       EvSubmitEnableModule (Returned sb)])
| Verified cr sg sb w5 outcome w6 evs :
    creates (env w) 0%nat = Returned cr → create_success cr = true →
    embeddedWallet h = true →
    switches (env w) 0%nat = Returned () →
    signs (env w) 0%nat = Returned sg → sign_success sg = true →
    alreadyEnabled sg = false →
    submits (env w) 0%nat = Returned sb → submit_success sb = true →
    ethereumProvider h = true →
    env w5 = afterSubmit (env w) →
    verifyModuleEnabled gsma (create_safeAddress cr) cid 5%nat 2000 w5
      = (outcome, w6) →
    trace w6 = trace w5 ++ evs →
    Forall isVerifyEvent evs →
    ChainRun (mkSummary
      (match outcome with Returned true => true | _ => false end)
      (mkProgress (Some success) (Some success) (Some success)
         (match outcome with Returned true => Some success | _ => Some error end)
         (match outcome with
          | Returned true => None
          | Returned false => Some "Module not enabled after transaction"
          | Thrown e => Some ("Verification failed: " +:+ messageOrString e)
          end)
         (create_safeAddress cr))
      None
      ([evCreate (Returned cr); EvSwitchChain cid (Returned ());
        EvSignEnableModule (create_safeAddress cr) cid (Returned sg);
        EvSubmitEnableModule (Returned sb)] ++ evs)).
End ChainRun.

(** The answers that take a run of [processChain] up to the verify step:
    wallet created, chain switched, transaction signed (with a hash) and
    submitted, and a provider to read the chain with. *)
Definition reachesVerify (h : Hooks) (w : World) : bool :=
  match creates (env w) 0%nat with
  | Returned cr =>
      create_success cr && embeddedWallet h
      && match switches (env w) 0%nat with
         | Returned _ =>
             match signs (env w) 0%nat with
             | Returned sg =>
                 sign_success sg && negb (alreadyEnabled sg)
                 && match submits (env w) 0%nat with
                    | Returned sb => submit_success sb && ethereumProvider h
                    | Thrown _ => false
                    end
             | Thrown _ => false
             end
         | Thrown _ => false
         end
  | Thrown _ => false
  end.

(** The Safe address the wallet creation of a run hands back ([None]: the
    creation throws, or gives no address). *)
Definition createdSafe (w : World) : option string :=
  match creates (env w) 0%nat with
  | Returned cr => create_safeAddress cr
  | Thrown _ => None
  end.

(** The timer waits among a list of events, in order. *)
Definition waitsOf (evs : list Event) : list Q :=
  omap (λ e, match e with EvSleep ms => Some ms | _ => None end) evs.

(** ** The user record *)

(** The user-record request fails in transit: the token request or the
    [fetch] rejects, or the body cannot be read. *)
Definition transportFails (w : World) : bool :=
  match accessTokens (env w) 0%nat with
  | Thrown _ => true
  | Returned token =>
      truthy token
      && match fetches (env w) 0%nat with
         | FetchRejects _ | JsonRejects _ => true
         | _ => false
         end
  end.

(** The backend answers, and has no record of the user. *)
Definition noRecord (w : World) : bool :=
  match accessTokens (env w) 0%nat with
  | Thrown _ => false
  | Returned token =>
      truthy token
      && match fetches (env w) 0%nat with
         | NotOk | Body false _ | Body true UserNull => true
         | _ => false
         end
  end.

(** The spec's rule for an existing user, in its words: a chain requires
    setup iff (testnet chain and no testnet wallet recorded) or (mainnet chain
    and no mainnet wallet recorded); the kind of a chain is what the registry
    says of its numeric id, and a chain the registry does not know requires
    setup. *)
Definition requiresSetup_spec (getChain : Z → option ChainConfig)
    (user : UserData) (chain : ChainConfig) : Prop :=
  (∃ c, getChain (chainId chain) = Some c ∧ isTestnet c = true
        ∧ truthy (safe_wallet_address_testnet user) = false)
  ∨ (∃ c, getChain (chainId chain) = Some c ∧ isTestnet c = false
          ∧ truthy (safe_wallet_address_mainnet user) = false)
  ∨ getChain (chainId chain) = None.

(** ** The claims of the specification that the code does not meet,
       in the specification's words *)

(** "[isModuleEnabled] returning false on attempts 1 and 2 but true on
    attempt 3 (within the configured retry budget) must still yield
    module-verify = success overall." *)
Definition staleReadsRetried_spec (gsma : Z → option string) (h : Hooks)
    (chain : ChainConfig) (w : World) : Prop :=
  reachesVerify h w = true →
  reads (env w) 0%nat = Returned false →
  reads (env w) 1%nat = Returned false →
  reads (env w) 2%nat = Returned true →
  ∃ p, progress (st (processChain gsma h chain w).2) !! id chain = Some p
       ∧ moduleVerify p = Some success.

(** "A restart of a single chain resets exactly that chain's four statuses to
    idle before re-pending": when the new attempt stops at wallet-create, the
    three later steps are idle. *)
Definition retryResetsToIdle_spec (gsma : Z → option string) (h : Hooks)
    (identifier : Identifier) (w : World) : Prop :=
  ∀ chain cr,
    List.find (identifierMatch identifier) (chainsToSetup (st w)) = Some chain →
    creates (env w) 0%nat = Returned cr → create_success cr = false →
    ∃ p, progress (st (retryChain gsma h identifier w).2) !! id chain = Some p
         ∧ moduleSign p = Some idle ∧ moduleEnable p = Some idle
         ∧ moduleVerify p = Some idle.

(** "null means no backend record yet (new user), distinguished from a
    transport error." *)
Definition nullMeansNoRecord_spec (h : Hooks) (w : World) : Prop :=
  (fetchUserData h w).1 = Returned UserNull → noRecord w = true.

(** "For chains that do NOT require setup, progress is pre-filled to
    all-success rather than left idle." *)
Definition prefilled_spec (getChain : Z → option ChainConfig) (h : Hooks)
    (w : World) : Prop :=
  ∀ user c,
    (fetchUserData h w).1 = Returned (UserRecord user) →
    c ∈ chainsToSetup (st w) →
    ¬ requiresSetup_spec getChain user c →
    progress (st (checkUser getChain h w).2) !! id c = Some successProgress.

(** ** Scenarios *)

(** A stream that answers from a list, then keeps giving [dflt]. *)
Definition script {A} (l : list A) (dflt : A) : nat → A := λ n, nth n l dflt.

Definition sepolia : ChainConfig := mkChain "sepolia" "Sepolia" 11155111 true.
Definition mainnet : ChainConfig := mkChain "mainnet" "Ethereum" 1 false.

Definition registry (n : Z) : option ChainConfig :=
  if decide (n = 11155111) then Some sepolia
  else if decide (n = 1) then Some mainnet
  else None.

Definition moduleAddresses (n : Z) : option string := Some "0xMODULE".

Definition noModuleAddresses (n : Z) : option string := None.

Definition hooks : Hooks := mkHooks true true (Some "0xOWNER") true true true.

Definition created : CreateSafeResult := mkCreate true (Some "0xSAFE") None.

Definition signed : SignResult :=
  mkSign true (Some (mkSignData 1 ["0xOWNER"] "0xHASH")) None.

Definition signedAlreadyEnabled : SignResult :=
  mkSign true (Some (mkSignData 1 ["0xOWNER"] "")) None.

Definition submitted : SubmitResult := mkSubmit true None.

(** Collaborators that all succeed, for a user without a backend record;
    the wallet provider stays on chain 1 whatever it is asked. *)
Definition happyEnv : Env :=
  mkEnv (λ _, Returned (Some "token")) (λ _, NotOk)
        (λ _, Returned created) (λ _, Returned ())
        (λ _, Returned signed) (λ _, Returned submitted)
        (λ _, Returned true) (λ _, Some 1)
        (ErrorObj "invalid value for Contract target").

Definition with_reads (r : nat → Outcome bool) (e : Env) : Env :=
  mkEnv (accessTokens e) (fetches e) (creates e) (switches e) (signs e)
        (submits e) r (providerChain e) (contractTargetError e).

Definition with_signs (r : nat → Outcome SignResult) (e : Env) : Env :=
  mkEnv (accessTokens e) (fetches e) (creates e) (switches e) r
        (submits e) (reads e) (providerChain e) (contractTargetError e).

Definition with_creates (r : nat → Outcome CreateSafeResult) (e : Env) : Env :=
  mkEnv (accessTokens e) (fetches e) r (switches e) (signs e)
        (submits e) (reads e) (providerChain e) (contractTargetError e).

Definition with_fetches (r : nat → FetchResult) (e : Env) : Env :=
  mkEnv (accessTokens e) r (creates e) (switches e) (signs e)
        (submits e) (reads e) (providerChain e) (contractTargetError e).

(** The state once [validateMode] has resolved with [chains]. *)
Definition freshState (chains : list ChainConfig) : State :=
  validateMode (Returned chains) (mkState false false false None [] ∅ None).

Definition worldOf (s : State) (e : Env) : World := mkWorld s e 0 [].

(** Both chains configured, nothing done yet, every collaborator succeeds. *)
Definition happyWorld : World := worldOf (freshState [sepolia; mainnet]) happyEnv.

(** The read sees the module as disabled twice, then as enabled. *)
Definition staleReadWorld : World :=
  worldOf (freshState [sepolia; mainnet])
          (with_reads (script [Returned false; Returned false] (Returned true)) happyEnv).

(** The read throws twice, then sees the module as enabled. *)
Definition flakyReadWorld : World :=
  worldOf (freshState [sepolia; mainnet])
          (with_reads (script [Thrown (ErrorObj "network error");
                               Thrown (ErrorObj "network error")] (Returned true))
                      happyEnv).

(** The signature request rejects. *)
Definition signThrowsWorld : World :=
  worldOf (freshState [sepolia; mainnet])
          (with_signs (λ _, Thrown (ErrorObj "User rejected the request")) happyEnv).

(** The module turns out to be enabled already. *)
Definition alreadyEnabledWorld : World :=
  worldOf (freshState [sepolia; mainnet])
          (with_signs (λ _, Returned signedAlreadyEnabled) happyEnv).

(** Onboarding is needed; the creation of the first wallet is refused, every
    later call succeeds. *)
Definition refused : CreateSafeResult := mkCreate false None (Some "Safe creation failed").

Definition firstFailsWorld : World :=
  worldOf (set_needsOnboarding true (freshState [sepolia; mainnet]))
          (with_creates (script [Returned refused] (Returned created)) happyEnv).

(** An earlier attempt on sepolia got as far as a failed verification. *)
Definition failedVerifyProgress : ChainProgress :=
  mkProgress (Some success) (Some success) (Some success) (Some error)
             (Some "Module not enabled after transaction") (Some "0xSAFE").

(** ... and now wallet creation is refused. *)
Definition retryWorld : World :=
  worldOf (set_progress (<["sepolia" := failedVerifyProgress]>
                           (initializeProgress [sepolia; mainnet]))
                        (freshState [sepolia; mainnet]))
          (with_creates (λ _, Returned (mkCreate false None (Some "Safe creation failed")))
                        happyEnv).

(** The request for the user record fails in transit. *)
Definition networkErrorWorld : World :=
  worldOf (freshState [sepolia; mainnet])
          (with_fetches (λ _, FetchRejects (ErrorObj "Failed to fetch")) happyEnv).

(** A mainnet-only configuration and a user whose mainnet wallet exists. *)
Definition mainnetUser : UserData :=
  mkUser "u1" "0xOWNER" None (Some "0xSAFE").

Definition mainnetOnlyWorld : World :=
  worldOf (freshState [mainnet])
          (with_fetches (λ _, Body true (UserRecord mainnetUser)) happyEnv).

(** Both chains configured and a user whose testnet wallet exists. *)
Definition testnetUser : UserData :=
  mkUser "u2" "0xOWNER" (Some "0xSAFE") None.

Definition testnetUserWorld : World :=
  worldOf (freshState [sepolia; mainnet])
          (with_fetches (λ _, Body true (UserRecord testnetUser)) happyEnv).

Arguments waitForChain : simpl never.
Arguments verifyModuleEnabled : simpl never.

(** ** Vocabulary for the properties beyond the specification *)

(** The kinds of collaborator call. *)
Inductive CallKind : Type :=
  | KToken | KFetch | KCreate | KSwitch | KSign | KSubmit | KRead | KSleep.

Definition kindOf (e : Event) : CallKind :=
  match e with
  | EvGetAccessToken => KToken
  | EvFetchUser _ => KFetch
  | EvCreateSafeWallet _ _ _ => KCreate
  | EvSwitchChain _ _ => KSwitch
  | EvSignEnableModule _ _ _ => KSign
  | EvSubmitEnableModule _ => KSubmit
  | EvIsModuleEnabled _ _ _ => KRead
  | EvSleep _ => KSleep
  end.

Definition isSleep (e : Event) : bool :=
  match e with
  | EvSleep _ => true
  | _ => false
  end.

Definition sleepCount (evs : list Event) : nat := length (List.filter isSleep evs).

(** What the verifier logs for reads that throw [errs], one after the other,
    from attempt [attempt] on: each read, and after it the wait, unless the
    attempt is the last of the budget. *)
Fixpoint thrownReads (safe : option string) (moduleAddress : string)
    (maxRetries : nat) (delayMs : Z) (errs : list JsThrown) (attempt : nat)
    : list Event :=
  match errs with
  | [] => []
  | e :: rest =>
      EvIsModuleEnabled safe moduleAddress (Thrown e)
      :: (if (attempt <? maxRetries - 1)%nat
          then [EvSleep (backoffDelay delayMs attempt)] else [])
      ++ thrownReads safe moduleAddress maxRetries delayMs rest (S attempt)
  end.

(** The streams answer [errs], in order, with throws. *)
Definition throwsFirst {A} (s : nat → Outcome A) (errs : list JsThrown) : Prop :=
  ∀ i e, errs !! i = Some e → s i = Thrown e.

(** The sign result is not the "already enabled" one: no data, or a hash. *)
Definition carriesHash (r : SignResult) : Prop :=
  ¬ ∃ data, sign_data r = Some data ∧ safeTxHash data = "".

(** [allComplete] of [retryChain]. *)
Definition othersVerified (identifier : Identifier)
    (progress0 : gmap string ChainProgress) (chains : list ChainConfig) : bool :=
  forallb (λ c, if identifierMatch identifier c then true
                else verifySucceeded (progress0 !! id c)) chains.

(** The waits of [readSafeInfo] after [k] failed rounds:
    [1000 * 2^1, ..., 1000 * 2^k]. *)
Definition safeWaits (k : nat) : list Z :=
  map (λ i, 1000 * 2 ^ Z.of_nat (S i)) (seq 0 k).

(** The polls of [waitForChain] that fit before the timeout when [elapsed]
    ms have passed: one every 100 ms while [elapsed < timeoutMs]. *)
Definition pollsLeft (timeoutMs elapsed : Z) : nat :=
  Z.to_nat ((timeoutMs - elapsed + 99) / 100).

(** The events one run of [processChain] logs. *)
Definition runEvents (gsma : Z → option string) (h : Hooks) (chain : ChainConfig)
    (w : World) : list Event :=
  newEvents w (processChain gsma h chain w).2.

(** ** More scenarios *)

Definition with_switches (r : nat → Outcome ()) (e : Env) : Env :=
  mkEnv (accessTokens e) (fetches e) (creates e) r (signs e)
        (submits e) (reads e) (providerChain e) (contractTargetError e).

Definition with_providerChain (r : Z → option Z) (e : Env) : Env :=
  mkEnv (accessTokens e) (fetches e) (creates e) (switches e) (signs e)
        (submits e) (reads e) r (contractTargetError e).

(** The wallet refuses to switch chain. *)
Definition switchThrowsWorld : World :=
  worldOf (freshState [sepolia; mainnet])
          (with_switches (λ _, Thrown (ErrorObj "User rejected the request")) happyEnv).

(** The signature comes back without data. *)
Definition signedWithoutData : SignResult := mkSign true None None.

Definition signWithoutDataWorld : World :=
  worldOf (freshState [sepolia; mainnet])
          (with_signs (λ _, Returned signedWithoutData) happyEnv).

(** Every read of the chain throws. *)
Definition deadReadWorld : World :=
  worldOf (freshState [sepolia; mainnet])
          (with_reads (λ _, Thrown (ErrorObj "network error")) happyEnv).

(** The hooks without a wallet handle, and without a provider. *)
Definition hooksNoWallet : Hooks := mkHooks true true (Some "0xOWNER") false true true.
Definition hooksNoProvider : Hooks := mkHooks true true (Some "0xOWNER") true false true.

(** The wallet provider is on chain 1 for 250 ms, then on Sepolia. *)
Definition switchingWorld : World :=
  worldOf (freshState [sepolia; mainnet])
          (with_providerChain (λ t, if decide (t < 250) then Some 1 else Some 11155111)
                              happyEnv).

(** Both chains already complete. *)
Definition doneWorld : World :=
  worldOf (set_needsOnboarding true
             (set_progress (<["sepolia" := successProgress]>
                              (<["mainnet" := successProgress]> ∅))
                           (freshState [sepolia; mainnet])))
          happyEnv.

(** Answers of a Safe: a Safe with threshold 1 and the module enabled, a
    Safe that reports threshold 0, and a contract that cannot be reached. *)
Definition safeInfo1 : SafeInfo := mkSafeInfo 1 ["0xOWNER"] true.
Definition safeInfo0 : SafeInfo := mkSafeInfo 0 [] true.

Definition flakySafe : nat → Outcome SafeInfo :=
  script [Thrown (ErrorObj "timeout"); Thrown (ErrorObj "timeout")] (Returned safeInfo1).

Definition deadSafe : nat → Outcome SafeInfo :=
  λ i, Thrown (ErrorObj ("network error " +:+ pretty i)).

(** * Properties *)

Arguments reachesVerify : simpl never.


Lemma newEvents_app w w' evs : trace w' = trace w ++ evs → newEvents w w' = evs.
Proof. intros H. unfold newEvents. rewrite H. by rewrite drop_app_length. Qed.

(** ** Which state an operation may touch *)



Global Instance sameOutside_preorder key : PreOrder (sameOutside key).
Proof.
  split.
  - intros s. by split.
  - intros s1 s2 s3 H12 H23. split.
    1-5: destruct H12, H23; congruence.
    intros k Hk. rewrite (same_progress _ _ _ H23 k Hk).
    apply (same_progress _ _ _ H12 k Hk).
Qed.

Section Keeps.
Context (R : relation State) `{!PreOrder R}.

Lemma Keeps_ret {A} (a : A) : Keeps R (ret a).
Proof. intros w. reflexivity. Qed.

Lemma Keeps_throw {A} e : Keeps R (@throw A e).
Proof. intros w. reflexivity. Qed.

Lemma Keeps_bind {A B} (m : M A) (k : A → M B) :
  Keeps R m → (∀ a, Keeps R (k a)) → Keeps R (bind m k).
Proof.
  intros Hm Hk w. unfold bind. specialize (Hm w).
  destruct (m w) as [[a|e] w1]; cbn in *; [|done].
  etrans; [exact Hm|apply Hk].
Qed.

Lemma Keeps_try_catch {A} (m : M A) (h : JsThrown → M A) :
  Keeps R m → (∀ e, Keeps R (h e)) → Keeps R (try_catch m h).
Proof.
  intros Hm Hh w. unfold try_catch. specialize (Hm w).
  destruct (m w) as [[a|e] w1]; cbn in *; [done|].
  etrans; [exact Hm|apply Hh].
Qed.

Lemma Keeps_if {A} (b : bool) (m1 m2 : M A) :
  Keeps R m1 → Keeps R m2 → Keeps R (if b then m1 else m2).
Proof. by destruct b. Qed.

Lemma Keeps_same_st {A} (m : M A) : (∀ w, st (m w).2 = st w) → Keeps R m.
Proof. intros H w. rewrite H. reflexivity. Qed.

Lemma Keeps_getPrivyAccessToken : Keeps R getPrivyAccessToken.
Proof. by apply Keeps_same_st. Qed.

Lemma Keeps_fetchUsersMe token : Keeps R (fetchUsersMe token).
Proof. by apply Keeps_same_st. Qed.

Lemma Keeps_createSafeWallet owner chain : Keeps R (createSafeWallet owner chain).
Proof. by apply Keeps_same_st. Qed.

Lemma Keeps_switchChain chain : Keeps R (switchChain chain).
Proof. by apply Keeps_same_st. Qed.

Lemma Keeps_signEnableModule safe chain : Keeps R (signEnableModule safe chain).
Proof. by apply Keeps_same_st. Qed.

Lemma Keeps_submitEnableModule : Keeps R submitEnableModule.
Proof. by apply Keeps_same_st. Qed.

Lemma Keeps_isModuleEnabled safe moduleAddress :
  Keeps R (isModuleEnabled safe moduleAddress).
Proof. by apply Keeps_same_st. Qed.

Lemma Keeps_sleep ms : Keeps R (sleep ms).
Proof. by apply Keeps_same_st. Qed.

Lemma Keeps_ensureChainSelected wallet chain :
  Keeps R (ensureChainSelected wallet chain).
Proof.
  unfold ensureChainSelected. apply Keeps_if; [apply Keeps_throw|].
  apply Keeps_try_catch; [apply Keeps_switchChain|intros; apply Keeps_throw].
Qed.

Lemma waitForChain_loop_st getCurrentChainId target timeoutMs startTime w :
  st (waitForChain_loop getCurrentChainId target timeoutMs startTime w).2 = st w.
Proof.
  funelim (waitForChain_loop getCurrentChainId target timeoutMs startTime w);
    [done|done|].
  by rewrite H.
Qed.

Lemma Keeps_waitForChain getCurrentChainId target timeoutMs :
  Keeps R (waitForChain getCurrentChainId target timeoutMs).
Proof. apply Keeps_same_st. intros w. apply waitForChain_loop_st. Qed.

Lemma Keeps_verifyModuleEnabled_loop safe moduleAddress maxRetries delayMs
    remaining attempt lastError :
  Keeps R (verifyModuleEnabled_loop safe moduleAddress maxRetries delayMs
                                    remaining attempt lastError).
Proof.
  revert attempt lastError.
  induction remaining as [|remaining IH]; intros attempt lastError; cbn.
  - apply Keeps_throw.
  - apply Keeps_try_catch; [apply Keeps_isModuleEnabled|].
    intros e. apply Keeps_bind; [|intros; apply IH].
    apply Keeps_if; [apply Keeps_sleep|apply Keeps_ret].
Qed.

Lemma Keeps_newSafeContract safe : Keeps R (newSafeContract safe).
Proof. apply Keeps_same_st. intros w. by destruct safe. Qed.

Lemma Keeps_verifyModuleEnabled gsma safe chain maxRetries delayMs :
  Keeps R (verifyModuleEnabled gsma safe chain maxRetries delayMs).
Proof.
  unfold verifyModuleEnabled.
  apply Keeps_if; [apply Keeps_throw|].
  apply Keeps_bind; [apply Keeps_newSafeContract|].
  intros _. apply Keeps_verifyModuleEnabled_loop.
Qed.

Lemma Keeps_fetchUserData h : Keeps R (fetchUserData h).
Proof.
  unfold fetchUserData. apply Keeps_if; [apply Keeps_ret|].
  apply Keeps_try_catch; [|intros; apply Keeps_ret].
  apply Keeps_bind; [apply Keeps_getPrivyAccessToken|intros tok].
  apply Keeps_if; [apply Keeps_ret|].
  apply Keeps_bind; [apply Keeps_fetchUsersMe|intros []];
    first [apply Keeps_ret|apply Keeps_throw].
Qed.
End Keeps.

Lemma Keeps_setProgressEntry key upd : Keeps (sameOutside key) (setProgressEntry key upd).
Proof. intros w. split; cbn; try done. intros k Hk. by rewrite lookup_insert_ne. Qed.

Lemma Keeps_setCurrentSigningChain key slot :
  Keeps (sameOutside key) (setCurrentSigningChain slot).
Proof. by intros w. Qed.

Create HintDb keeps.
#[export] Hint Resolve Keeps_ret Keeps_throw Keeps_createSafeWallet
  Keeps_signEnableModule Keeps_submitEnableModule Keeps_ensureChainSelected
  Keeps_waitForChain Keeps_verifyModuleEnabled Keeps_fetchUserData
  Keeps_setProgressEntry Keeps_setCurrentSigningChain : keeps.

Ltac keeps_step :=
  first [ solve [eauto with keeps typeclass_instances]
        | apply Keeps_bind
        | apply Keeps_try_catch
        | apply Keeps_if
        | intros ? ].

(** [processChain] writes only the progress entry of the chain it processes
    (and the signing slot). *)
Lemma processChain_sameOutside gsma h chain :
  Keeps (sameOutside (id chain)) (processChain gsma h chain).
Proof. unfold processChain. repeat keeps_step. Qed.

Lemma fetchUserData_st h w : st (fetchUserData h w).2 = st w.
Proof. symmetry. exact (Keeps_fetchUserData eq h w). Qed.

(** ** Which events an operation may log *)


Section Emits.
Context (P : Event → Prop).

Lemma Emits_nothing {A} (m : M A) : (∀ w, trace (m w).2 = trace w) → Emits P m.
Proof. intros H w. exists []. by rewrite H, app_nil_r. Qed.

Lemma Emits_one {A} (m : M A) (ev : World → Event) :
  (∀ w, trace (m w).2 = trace w ++ [ev w]) → (∀ w, P (ev w)) → Emits P m.
Proof. intros H HP w. exists [ev w]. split; [apply H|]. by constructor. Qed.

Lemma Emits_ret {A} (a : A) : Emits P (ret a).
Proof. by apply Emits_nothing. Qed.

Lemma Emits_throw {A} e : Emits P (@throw A e).
Proof. by apply Emits_nothing. Qed.

Lemma Emits_bind {A B} (m : M A) (k : A → M B) :
  Emits P m → (∀ a, Emits P (k a)) → Emits P (bind m k).
Proof.
  intros Hm Hk w. unfold bind. destruct (Hm w) as (evs & Htr & Hall).
  destruct (m w) as [[a|e] w1]; cbn in *; [|by eauto].
  destruct (Hk a w1) as (evs' & Htr' & Hall').
  exists (evs ++ evs'). rewrite Htr', Htr, app_assoc.
  split; [done|by apply Forall_app].
Qed.

Lemma Emits_try_catch {A} (m : M A) (h : JsThrown → M A) :
  Emits P m → (∀ e, Emits P (h e)) → Emits P (try_catch m h).
Proof.
  intros Hm Hh w. unfold try_catch. destruct (Hm w) as (evs & Htr & Hall).
  destruct (m w) as [[a|e] w1]; cbn in *; [by eauto|].
  destruct (Hh e w1) as (evs' & Htr' & Hall').
  exists (evs ++ evs'). rewrite Htr', Htr, app_assoc.
  split; [done|by apply Forall_app].
Qed.

Lemma Emits_if {A} (b : bool) (m1 m2 : M A) :
  Emits P m1 → Emits P m2 → Emits P (if b then m1 else m2).
Proof. by destruct b. Qed.

Lemma Emits_setProgressEntry key upd : Emits P (setProgressEntry key upd).
Proof. by apply Emits_nothing. Qed.

Lemma Emits_setCurrentSigningChain slot : Emits P (setCurrentSigningChain slot).
Proof. by apply Emits_nothing. Qed.

Lemma Emits_setNeedsOnboarding b : Emits P (setNeedsOnboarding b).
Proof. by apply Emits_nothing. Qed.

Lemma Emits_setIsOnboarding b : Emits P (setIsOnboarding b).
Proof. by apply Emits_nothing. Qed.

Lemma Emits_getPrivyAccessToken : P EvGetAccessToken → Emits P getPrivyAccessToken.
Proof. intros. by apply (Emits_one _ (λ _, EvGetAccessToken)). Qed.

Lemma Emits_fetchUsersMe token : P (EvFetchUser token) → Emits P (fetchUsersMe token).
Proof. intros. by apply (Emits_one _ (λ _, EvFetchUser token)). Qed.

Lemma Emits_switchChain chain :
  (∀ r, P (EvSwitchChain chain r)) → Emits P (switchChain chain).
Proof. intros. by apply (Emits_one _ (λ w, EvSwitchChain chain (switches (env w) 0%nat))). Qed.

Lemma Emits_signEnableModule safe chain :
  (∀ r, P (EvSignEnableModule safe chain r)) → Emits P (signEnableModule safe chain).
Proof.
  intros. by apply (Emits_one _ (λ w, EvSignEnableModule safe chain (signs (env w) 0%nat))).
Qed.

Lemma Emits_submitEnableModule :
  (∀ r, P (EvSubmitEnableModule r)) → Emits P submitEnableModule.
Proof. intros. by apply (Emits_one _ (λ w, EvSubmitEnableModule (submits (env w) 0%nat))). Qed.

Lemma Emits_isModuleEnabled safe moduleAddress :
  (∀ r, P (EvIsModuleEnabled safe moduleAddress r)) →
  Emits P (isModuleEnabled safe moduleAddress).
Proof.
  intros. by apply (Emits_one _ (λ w, EvIsModuleEnabled safe moduleAddress
                                                         (reads (env w) 0%nat))).
Qed.

Lemma Emits_sleep ms : P (EvSleep ms) → Emits P (sleep ms).
Proof. intros. by apply (Emits_one _ (λ _, EvSleep ms)). Qed.

Lemma Emits_ensureChainSelected wallet chain :
  (∀ r, P (EvSwitchChain chain r)) → Emits P (ensureChainSelected wallet chain).
Proof.
  intros. unfold ensureChainSelected. apply Emits_if; [apply Emits_throw|].
  apply Emits_try_catch; [by apply Emits_switchChain|intros; apply Emits_throw].
Qed.

Lemma Emits_waitForChain_loop getCurrentChainId target timeoutMs startTime w :
  (∀ ms, P (EvSleep ms)) →
  ∃ evs,
    trace (waitForChain_loop getCurrentChainId target timeoutMs startTime w).2
    = trace w ++ evs ∧ Forall P evs.
Proof.
  intros HP.
  funelim (waitForChain_loop getCurrentChainId target timeoutMs startTime w).
  - exists []. by rewrite app_nil_r.
  - exists []. by rewrite app_nil_r.
  - destruct (H HP) as (evs & Htr & Hall).
    exists (EvSleep (inject_Z 100) :: evs). rewrite Htr. cbn.
    rewrite <- app_assoc. split; [done|]. constructor; [apply HP|done].
Qed.

Lemma Emits_waitForChain getCurrentChainId target timeoutMs :
  (∀ ms, P (EvSleep ms)) → Emits P (waitForChain getCurrentChainId target timeoutMs).
Proof. intros HP w. by apply Emits_waitForChain_loop. Qed.

Lemma Emits_verifyModuleEnabled_loop safe moduleAddress maxRetries delayMs
    remaining attempt lastError :
  (∀ e, isVerifyEvent e → P e) →
  Emits P (verifyModuleEnabled_loop safe moduleAddress maxRetries delayMs
                                    remaining attempt lastError).
Proof.
  intros HP. revert attempt lastError.
  induction remaining as [|remaining IH]; intros attempt lastError; cbn.
  - apply Emits_throw.
  - apply Emits_try_catch; [apply Emits_isModuleEnabled; intros; by apply HP|].
    intros e. apply Emits_bind; [|intros; apply IH].
    apply Emits_if; [apply Emits_sleep; by apply HP|apply Emits_ret].
Qed.

Lemma Emits_newSafeContract safe : Emits P (newSafeContract safe).
Proof. apply Emits_nothing. intros w. by destruct safe. Qed.

Lemma Emits_verifyModuleEnabled gsma safe chain maxRetries delayMs :
  (∀ e, isVerifyEvent e → P e) →
  Emits P (verifyModuleEnabled gsma safe chain maxRetries delayMs).
Proof.
  intros HP. unfold verifyModuleEnabled.
  apply Emits_if; [apply Emits_throw|].
  apply Emits_bind; [apply Emits_newSafeContract|].
  intros _. by apply Emits_verifyModuleEnabled_loop.
Qed.

Lemma Emits_fetchUserData h :
  (∀ e, isFetchEvent e → P e) → Emits P (fetchUserData h).
Proof.
  intros HP. unfold fetchUserData. apply Emits_if; [apply Emits_ret|].
  apply Emits_try_catch; [|intros; apply Emits_ret].
  apply Emits_bind; [apply Emits_getPrivyAccessToken; by apply HP|intros tok].
  apply Emits_if; [apply Emits_ret|].
  apply Emits_bind; [apply Emits_fetchUsersMe; by apply HP|intros []];
    first [apply Emits_ret|apply Emits_throw].
Qed.
End Emits.


(** ** Symbolic runs *)

Local Arguments with_st _ _ /.
Local Arguments with_env _ _ /.
Local Arguments log _ _ /.
Local Arguments next {_} _ _ /.
Local Arguments sleep_world _ _ /.
Local Arguments set_needsOnboarding _ _ /.
Local Arguments set_isOnboarding _ _ /.
Local Arguments set_isCheckingUser _ _ /.
Local Arguments set_isModeValid _ _ /.
Local Arguments set_chainsToSetup _ _ /.
Local Arguments set_progress _ _ /.
Local Arguments set_currentSigningChain _ _ /.
Local Arguments with_walletCreate _ _ /.
Local Arguments with_moduleSign _ _ /.
Local Arguments with_moduleEnable _ _ /.
Local Arguments with_moduleVerify _ _ /.
Local Arguments with_error _ _ /.
Local Arguments with_safeAddress _ _ /.

Ltac simp_run_in H :=
  repeat first
    [ progress cbn [fst snd negb with_st with_env log sleep_world st env now trace
         creates switches signs submits reads accessTokens fetches providerChain next
         needsOnboarding isOnboarding isCheckingUser isModeValid chainsToSetup
         progress currentSigningChain
         set_needsOnboarding set_isOnboarding set_isCheckingUser set_isModeValid
         set_chainsToSetup set_progress set_currentSigningChain
         spread default from_option Datatypes.id
         with_walletCreate with_moduleSign with_moduleEnable with_moduleVerify
         with_error with_safeAddress
         walletCreate moduleSign moduleEnable moduleVerify errorMsg safeAddress] in H
    | rewrite lookup_insert_eq in H
    | rewrite insert_insert_eq in H ].

Ltac simp_run :=
  repeat first
    [ progress cbn [fst snd negb with_st with_env log sleep_world st env now trace
         creates switches signs submits reads accessTokens fetches providerChain next
         needsOnboarding isOnboarding isCheckingUser isModeValid chainsToSetup
         progress currentSigningChain
         set_needsOnboarding set_isOnboarding set_isCheckingUser set_isModeValid
         set_chainsToSetup set_progress set_currentSigningChain
         spread default from_option Datatypes.id
         with_walletCreate with_moduleSign with_moduleEnable with_moduleVerify
         with_error with_safeAddress
         walletCreate moduleSign moduleEnable moduleVerify errorMsg safeAddress]
    | rewrite lookup_insert_eq
    | rewrite insert_insert_eq ].

Ltac unfold_run_in H :=
  unfold ensureChainSelected in H;
  unfold bind, try_catch, try_finally, ret, throw, setProgressEntry,
    setCurrentSigningChain, setNeedsOnboarding, setIsOnboarding, setIsCheckingUser,
    createSafeWallet, switchChain, signEnableModule, submitEnableModule,
    isModuleEnabled, getPrivyAccessToken, fetchUsersMe, sleep in H.

Ltac unfold_run :=
  unfold ensureChainSelected;
  unfold bind, try_catch, try_finally, ret, throw, setProgressEntry,
    setCurrentSigningChain, setNeedsOnboarding, setIsOnboarding, setIsCheckingUser,
    createSafeWallet, switchChain, signEnableModule, submitEnableModule,
    isModuleEnabled, getPrivyAccessToken, fetchUsersMe, sleep.

(** The wait of [processChain] asks a getter that always answers the target
    chain, so it returns at once, whatever the wallet provider reports. *)
Lemma waitForChain_immediate target timeoutMs w :
  0 < timeoutMs →
  waitForChain (λ _, Some target) target timeoutMs w = (Returned (), w).
Proof.
  intros Hpos. unfold waitForChain.
  rewrite waitForChain_loop_equation_1.
  destruct (decide (now w - now w < timeoutMs)) as [Hlt|Hge]; [|lia].
  cbn. destruct (decide (Some target = Some target)); [done|congruence].
Qed.

Lemma verifyModuleEnabled_facts gsma safe chain maxRetries delayMs w r w' :
  verifyModuleEnabled gsma safe chain maxRetries delayMs w = (r, w') →
  st w' = st w ∧ ∃ evs, trace w' = trace w ++ evs ∧ Forall isVerifyEvent evs.
Proof.
  intros Hrun. split.
  - pose proof (Keeps_verifyModuleEnabled eq gsma safe chain maxRetries delayMs w) as H.
    by rewrite Hrun in H.
  - destruct (Emits_verifyModuleEnabled isVerifyEvent gsma safe chain maxRetries delayMs
                (λ _ H, H) w) as (evs & Htr & Hall).
    rewrite Hrun in Htr. eauto.
Qed.

Ltac case_run H :=
  repeat (first
    [ rewrite waitForChain_immediate in H by lia
    | match type of H with
      | context [match creates ?e ?n with _ => _ end] =>
          destruct (creates e n) eqn:?
      | context [match switches ?e ?n with _ => _ end] =>
          destruct (switches e n) as [[]|] eqn:?
      | context [match signs ?e ?n with _ => _ end] =>
          destruct (signs e n) eqn:?
      | context [match submits ?e ?n with _ => _ end] =>
          destruct (submits e n) eqn:?
      | context [if negb (create_success ?c) then _ else _] =>
          destruct (create_success c) eqn:?
      | context [if negb (sign_success ?c) then _ else _] =>
          destruct (sign_success c) eqn:?
      | context [if negb (submit_success ?c) then _ else _] =>
          destruct (submit_success c) eqn:?
      | context [if alreadyEnabled ?c then _ else _] =>
          destruct (alreadyEnabled c) eqn:?
      | context [if negb (embeddedWallet ?c) then _ else _] =>
          destruct (embeddedWallet c) eqn:?
      | context [if negb (ethereumProvider ?c) then _ else _] =>
          destruct (ethereumProvider c) eqn:?
      end ]; simp_run_in H).

(** Every run of [processChain] takes one of the exits of [ChainRun], returns
    (never throws), and changes the state and the log as the summary says. *)
Lemma processChain_cases gsma h chain w :
  ∃ sm, ChainRun gsma h chain w sm ∧
        (processChain gsma h chain w).1 = Returned (run_result sm) ∧
        st (processChain gsma h chain w).2 = stateAfter (st w) (id chain) sm ∧
        trace (processChain gsma h chain w).2 = trace w ++ run_events sm.
Proof.
  destruct (processChain gsma h chain w) as [r w'] eqn:Hrun. cbn [fst snd].
  unfold processChain in Hrun. unfold_run_in Hrun. simp_run_in Hrun.
  case_run Hrun.
  all: try (injection Hrun as <- <-; eexists (mkSummary _ _ _ _); unfold stateAfter;
            cbn [run_result run_entry run_slot run_events];
            split; [|split; [reflexivity|split; [simp_run; reflexivity|
              simp_run; rewrite <- ?app_assoc; cbn [app]; reflexivity]]]).
  all: try (solve [econstructor; eauto]).
  match type of Hrun with context [verifyModuleEnabled ?g ?s ?c ?m ?d ?w5] =>
    destruct (verifyModuleEnabled g s c m d w5) as [outcome w6] eqn:Hv;
    destruct (verifyModuleEnabled_facts _ _ _ _ _ _ _ _ Hv) as (Hst & evs & Htr & Hall);
    simp_run_in Hst; simp_run_in Htr;
    eexists; split;
      [eapply (Verified _ _ _ _ _ _ _ w5 outcome w6 evs); eauto; reflexivity|]
  end.
  destruct outcome as [[]|]; simp_run_in Hrun; injection Hrun as <- <-;
    (split; [reflexivity|split]); simp_run; rewrite ?Hst, ?Htr; simp_run;
    rewrite <- ?app_assoc; reflexivity.
Qed.

(** Membership of an event in the explicit event list of a run. *)
Ltac events_inv H :=
  repeat match type of H with
  | _ ∈ _ ++ _ => apply elem_of_app in H as [H|H]
  | _ ∈ _ :: _ => apply elem_of_cons in H as [H|H]; [try discriminate H|]
  | _ ∈ [] => by apply elem_of_nil in H
  | ?e ∈ ?evs =>
      match goal with
      | Hall : Forall isVerifyEvent evs |- _ =>
          rewrite Forall_forall in Hall; apply Hall in H; by cbn in H
      end
  end.

Lemma processChain_returns gsma h chain w :
  ∃ ok, (processChain gsma h chain w).1 = Returned ok.
Proof. destruct (processChain_cases gsma h chain w) as (sm & _ & Hres & _). eauto. Qed.

Lemma processChain_progress gsma h chain w sm :
  st (processChain gsma h chain w).2 = stateAfter (st w) (id chain) sm →
  progress (st (processChain gsma h chain w).2) !! id chain = Some (run_entry sm).
Proof. intros ->. cbn. apply lookup_insert_eq. Qed.

(** ** The already-enabled short cut *)

(** C6. In every execution of [processChain] in which [signEnableModule]
    returns success with an empty transaction hash, the chain is reported as
    fully processed ([true]), [submitEnableModule] is never invoked, and both
    module-enable and module-verify end as success. *)
Theorem processChain_already_enabled gsma h chain w safe cid r data :
  EvSignEnableModule safe cid (Returned r)
    ∈ newEvents w (processChain gsma h chain w).2 →
  sign_success r = true → sign_data r = Some data → safeTxHash data = "" →
  (processChain gsma h chain w).1 = Returned true
  ∧ (∀ res, EvSubmitEnableModule res ∉ newEvents w (processChain gsma h chain w).2)
  ∧ submits (env (processChain gsma h chain w).2) = submits (env w)
  ∧ ∃ p, progress (st (processChain gsma h chain w).2) !! id chain = Some p
         ∧ moduleEnable p = Some success ∧ moduleVerify p = Some success.
Proof.
  intros Hin Hok Hdata Hhash.
  assert (Hae : alreadyEnabled r = true).
  { unfold alreadyEnabled. by rewrite Hdata, Hhash. }
  destruct (processChain_cases gsma h chain w) as (sm & Hrun & Hres & Hst & Htr).
  rewrite (newEvents_app _ _ _ Htr) in Hin |- *.
  rewrite Hres, (processChain_progress _ _ _ _ _ Hst).
  destruct Hrun; cbn [run_events run_result run_entry] in *; events_inv Hin;
    inversion Hin; subst; try congruence.
  split; [done|]. split.
  { intros res Hsub. events_inv Hsub. }
  split; [|by eauto].
  unfold processChain. unfold_run. simp_run.
  rewrite H. simp_run. rewrite H0. simp_run. rewrite H1. simp_run.
  rewrite H2. simp_run. rewrite waitForChain_immediate by lia. simp_run.
  rewrite H3. simp_run. rewrite H4. simp_run. by rewrite Hae.
Qed.

Lemma processChain_already_enabled_witness :
  (processChain moduleAddresses hooks sepolia alreadyEnabledWorld).1 = Returned true.
Proof.
  refine (proj1 (processChain_already_enabled moduleAddresses hooks sepolia
                   alreadyEnabledWorld (Some "0xSAFE") 11155111 signedAlreadyEnabled
                   (mkSignData 1 ["0xOWNER"] "") _ _ _ _)).
  - vm_compute. do 2 apply list_elem_of_further. apply list_elem_of_here.
  - reflexivity.
  - reflexivity.
  - reflexivity.
Defined.

(** ** Retrying one chain *)

Global Instance othersUntouched_preorder key : PreOrder (othersUntouched key).
Proof.
  split.
  - by intros s k Hk.
  - intros s1 s2 s3 H12 H23 k Hk. rewrite (H23 k Hk). by apply H12.
Qed.

Lemma Keeps_weaken {A} (R R' : relation State) (m : M A) :
  (∀ s s', R s s' → R' s s') → Keeps R m → Keeps R' m.
Proof. intros HR Hm w. apply HR, Hm. Qed.

Lemma processChain_othersUntouched gsma h chain :
  Keeps (othersUntouched (id chain)) (processChain gsma h chain).
Proof.
  eapply Keeps_weaken; [|apply processChain_sameOutside].
  intros s s' H. exact (same_progress _ _ _ H).
Qed.

(** C9. Retrying a single chain leaves the progress entry of every other
    chain as it was: for every identifier and every starting progress map, a
    key that is not the identifier of the retried chain reads the same before
    and after ([processChain] writes only the entry keyed by the chain it
    processes). *)
Theorem retryChain_leaves_other_chains gsma h identifier w key :
  (∀ chain, List.find (identifierMatch identifier) (chainsToSetup (st w)) = Some chain →
            key ≠ id chain) →
  progress (st (retryChain gsma h identifier w).2) !! key = progress (st w) !! key.
Proof.
  intros Hkey. unfold retryChain.
  destruct (List.find _ _) as [chain|] eqn:Hfind; [|done].
  specialize (Hkey chain eq_refl).
  match goal with |- context [st (?m w).2] =>
    assert (Hm : Keeps (othersUntouched (id chain)) m)
  end.
  { apply Keeps_bind; [apply _|apply processChain_othersUntouched|].
    intros ok. apply Keeps_if; [|apply Keeps_ret; apply _].
    apply Keeps_bind; [apply _|apply Keeps_fetchUserData; apply _|].
    intros _. apply Keeps_if; [|apply Keeps_ret; apply _].
    apply Keeps_bind; [apply _| |]; by intros. }
  by apply Hm.
Qed.

Lemma retryChain_leaves_other_chains_witness :
  progress (st (retryChain moduleAddresses hooks (IdString "sepolia") happyWorld).2)
    !! "mainnet"
  = progress (st happyWorld) !! "mainnet".
Proof.
  apply retryChain_leaves_other_chains.
  intros chain Hfind. vm_compute in Hfind. injection Hfind as <-. discriminate.
Defined.

Lemma createCalls_app evs1 evs2 :
  createCalls (evs1 ++ evs2) = createCalls evs1 ++ createCalls evs2.
Proof. apply omap_app. Qed.

Lemma createCalls_verify evs : Forall isVerifyEvent evs → createCalls evs = [].
Proof.
  induction 1 as [|e evs He _ IH]; [done|].
  destruct e; try done; cbn; exact IH.
Qed.

Lemma createCalls_fetch evs : Forall isFetchEvent evs → createCalls evs = [].
Proof.
  induction 1 as [|e evs He _ IH]; [done|].
  destruct e; try done; cbn; exact IH.
Qed.

(** Every run of [processChain] starts by asking for the wallet, asks for it
    once, and never fetches the user record. *)
Lemma ChainRun_events gsma h chain w sm :
  ChainRun gsma h chain w sm →
  ∃ rest,
    run_events sm
    = EvCreateSafeWallet (default "" (walletAddress h)) (chainId chain)
                         (creates (env w) 0%nat) :: rest
    ∧ createCalls rest = []
    ∧ Forall (λ e, ¬ isFetchEvent e) rest.
Proof.
  destruct 1 as [e Hc|cr Hc|cr Hc|cr e Hc|cr e Hc|cr sg Hc|cr sg Hc|cr sg e Hc
                 |cr sg sb Hc|cr sg sb Hc|cr sg sb w5 outcome w6 evs Hc];
    cbn [run_events]; rewrite Hc; eexists; (split; [reflexivity|]).
  1-10: split; [reflexivity|]; repeat constructor; by intros [].
  split.
  - cbn. by apply createCalls_verify.
  - cbn [app]. repeat (constructor; [intros Hf; exact Hf|]).
    eapply Forall_impl; [eassumption|].
    intros [] Hv Hf; solve [exact Hv|exact Hf].
Qed.

(** A retry of a configured chain is one run of [processChain], followed by
    a fetch of the user record when the run succeeded. *)
Lemma retryChain_cases gsma h identifier w chain :
  List.find (identifierMatch identifier) (chainsToSetup (st w)) = Some chain →
  ∃ sm fetched,
    ChainRun gsma h chain w sm
    ∧ trace (retryChain gsma h identifier w).2 = trace w ++ run_events sm ++ fetched
    ∧ Forall isFetchEvent fetched
    ∧ progress (st (retryChain gsma h identifier w).2)
      = <[id chain := run_entry sm]> (progress (st w))
    ∧ currentSigningChain (st (retryChain gsma h identifier w).2) = run_slot sm.
Proof.
  intros Hfind.
  destruct (processChain_cases gsma h chain w) as (sm & Hrun & Hres & Hst & Htr).
  exists sm.
  destruct (retryChain gsma h identifier w) as [rr w'] eqn:Hretry. cbn [snd].
  unfold retryChain in Hretry. rewrite Hfind in Hretry. unfold bind at 1 in Hretry.
  destruct (processChain gsma h chain w) as [r w1]. cbn [fst snd] in *. subst r.
  destruct (run_result sm).
  - unfold bind at 1 in Hretry.
    pose proof (fetchUserData_st h w1) as Hfst.
    destruct (Emits_fetchUserData isFetchEvent h (λ _ H, H) w1)
      as (fetched & Hftr & Hall).
    exists fetched.
    destruct (fetchUserData h w1) as [[u|e] w2]; cbn [fst snd] in *.
    + match type of Hretry with context [if ?b then _ else _] => destruct b end;
        unfold_run_in Hretry; simp_run_in Hretry; injection Hretry as <- <-;
        simp_run; rewrite Hftr, Htr, Hfst, Hst, <- app_assoc; by cbn.
    + injection Hretry as <- <-. rewrite Hftr, Htr, Hfst, Hst, <- app_assoc. by cbn.
  - exists []. unfold_run_in Hretry. injection Hretry as <- <-.
    rewrite Htr, Hst, app_nil_r. by cbn.
Qed.

(** The claim that a retry resets the chain's statuses to idle fails: a chain
    whose earlier attempt got as far as the verify step, and whose wallet
    creation is refused on retry, ends with module-sign and module-enable
    still success and module-verify still error. *)
Lemma retryChain_does_not_reset_to_idle :
  ¬ retryResetsToIdle_spec moduleAddresses hooks (IdString "sepolia") retryWorld.
Proof.
  intros Hspec.
  destruct (Hspec sepolia (mkCreate false None (Some "Safe creation failed"))
              eq_refl eq_refl eq_refl) as (p & Hp & Hsign & _).
  vm_compute in Hp. injection Hp as <-. discriminate Hsign.
Qed.

(** C2, amended. A retry of a configured chain starts over from
    wallet-create: the first collaborator call is the wallet creation for that
    chain.  It does not reset the chain's statuses to idle: when the new
    attempt stops at wallet-create (creation refused, or the call throws),
    module-sign, module-enable, module-verify and the stored wallet address
    are those the failed attempt left, wallet-create is error (refused) or
    pending (thrown), and the error message is the new one. *)
Theorem retryChain_restarts_from_wallet_create gsma h identifier w chain :
  List.find (identifierMatch identifier) (chainsToSetup (st w)) = Some chain →
  head (newEvents w (retryChain gsma h identifier w).2)
  = Some (EvCreateSafeWallet (default "" (walletAddress h)) (chainId chain)
                             (creates (env w) 0%nat))
  ∧ (∀ cr, creates (env w) 0%nat = Returned cr → create_success cr = false →
       progress (st (retryChain gsma h identifier w).2) !! id chain
       = Some (mkProgress (Some error)
                 (moduleSign (spread (progress (st w) !! id chain)))
                 (moduleEnable (spread (progress (st w) !! id chain)))
                 (moduleVerify (spread (progress (st w) !! id chain)))
                 (create_error cr)
                 (safeAddress (spread (progress (st w) !! id chain)))))
  ∧ (∀ e, creates (env w) 0%nat = Thrown e →
       progress (st (retryChain gsma h identifier w).2) !! id chain
       = Some (mkProgress (Some pending)
                 (moduleSign (spread (progress (st w) !! id chain)))
                 (moduleEnable (spread (progress (st w) !! id chain)))
                 (moduleVerify (spread (progress (st w) !! id chain)))
                 (Some (messageOrUnknown e))
                 (safeAddress (spread (progress (st w) !! id chain))))).
Proof.
  intros Hfind.
  destruct (retryChain_cases gsma h identifier w chain Hfind)
    as (sm & fetched & Hrun & Htr & _ & Hprog & _).
  rewrite (newEvents_app _ _ _ Htr), Hprog, lookup_insert_eq.
  destruct (ChainRun_events _ _ _ _ _ Hrun) as (rest & Hev & _).
  split; [by rewrite Hev|].
  split.
  - intros cr Hc Hrefused. destruct Hrun; cbn [run_entry]; congruence.
  - intros e Hc. destruct Hrun; cbn [run_entry]; congruence.
Qed.

Lemma retryChain_restarts_from_wallet_create_witness :
  progress (st (retryChain moduleAddresses hooks (IdString "sepolia") retryWorld).2)
    !! "sepolia"
  = Some (mkProgress (Some error) (Some success) (Some success) (Some error)
                     (Some "Safe creation failed") (Some "0xSAFE")).
Proof.
  refine (proj1 (proj2 (retryChain_restarts_from_wallet_create moduleAddresses hooks
                          (IdString "sepolia") retryWorld sepolia _))
                (mkCreate false None (Some "Safe creation failed")) _ _);
    reflexivity.
Defined.

(** ** The signing slot *)

(** When the signature request throws, the run ends in the outer [catch],
    which records the message but does not clear the slot. *)
Lemma processChain_sign_throw_keeps_slot gsma h chain w safe cid e :
  EvSignEnableModule safe cid (Thrown e)
    ∈ newEvents w (processChain gsma h chain w).2 →
  (processChain gsma h chain w).1 = Returned false
  ∧ currentSigningChain (st (processChain gsma h chain w).2) = Some (id chain).
Proof.
  intros Hin.
  destruct (processChain_cases gsma h chain w) as (sm & Hrun & Hres & Hst & Htr).
  rewrite (newEvents_app _ _ _ Htr) in Hin. rewrite Hres, Hst.
  destruct Hrun; cbn [run_events run_result run_entry] in *; events_inv Hin;
    inversion Hin; subst; done.
Qed.

(** On every other exit the slot is free again, if it was free before. *)
Lemma processChain_releases_slot gsma h chain w :
  (∀ safe cid e, EvSignEnableModule safe cid (Thrown e)
                   ∉ newEvents w (processChain gsma h chain w).2) →
  currentSigningChain (st w) = None →
  currentSigningChain (st (processChain gsma h chain w).2) = None.
Proof.
  intros Hno Hfree.
  destruct (processChain_cases gsma h chain w) as (sm & Hrun & Hres & Hst & Htr).
  rewrite (newEvents_app _ _ _ Htr) in Hno. rewrite Hst.
  destruct Hrun; cbn [run_events] in *; try done.
  exfalso. eapply Hno. do 2 apply list_elem_of_further. apply list_elem_of_here.
Qed.

(** C4, at the failing input.  Wallet creation and the chain switch succeed,
    the slot was free, and the signature request rejects: the run ends as a
    failure with the slot still held by the chain. *)
Theorem processChain_leaves_slot_when_sign_throws :
  currentSigningChain (st signThrowsWorld) = None
  ∧ (processChain moduleAddresses hooks sepolia signThrowsWorld).1 = Returned false
  ∧ currentSigningChain (st (processChain moduleAddresses hooks sepolia
                                           signThrowsWorld).2)
    = Some "sepolia".
Proof.
  split; [reflexivity|].
  apply (processChain_sign_throw_keeps_slot moduleAddresses hooks sepolia
           signThrowsWorld (Some "0xSAFE") 11155111
           (ErrorObj "User rejected the request")).
  vm_compute. do 2 apply list_elem_of_further. apply list_elem_of_here.
Qed.

(** ** Waiting for the chain *)

(** The wait itself is sound: asked of a getter that never reports the target
    chain, it polls every 100 ms and throws the timeout error once
    [timeoutMs] have passed. *)
Lemma waitForChain_loop_times_out getCurrentChainId target timeoutMs startTime w :
  (∀ w', env w' = env w → getCurrentChainId w' ≠ Some target) →
  (waitForChain_loop getCurrentChainId target timeoutMs startTime w).1
  = Thrown (ErrorObj ("Timeout waiting for chain " +:+ pretty target
                      +:+ " to become active"))
  ∧ timeoutMs ≤ now (waitForChain_loop getCurrentChainId target timeoutMs
                                       startTime w).2 - startTime
  ∧ ∃ polls,
      trace (waitForChain_loop getCurrentChainId target timeoutMs startTime w).2
      = trace w ++ replicate polls (EvSleep (inject_Z 100)).
Proof.
  intros Hnever.
  funelim (waitForChain_loop getCurrentChainId target timeoutMs startTime w).
  - cbn. split; [done|]. split; [lia|]. exists 0%nat. by rewrite app_nil_r.
  - by destruct (Hnever w).
  - destruct (H Hnever) as (Hres & Htime & polls & Htr).
    split; [done|]. split; [done|].
    exists (S polls). rewrite Htr. cbn. by rewrite <- app_assoc.
Qed.

Lemma waitForChain_times_out getCurrentChainId target timeoutMs w :
  (∀ w', env w' = env w → getCurrentChainId w' ≠ Some target) →
  (waitForChain getCurrentChainId target timeoutMs w).1
  = Thrown (ErrorObj ("Timeout waiting for chain " +:+ pretty target
                      +:+ " to become active"))
  ∧ timeoutMs ≤ now (waitForChain getCurrentChainId target timeoutMs w).2 - now w.
Proof.
  intros Hnever. unfold waitForChain.
  destruct (waitForChain_loop_times_out getCurrentChainId target timeoutMs (now w) w
              Hnever) as (Hres & Htime & _).
  done.
Qed.

(** C3, at the failing input.  The wallet provider reports chain 1 at all
    times and the target is Sepolia.  Polling the provider would time out
    after 10 s; [processChain] nevertheless goes on to sign, and the chain
    ends fully processed with module-sign = success. *)
Theorem processChain_does_not_poll_provider :
  (∀ t, providerChain (env happyWorld) t = Some 1)
  ∧ (waitForChain currentProviderChainId (chainId sepolia) 10000 happyWorld).1
    = Thrown (ErrorObj "Timeout waiting for chain 11155111 to become active")
  ∧ (processChain moduleAddresses hooks sepolia happyWorld).1 = Returned true
  ∧ moduleSign <$> progress (st (processChain moduleAddresses hooks sepolia
                                              happyWorld).2) !! "sepolia"
    = Some (Some success)
  ∧ EvSignEnableModule (Some "0xSAFE") (chainId sepolia) (Returned signed)
      ∈ newEvents happyWorld
          (processChain moduleAddresses hooks sepolia happyWorld).2.
Proof.
  split; [done|]. split.
  { apply waitForChain_times_out. intros w' Henv.
    unfold currentProviderChainId. rewrite Henv. cbn. discriminate. }
  split; [by vm_compute|]. split; [by vm_compute|].
  vm_compute. do 2 apply list_elem_of_further. apply list_elem_of_here.
Qed.

(** ** The module verifier *)

Local Arguments backoffDelay : simpl never.

(** Without a module address the verifier throws at once: no read, no wait,
    the world is as it was. *)
Lemma verifyModuleEnabled_unconfigured gsma safe chain maxRetries delayMs w :
  truthy (gsma chain) = false →
  verifyModuleEnabled gsma safe chain maxRetries delayMs w
  = (Thrown (ErrorObj ("Module address not configured for chain " +:+ pretty chain)),
     w).
Proof. intros Hnone. unfold verifyModuleEnabled. by rewrite Hnone. Qed.

(** With a module address configured and a Safe address to build the
    contract handle on, the verifier is its loop. *)
Lemma verifyModuleEnabled_configured gsma safe chain addr maxRetries delayMs w :
  gsma chain = Some addr → truthy (Some addr) = true →
  verifyModuleEnabled gsma (Some safe) chain maxRetries delayMs w
  = verifyModuleEnabled_loop (Some safe) addr maxRetries delayMs maxRetries 0%nat
                             None w.
Proof. intros Haddr Htruthy. unfold verifyModuleEnabled. by rewrite Haddr, Htruthy. Qed.

(** With a [null] Safe address the contract handle cannot be built: the
    verifier throws what the constructor throws, before any read. *)
Lemma verifyModuleEnabled_null_address gsma chain maxRetries delayMs w :
  truthy (gsma chain) = true →
  verifyModuleEnabled gsma None chain maxRetries delayMs w
  = (Thrown (contractTargetError (env w)), w).
Proof. intros Htruthy. unfold verifyModuleEnabled. by rewrite Htruthy. Qed.

Lemma readCount_app evs1 evs2 :
  readCount (evs1 ++ evs2) = (readCount evs1 + readCount evs2)%nat.
Proof. unfold readCount. by rewrite List.filter_app, length_app. Qed.

(** The verifier reads at most [maxRetries] times. *)
Lemma verifyModuleEnabled_loop_bounded safe moduleAddress maxRetries delayMs
    remaining attempt lastError w :
  ∃ evs,
    trace (verifyModuleEnabled_loop safe moduleAddress maxRetries delayMs
                                    remaining attempt lastError w).2
    = trace w ++ evs
    ∧ (readCount evs ≤ remaining)%nat.
Proof.
  revert attempt lastError w.
  induction remaining as [|remaining IH]; intros attempt lastError w.
  { exists []. cbn. by rewrite app_nil_r. }
  cbn [verifyModuleEnabled_loop]. unfold_run. simp_run.
  destruct (reads (env w) 0%nat) as [b|e].
  { eexists. split; [reflexivity|]. cbn. lia. }
  destruct (attempt <? maxRetries - 1)%nat; simp_run;
    match goal with |- context [verifyModuleEnabled_loop ?a ?b ?c ?d ?e ?f ?g ?w1] =>
      destruct (IH f g w1) as (evs & Htr & Hbound); simp_run_in Htr;
      destruct (verifyModuleEnabled_loop a b c d e f g w1) as [[r|err] w2]
    end; cbn [fst snd] in *; rewrite Htr, <- ?app_assoc;
    (eexists; split; [reflexivity|]); rewrite ?readCount_app; cbn; lia.
Qed.

Lemma verifyModuleEnabled_bounded gsma safe chain maxRetries delayMs w :
  ∃ evs,
    trace (verifyModuleEnabled gsma safe chain maxRetries delayMs w).2 = trace w ++ evs
    ∧ (readCount evs ≤ maxRetries)%nat.
Proof.
  unfold verifyModuleEnabled. destruct (negb _).
  - exists []. cbn. rewrite app_nil_r. split; [done|lia].
  - destruct safe as [safe|].
    + apply verifyModuleEnabled_loop_bounded.
    + exists []. cbn. rewrite app_nil_r. split; [done|lia].
Qed.

(** A run of [processChain] reads the chain at most 5 times. *)
Lemma processChain_reads_bounded gsma h chain w :
  (readCount (newEvents w (processChain gsma h chain w).2) ≤ 5)%nat.
Proof.
  destruct (processChain_cases gsma h chain w) as (sm & Hrun & _ & _ & Htr).
  rewrite (newEvents_app _ _ _ Htr).
  destruct Hrun as [| | | | | | | | | |cr sg sb w5 outcome w6 evs ? ? ? ? ? ? ? ? ? ?
                                        Henv Hv Hevs Hall];
    cbn [run_events]; try (cbn; lia).
  destruct (verifyModuleEnabled_bounded gsma (create_safeAddress cr) (chainId chain)
              5 2000 w5) as (evs' & Htr' & Hbound).
  rewrite Hv in Htr'. cbn [snd] in Htr'. rewrite Hevs in Htr'.
  apply app_inv_head in Htr' as ->.
  rewrite readCount_app. cbn. lia.
Qed.

(** The waits grow by half from one attempt to the next, from [delayMs]. *)
Lemma backoffDelay_base delayMs : (backoffDelay delayMs 0 == inject_Z delayMs)%Q.
Proof.
  unfold backoffDelay. rewrite Qred_correct.
  change (Qpower (3 # 2) (Z.of_nat 0)) with 1%Q. ring.
Qed.

Lemma backoffDelay_growth delayMs attempt :
  (backoffDelay delayMs (S attempt) == backoffDelay delayMs attempt * (3 # 2))%Q.
Proof.
  unfold backoffDelay. rewrite !Qred_correct, Nat2Z.inj_succ. unfold Z.succ.
  rewrite Qpower_plus' by lia. change ((3 # 2) ^ 1)%Q with (3 # 2)%Q. ring.
Qed.

Lemma throwsFirst_cons {A} (s : nat → Outcome A) e errs :
  throwsFirst s (e :: errs) → s 0%nat = Thrown e ∧ throwsFirst (next s) errs.
Proof.
  intros Hall. split; [by apply (Hall 0%nat)|].
  intros i e' Hi. by apply (Hall (S i)).
Qed.

Lemma readCount_thrownReads safe addr maxRetries delayMs errs attempt :
  readCount (thrownReads safe addr maxRetries delayMs errs attempt) = length errs.
Proof.
  revert attempt. induction errs as [|e errs IH]; intros attempt; [done|].
  cbn [thrownReads]. change (?x :: ?l ++ ?l') with ([x] ++ l ++ l').
  rewrite !readCount_app, IH. by destruct (attempt <? maxRetries - 1)%nat.
Qed.

Lemma sleepCount_app evs1 evs2 :
  sleepCount (evs1 ++ evs2) = (sleepCount evs1 + sleepCount evs2)%nat.
Proof. unfold sleepCount. by rewrite List.filter_app, length_app. Qed.

Lemma sleepCount_thrownReads safe addr maxRetries delayMs errs attempt :
  sleepCount (thrownReads safe addr maxRetries delayMs errs attempt)
  = (Nat.min (attempt + length errs) (maxRetries - 1) - attempt)%nat.
Proof.
  revert attempt. induction errs as [|e errs IH]; intros attempt.
  { cbn. lia. }
  cbn [thrownReads]. change (?x :: ?l ++ ?l') with ([x] ++ l ++ l').
  rewrite !sleepCount_app, IH. cbn [length].
  destruct (Nat.ltb_spec attempt (maxRetries - 1));
    cbn [sleepCount List.filter isSleep length app Nat.add]; lia.
Qed.

(** The verifier goes through reads that throw, one wait after each (none
    after the last attempt of the budget), keeping the last error. *)
Lemma verifyModuleEnabled_loop_skip safe addr maxRetries delayMs errs :
  ∀ remaining attempt lastError w,
    throwsFirst (reads (env w)) errs →
    (length errs ≤ remaining)%nat →
    ∃ w',
      verifyModuleEnabled_loop safe addr maxRetries delayMs remaining attempt
                               lastError w
      = verifyModuleEnabled_loop safe addr maxRetries delayMs
          (remaining - length errs) (attempt + length errs)
          (match last errs with Some e => Some (toError e) | None => lastError end) w'
      ∧ trace w' = trace w ++ thrownReads safe addr maxRetries delayMs errs attempt
      ∧ ∀ i, reads (env w') i = reads (env w) (length errs + i)%nat.
Proof.
  induction errs as [|e errs IH]; intros remaining attempt lastError w Hall Hlen.
  { exists w. cbn. rewrite Nat.sub_0_r, Nat.add_0_r, app_nil_r. by repeat split. }
  destruct remaining as [|remaining]; [cbn in Hlen; lia|].
  apply throwsFirst_cons in Hall as [Hfirst Hrest].
  cbn [verifyModuleEnabled_loop length]. unfold_run. simp_run. rewrite Hfirst.
  destruct (attempt <? maxRetries - 1)%nat eqn:Hwait; simp_run.
  all: match goal with |- context [verifyModuleEnabled_loop _ _ _ _ ?r ?a ?le ?w1] =>
         destruct (IH r a le w1)
           as (w' & Hloop & Htr & Hreads); [exact Hrest|cbn in Hlen; lia|]
       end.
  all: exists w'; rewrite Hloop; cbn [Nat.sub]; rewrite <- Nat.add_succ_comm.
  all: split; [rewrite last_cons; by destruct (last errs)|].
  all: split; [rewrite Htr; cbn [thrownReads]; rewrite Hwait; simp_run;
               by rewrite <- ?app_assoc|].
  all: intros i; rewrite Hreads; by simp_run.
Qed.

(** Hypotheses of a run that contradict the answers that reach the verify
    step. *)
Ltac no_verify Hreach :=
  unfold reachesVerify in Hreach;
  repeat match goal with
         | H : _ = _ |- _ =>
             tryif constr_eq H Hreach then fail else rewrite H in Hreach
         end;
  cbn in Hreach; repeat rewrite ?andb_false_r in Hreach; discriminate Hreach.

(** A run that reaches the verify step is a [Verified] run. *)
Lemma processChain_reaches_verify gsma h chain w :
  reachesVerify h w = true →
  ∃ cr sg sb w5 outcome w6 evs,
    verifyModuleEnabled gsma (create_safeAddress cr) (chainId chain) 5%nat 2000 w5
    = (outcome, w6)
    ∧ env w5 = afterSubmit (env w)
    ∧ trace w6 = trace w5 ++ evs
    ∧ (processChain gsma h chain w).1
      = Returned (match outcome with Returned true => true | _ => false end)
    ∧ progress (st (processChain gsma h chain w).2) !! id chain
      = Some (mkProgress (Some success) (Some success) (Some success)
                (match outcome with Returned true => Some success | _ => Some error end)
                (match outcome with
                 | Returned true => None
                 | Returned false => Some "Module not enabled after transaction"
                 | Thrown e => Some ("Verification failed: " +:+ messageOrString e)
                 end)
                (create_safeAddress cr))
    ∧ newEvents w (processChain gsma h chain w).2
      = [EvCreateSafeWallet (default "" (walletAddress h)) (chainId chain) (Returned cr);
         EvSwitchChain (chainId chain) (Returned ());
         EvSignEnableModule (create_safeAddress cr) (chainId chain) (Returned sg);
         EvSubmitEnableModule (Returned sb)] ++ evs
    ∧ createdSafe w = create_safeAddress cr.
Proof.
  intros Hreach.
  destruct (processChain_cases gsma h chain w) as (sm & Hrun & Hres & Hst & Htr).
  rewrite (newEvents_app _ _ _ Htr), Hres, (processChain_progress _ _ _ _ _ Hst).
  destruct Hrun as [| | | | | | | | | |cr sg sb w5 outcome w6 evs Hcr];
    try (exfalso; no_verify Hreach).
  cbn [run_result run_entry run_events]. unfold createdSafe. rewrite Hcr.
  by eauto 15.
Qed.

(** C10. If no module address is configured for the target chain, the
    verifier throws before any on-chain read (the world it returns is the one
    it was given: no read, no wait, no attempt used), and a run of
    [processChain] that reaches the verify step records module-verify = error
    with the message "Verification failed: " followed by the verifier's own
    message, reports the chain as failed, and logs no read. *)
Theorem processChain_module_address_missing gsma h chain w :
  truthy (gsma (chainId chain)) = false →
  reachesVerify h w = true →
  (∀ safe maxRetries delayMs w0,
     verifyModuleEnabled gsma safe (chainId chain) maxRetries delayMs w0
     = (Thrown (ErrorObj ("Module address not configured for chain "
                          +:+ pretty (chainId chain))), w0))
  ∧ (processChain gsma h chain w).1 = Returned false
  ∧ (∃ p, progress (st (processChain gsma h chain w).2) !! id chain = Some p
          ∧ moduleVerify p = Some error
          ∧ errorMsg p = Some ("Verification failed: "
                               +:+ ("Module address not configured for chain "
                                    +:+ pretty (chainId chain))))
  ∧ ∀ safe addr res,
      EvIsModuleEnabled safe addr res ∉ newEvents w (processChain gsma h chain w).2.
Proof.
  intros Hnone Hreach. split.
  { intros. by apply verifyModuleEnabled_unconfigured. }
  destruct (processChain_reaches_verify gsma h chain w Hreach)
    as (cr & sg & sb & w5 & outcome & w6 & evs & Hv & _ & Htr & Hres & Hprog & Hev
        & _).
  rewrite verifyModuleEnabled_unconfigured in Hv by done.
  injection Hv as <- <-.
  rewrite <- (app_nil_r (trace w5)) in Htr at 1. apply app_inv_head in Htr as <-.
  rewrite Hres, Hprog, Hev. split; [done|]. split; [by eauto|].
  intros safe addr res Hin. events_inv Hin.
Qed.

Lemma processChain_module_address_missing_witness :
  (processChain noModuleAddresses hooks sepolia happyWorld).1 = Returned false.
Proof.
  refine (proj1 (proj2 (processChain_module_address_missing noModuleAddresses hooks
                          sepolia happyWorld _ _))); reflexivity.
Defined.

(** The claim that a read returning [false] is retried fails: with reads that
    answer false, false, true the verifier stops at the first answer and
    module-verify ends as error. *)
Lemma stale_reads_are_not_retried :
  ¬ staleReadsRetried_spec moduleAddresses hooks sepolia staleReadWorld.
Proof.
  intros Hspec.
  destruct (Hspec eq_refl eq_refl eq_refl eq_refl) as (p & Hp & Hverify).
  vm_compute in Hp. injection Hp as <-. discriminate Hverify.
Qed.

(** With a [null] Safe address (a creation that succeeds without an address)
    the verify step fails before any read: module-verify ends as error with
    the message of what the contract constructor threw. *)
Lemma processChain_null_address gsma h chain w :
  reachesVerify h w = true → createdSafe w = None →
  truthy (gsma (chainId chain)) = true →
  (processChain gsma h chain w).1 = Returned false
  ∧ readCount (newEvents w (processChain gsma h chain w).2) = 0%nat
  ∧ ∃ p, progress (st (processChain gsma h chain w).2) !! id chain = Some p
         ∧ moduleVerify p = Some error
         ∧ errorMsg p = Some ("Verification failed: "
                              +:+ messageOrString (contractTargetError (env w))).
Proof.
  intros Hreach Hsafe Htruthy.
  destruct (processChain_reaches_verify gsma h chain w Hreach)
    as (cr & sg & sb & w5 & outcome & w6 & evs & Hv & Henv & Htr & Hres & Hprog & Hev
        & Hcr).
  rewrite Hsafe in Hcr. rewrite <- Hcr in *.
  rewrite verifyModuleEnabled_null_address in Hv by done.
  injection Hv as <- <-.
  rewrite <- (app_nil_r (trace w5)) in Htr at 1. apply app_inv_head in Htr as <-.
  rewrite Hres, Hprog, Hev, Henv. split; [done|]. split; [done|]. by eauto.
Qed.

(** A run whose reads throw [errs] and then answer: the verifier returns that
    answer, having logged each failed read with the wait after it. *)
Lemma verifyModuleEnabled_answers gsma safe chain addr maxRetries delayMs w errs answer :
  gsma chain = Some addr → truthy (Some addr) = true →
  (length errs < maxRetries)%nat →
  throwsFirst (reads (env w)) errs →
  reads (env w) (length errs) = Returned answer →
  ∃ w', verifyModuleEnabled gsma (Some safe) chain maxRetries delayMs w
        = (Returned answer, w')
        ∧ trace w' = trace w ++ thrownReads (Some safe) addr maxRetries delayMs errs 0
                             ++ [EvIsModuleEnabled (Some safe) addr (Returned answer)].
Proof.
  intros Haddr Htruthy Hlen Hall Hanswer.
  rewrite (verifyModuleEnabled_configured _ _ _ _ _ _ _ Haddr Htruthy).
  destruct (verifyModuleEnabled_loop_skip (Some safe) addr maxRetries delayMs errs
              maxRetries 0%nat None w Hall) as (w' & Hloop & Htr & Hreads); [lia|].
  rewrite Hloop.
  destruct (maxRetries - length errs)%nat as [|remaining] eqn:Hleft; [lia|].
  cbn [verifyModuleEnabled_loop]. unfold_run. simp_run.
  rewrite Hreads, Nat.add_0_r, Hanswer. simp_run.
  eexists. split; [reflexivity|]. simp_run. by rewrite Htr, <- app_assoc.
Qed.

(** The waits of the verifier of [processChain] (budget 5, base 2000 ms) after
    its failed reads: 2000 ms, then half as much again each time. *)
Lemma waitsOf_thrownReads safe addr errs :
  (length errs ≤ 4)%nat →
  waitsOf (thrownReads safe addr 5 2000 errs 0)
  = take (length errs) [2000 # 1; 3000 # 1; 4500 # 1; 6750 # 1]%Q.
Proof.
  intros Hlen.
  destruct errs as [|e1 [|e2 [|e3 [|e4 [|e5 errs]]]]]; [reflexivity..|cbn in Hlen; lia].
Qed.

Lemma waitsOf_app evs1 evs2 : waitsOf (evs1 ++ evs2) = waitsOf evs1 ++ waitsOf evs2.
Proof. unfold waitsOf. apply omap_app. Qed.

(** C1, amended.  In the verify step the on-chain read is retried when it
    throws, and only then: in every run of [processChain] that reaches the
    verify step with a Safe address and a module address, and whose reads
    throw on the first k attempts (k at most 4) and answer on the next, that
    answer is final.  Answer [true]: the chain is reported as processed and
    module-verify ends as success; answer [false]: the chain is reported as
    failed and module-verify ends as error with "Module not enabled after
    transaction" (no retry).  The verifier has then read k + 1 times, each
    failed read followed by a wait, and the waits are 2000 ms, 3000 ms,
    4500 ms and 6750 ms, in this order (1.5 times longer each time); no run
    reads more than 5 times.  With a [null] Safe address the contract handle
    cannot be built: the chain is reported as failed and module-verify ends
    as error, with the message of what the constructor threw, before any
    read. *)
Theorem processChain_retries_thrown_reads gsma h chain w addr safe errs answer :
  reachesVerify h w = true →
  createdSafe w = Some safe →
  gsma (chainId chain) = Some addr → truthy (Some addr) = true →
  (length errs ≤ 4)%nat →
  throwsFirst (reads (env w)) errs →
  reads (env w) (length errs) = Returned answer →
  (processChain gsma h chain w).1 = Returned answer
  ∧ (∃ p, progress (st (processChain gsma h chain w).2) !! id chain = Some p
          ∧ moduleVerify p = Some (if answer then success else error)
          ∧ errorMsg p = (if answer then None
                          else Some "Module not enabled after transaction"))
  ∧ (∃ calls,
       newEvents w (processChain gsma h chain w).2
       = calls ++ thrownReads (Some safe) addr 5 2000 errs 0
               ++ [EvIsModuleEnabled (Some safe) addr (Returned answer)]
       ∧ Forall (λ e, ¬ isVerifyEvent e) calls)
  ∧ waitsOf (newEvents w (processChain gsma h chain w).2)
    = take (length errs) [2000 # 1; 3000 # 1; 4500 # 1; 6750 # 1]%Q
  ∧ readCount (newEvents w (processChain gsma h chain w).2) = S (length errs)
  ∧ (∀ attempt,
       (backoffDelay 2000 (S attempt) == backoffDelay 2000 attempt * (3 # 2))%Q)
  ∧ (∀ w0, (readCount (newEvents w0 (processChain gsma h chain w0).2) ≤ 5)%nat)
  ∧ ∀ w0, reachesVerify h w0 = true → createdSafe w0 = None →
          (processChain gsma h chain w0).1 = Returned false
          ∧ readCount (newEvents w0 (processChain gsma h chain w0).2) = 0%nat
          ∧ ∃ p, progress (st (processChain gsma h chain w0).2) !! id chain = Some p
                 ∧ moduleVerify p = Some error
                 ∧ errorMsg p
                   = Some ("Verification failed: "
                           +:+ messageOrString (contractTargetError (env w0))).
Proof.
  intros Hreach Hsafe Haddr Htruthy Hlen Hall Hanswer.
  destruct (processChain_reaches_verify gsma h chain w Hreach)
    as (cr & sg & sb & w5 & outcome & w6 & evs & Hv & Henv & Htr & Hres & Hprog & Hev
        & Hcr).
  rewrite Hsafe in Hcr. rewrite <- Hcr in *.
  destruct (verifyModuleEnabled_answers gsma safe (chainId chain) addr 5 2000 w5
              errs answer Haddr Htruthy)
    as (w6' & Hv' & Htr'); [lia|by rewrite Henv..|].
  rewrite Hv' in Hv. injection Hv as <- <-.
  rewrite Htr' in Htr. apply app_inv_head in Htr as <-.
  rewrite Hres, Hprog, Hev. split; [by destruct answer|].
  split; [destruct answer; by eauto|]. split.
  { eexists. split; [reflexivity|].
    repeat (constructor; [intros Hf; exact Hf|]). constructor. }
  split.
  { rewrite !waitsOf_app, waitsOf_thrownReads by done. cbn. apply app_nil_r. }
  split.
  { rewrite !readCount_app, readCount_thrownReads. cbn. lia. }
  split; [intros attempt; apply backoffDelay_growth|].
  split; [intros w0; apply processChain_reads_bounded|].
  intros w0 Hreach0 Hsafe0. apply processChain_null_address; [done..|].
  by rewrite Haddr.
Qed.

Lemma processChain_retries_thrown_reads_witness :
  (processChain moduleAddresses hooks sepolia flakyReadWorld).1 = Returned true
  ∧ waitsOf (newEvents flakyReadWorld
               (processChain moduleAddresses hooks sepolia flakyReadWorld).2)
    = [2000 # 1; 3000 # 1]%Q.
Proof.
  destruct (processChain_retries_thrown_reads moduleAddresses hooks sepolia
              flakyReadWorld "0xMODULE" "0xSAFE"
              [ErrorObj "network error"; ErrorObj "network error"] true)
    as (Hres & _ & _ & Hwaits & _).
  - reflexivity.
  - reflexivity.
  - reflexivity.
  - reflexivity.
  - cbn. lia.
  - intros i e Hi. destruct i as [|[|i]]; cbn in Hi; by simplify_option_eq.
  - reflexivity.
  - split; [exact Hres|exact Hwaits].
Defined.

(** ** The user record and the chains that need setup *)

(** [fetchUserData] reads and changes nothing of the React state. *)
Lemma fetchUserData_with_st h f w :
  fetchUserData h (with_st f w)
  = ((fetchUserData h w).1, with_st f (fetchUserData h w).2).
Proof.
  unfold fetchUserData. destruct (authenticated h); [|done].
  unfold_run. simp_run.
  destruct (accessTokens (env w) 0%nat) as [token|e]; [|done].
  destruct (truthy token); [|done]. simp_run.
  by destruct (fetches (env w) 0%nat) as [e| |e|[] data].
Qed.

(** [fetchUserData] never throws. *)
Lemma fetchUserData_returns h w : ∃ u, (fetchUserData h w).1 = Returned u.
Proof.
  unfold fetchUserData. destruct (authenticated h); [|by eauto].
  unfold_run. simp_run.
  destruct (accessTokens (env w) 0%nat) as [token|e]; [|by eauto].
  destruct (truthy token); [|by eauto]. simp_run.
  destruct (fetches (env w) 0%nat) as [e| |e|[] data]; by eauto.
Qed.

(** A request that fails in transit and a backend without a record both give
    [null]. *)
Lemma fetchUserData_null h w :
  transportFails w = true ∨ noRecord w = true →
  (fetchUserData h w).1 = Returned UserNull.
Proof.
  unfold transportFails, noRecord, fetchUserData.
  destruct (authenticated h); [|done].
  unfold_run. simp_run.
  destruct (accessTokens (env w) 0%nat) as [token|e]; [|done].
  destruct (truthy token); [|done]. simp_run.
  destruct (fetches (env w) 0%nat) as [e| |e|[] [user| |]]; cbn; intros [|]; done.
Qed.

(** The state [checkUser] leaves, from what the fetch returned. *)
Lemma checkUser_state gc h w u :
  (fetchUserData h w).1 = Returned u →
  (checkUser gc h w).1 = Returned ()
  ∧ st (checkUser gc h w).2
    = match u with
      | UserNull => set_isCheckingUser false (set_needsOnboarding true (st w))
      | UserRecord _ | UserUndefined =>
          if (0 <? length (filter (λ c, needsSetup gc u c = true)
                                  (chainsToSetup (st w))))%nat
          then set_isCheckingUser false
                 (set_progress (prefill gc u (chainsToSetup (st w)) (progress (st w)))
                    (set_needsOnboarding true (st w)))
          else set_isCheckingUser false (set_needsOnboarding false (st w))
      end.
Proof.
  intros Hfetch.
  destruct (checkUser gc h w) as [r w'] eqn:Hrun. cbn [fst snd].
  unfold checkUser, bind, setIsCheckingUser, try_finally, try_catch in Hrun.
  cbv beta iota zeta in Hrun.
  rewrite fetchUserData_with_st in Hrun.
  pose proof (fetchUserData_st h w) as Hst.
  destruct (fetchUserData h w) as [r1 w1]. cbn [fst snd] in *. subst r1.
  destruct u as [user| |].
  - destruct (0 <? _)%nat; unfold_run_in Hrun; simp_run_in Hrun;
      injection Hrun as <- <-; simp_run; by rewrite Hst.
  - unfold_run_in Hrun. simp_run_in Hrun. injection Hrun as <- <-.
    simp_run. by rewrite Hst.
  - destruct (0 <? _)%nat; unfold_run_in Hrun; simp_run_in Hrun;
      injection Hrun as <- <-; simp_run; by rewrite Hst.
Qed.

(** The claim that [null] tells "no record" from a transport error fails: a
    [fetch] that rejects with a network error also gives [null]. *)
Lemma fetchUserData_null_on_network_error :
  ¬ nullMeansNoRecord_spec hooks networkErrorWorld.
Proof. intros Hspec. specialize (Hspec eq_refl). discriminate Hspec. Qed.

(** An [undefined] user has no wallet on any chain. *)
Lemma needsSetup_undefined gc c : needsSetup gc UserUndefined c = true.
Proof.
  unfold needsSetup. destruct (gc (chainId c)) as [r|]; [|done].
  by destruct (isTestnet r).
Qed.

Lemma filter_needsSetup_undefined gc (chains : list ChainConfig) :
  filter (λ c, needsSetup gc UserUndefined c = true) chains = chains.
Proof.
  induction chains as [|c chains IH]; [done|].
  rewrite filter_cons_True by apply needsSetup_undefined. by rewrite IH.
Qed.

(** C5, amended.  The user-record fetch returns [null] both when the backend
    has no record of the user (the response is not ok, or its body says
    [success: false] or [data: null]) and when the request fails in transit
    (the token request or the [fetch] rejects, or the body cannot be read):
    it never throws, so the two are not told apart; in either case [checkUser]
    ends normally with needs-onboarding = true.  A body with [success: true]
    and no [data] at all is another matter: the fetch returns [undefined], not
    [null], and [checkUser] goes on as for an existing user without wallets,
    so that needs-onboarding ends true exactly when a chain is configured. *)
Theorem checkUser_onboards_when_fetch_fails gc h w :
  transportFails w = true ∨ noRecord w = true →
  (fetchUserData h w).1 = Returned UserNull
  ∧ (checkUser gc h w).1 = Returned ()
  ∧ needsOnboarding (st (checkUser gc h w).2) = true
  ∧ ∀ w0 token,
      authenticated h = true →
      accessTokens (env w0) 0%nat = Returned token → truthy token = true →
      fetches (env w0) 0%nat = Body true UserUndefined →
      (fetchUserData h w0).1 = Returned UserUndefined
      ∧ (checkUser gc h w0).1 = Returned ()
      ∧ needsOnboarding (st (checkUser gc h w0).2)
        = (0 <? length (chainsToSetup (st w0)))%nat.
Proof.
  intros Hfail. pose proof (fetchUserData_null h w Hfail) as Hnull.
  destruct (checkUser_state gc h w UserNull Hnull) as [Hres Hst].
  rewrite Hres, Hst. split; [done|]. split; [done|]. split; [done|].
  intros w0 token Hauth Htoken Htruthy Hbody.
  assert (Hundef : (fetchUserData h w0).1 = Returned UserUndefined).
  { unfold fetchUserData. rewrite Hauth. cbn [negb]. unfold_run. simp_run.
    rewrite Htoken, Htruthy. simp_run. by rewrite Hbody. }
  destruct (checkUser_state gc h w0 UserUndefined Hundef) as [Hres0 Hst0].
  rewrite Hres0, Hst0, filter_needsSetup_undefined.
  split; [done|]. split; [done|].
  by destruct (0 <? length (chainsToSetup (st w0)))%nat.
Qed.

Lemma checkUser_onboards_when_fetch_fails_witness :
  transportFails networkErrorWorld = true
  ∧ needsOnboarding (st (checkUser registry hooks networkErrorWorld).2) = true.
Proof.
  split; [reflexivity|].
  refine (proj1 (proj2 (proj2 (checkUser_onboards_when_fetch_fails registry hooks
                                 networkErrorWorld _)))).
  left. reflexivity.
Defined.

Lemma needsSetup_spec gc user c :
  needsSetup gc (UserRecord user) c = true ↔ requiresSetup_spec gc user c.
Proof.
  unfold needsSetup, requiresSetup_spec. cbn [testnetWallet mainnetWallet].
  destruct (gc (chainId c)) as [r|]; [|by split; [right; right|]].
  destruct (isTestnet r) eqn:Hkind.
  - destruct (truthy (safe_wallet_address_testnet user)); cbn; split;
      try discriminate; try (intros _; left; by exists r);
      intros [(r' & Hr & ? & ?)|[(r' & Hr & ? & ?)|?]]; congruence.
  - destruct (truthy (safe_wallet_address_mainnet user)); cbn; split;
      try discriminate; try (intros _; right; left; by exists r);
      intros [(r' & Hr & ? & ?)|[(r' & Hr & ? & ?)|?]]; congruence.
Qed.

Lemma hasWallet_needsSetup gc user c :
  hasWallet gc user c = negb (needsSetup gc user c).
Proof.
  unfold hasWallet, needsSetup.
  destruct (gc (chainId c)) as [r|]; [|done].
  destruct (isTestnet r); by rewrite negb_involutive.
Qed.

Lemma prefill_keeps_success gc user chains m k :
  m !! k = Some successProgress →
  prefill gc user chains m !! k = Some successProgress.
Proof.
  revert m. induction chains as [|chain rest IH]; intros m Hk; [done|].
  cbn. apply IH. destruct (hasWallet gc user chain); [|done].
  destruct (decide (id chain = k)) as [->|Hne].
  - apply lookup_insert_eq.
  - by rewrite lookup_insert_ne.
Qed.

Lemma prefill_hit gc user chains m c :
  c ∈ chains → hasWallet gc user c = true →
  prefill gc user chains m !! id c = Some successProgress.
Proof.
  revert m. induction chains as [|chain rest IH]; intros m Hin Hwallet.
  - by apply elem_of_nil in Hin.
  - cbn. apply elem_of_cons in Hin as [<-|Hin]; [|by apply IH].
    rewrite Hwallet. apply prefill_keeps_success, lookup_insert_eq.
Qed.

Lemma initializeProgress_from_miss acc chains k :
  k ∉ map id chains → initializeProgress_from acc chains !! k = acc !! k.
Proof.
  revert acc. induction chains as [|chain rest IH]; intros acc Hk; [done|].
  cbn in *. rewrite not_elem_of_cons in Hk. destruct Hk as [Hne Hk].
  rewrite IH by done. by rewrite lookup_insert_ne.
Qed.

Lemma initializeProgress_from_hit acc chains k :
  k ∈ map id chains → initializeProgress_from acc chains !! k = Some idleProgress.
Proof.
  revert acc. induction chains as [|chain rest IH]; intros acc Hk.
  - by apply elem_of_nil in Hk.
  - cbn in *. destruct (decide (k ∈ map id rest)) as [Hin|Hout]; [by apply IH|].
    apply elem_of_cons in Hk as [->|Hk]; [|done].
    rewrite initializeProgress_from_miss by done. apply lookup_insert_eq.
Qed.

Lemma some_needs_setup gc user chains :
  (0 <? length (filter (λ c, needsSetup gc (UserRecord user) c = true) chains))%nat = true
  ↔ ∃ c, c ∈ chains ∧ requiresSetup_spec gc user c.
Proof.
  rewrite Nat.ltb_lt. split.
  - intros Hlen. destruct (filter _ chains) as [|c l] eqn:Hfilter; [cbn in Hlen; lia|].
    assert (Hc : c ∈ filter (λ c, needsSetup gc (UserRecord user) c = true) chains).
    { rewrite Hfilter. apply list_elem_of_here. }
    apply list_elem_of_filter in Hc as [Hneeds Hin].
    exists c. split; [done|by apply needsSetup_spec].
  - intros (c & Hin & Hspec). apply needsSetup_spec in Hspec.
    assert (Hc : c ∈ filter (λ c, needsSetup gc (UserRecord user) c = true) chains).
    { by apply list_elem_of_filter. }
    destruct (filter _ chains); [by apply elem_of_nil in Hc|cbn; lia].
Qed.

(** The claim that every chain that does not require setup is pre-filled to
    all-success fails: with only mainnet configured and a mainnet wallet on
    record, no chain requires setup, needs-onboarding is cleared and the
    progress entry of mainnet stays idle. *)
Lemma checkUser_skips_prefill_when_nothing_to_do :
  ¬ prefilled_spec registry hooks mainnetOnlyWorld.
Proof.
  intros Hspec.
  assert (Hin : mainnet ∈ chainsToSetup (st mainnetOnlyWorld))
    by apply list_elem_of_here.
  specialize (Hspec mainnetUser mainnet eq_refl Hin).
  assert (Hno : ¬ requiresSetup_spec registry mainnetUser mainnet).
  { rewrite <- needsSetup_spec. by vm_compute. }
  specialize (Hspec Hno). vm_compute in Hspec. discriminate Hspec.
Qed.

(** C8, amended.  For a brand-new user (the fetch gives no record)
    needs-onboarding is true and the progress map is left as it is, which
    after [validateMode] is fully idle for every configured chain.  For an
    existing user a chain requires setup iff (the registry knows it as a
    testnet chain and no testnet wallet is recorded) or (as a mainnet chain and
    no mainnet wallet is recorded) or the registry does not know it;
    needs-onboarding is true iff some configured chain requires setup; if
    some chain does, every configured chain that does not is pre-filled to
    all-success; if none does, the progress map is left as it is. *)
Theorem checkUser_determines_required_chains gc h w :
  ((fetchUserData h w).1 = Returned UserNull →
     needsOnboarding (st (checkUser gc h w).2) = true
     ∧ progress (st (checkUser gc h w).2) = progress (st w))
  ∧ (∀ s chains c, c ∈ chains →
       progress (validateMode (Returned chains) s) !! id c = Some idleProgress)
  ∧ (∀ user, (fetchUserData h w).1 = Returned (UserRecord user) →
       (∀ c, needsSetup gc (UserRecord user) c = true ↔ requiresSetup_spec gc user c)
       ∧ (needsOnboarding (st (checkUser gc h w).2) = true
          ↔ ∃ c, c ∈ chainsToSetup (st w) ∧ requiresSetup_spec gc user c)
       ∧ ((∃ c, c ∈ chainsToSetup (st w) ∧ requiresSetup_spec gc user c) →
            ∀ c, c ∈ chainsToSetup (st w) → ¬ requiresSetup_spec gc user c →
                 progress (st (checkUser gc h w).2) !! id c = Some successProgress)
       ∧ ((∀ c, c ∈ chainsToSetup (st w) → ¬ requiresSetup_spec gc user c) →
            progress (st (checkUser gc h w).2) = progress (st w))).
Proof.
  split; [|split].
  - intros Hnew. destruct (checkUser_state gc h w UserNull Hnew) as [_ Hst].
    by rewrite Hst.
  - intros s chains c Hin. cbn. apply initializeProgress_from_hit.
    by apply list_elem_of_fmap_2.
  - intros user Hold. destruct (checkUser_state gc h w (UserRecord user) Hold) as [_ Hst].
    rewrite Hst. clear Hst. split; [apply needsSetup_spec|].
    pose proof (some_needs_setup gc user (chainsToSetup (st w))) as Hsome.
    destruct (0 <? _)%nat; cbn.
    + split; [by intuition|]. split.
      * intros _ c Hin Hnot. apply prefill_hit; [done|].
        rewrite hasWallet_needsSetup.
        destruct (needsSetup gc (UserRecord user) c) eqn:Hneeds; [|done].
        by apply needsSetup_spec in Hneeds.
      * intros Hnone. destruct Hsome as [Hsome _].
        destruct (Hsome eq_refl) as (c & Hin & Hspec). by destruct (Hnone c).
    + split; [|split; [|done]].
      * split; [done|]. intros Hex. by apply Hsome in Hex.
      * intros Hex. by apply Hsome in Hex.
Qed.

(** ** A full onboarding run *)

(** A run of [processChain] succeeds exactly when it leaves the chain with
    its four steps at success. *)
Lemma ChainRun_complete gsma h chain w sm :
  ChainRun gsma h chain w sm → isComplete (Some (run_entry sm)) = run_result sm.
Proof.
  destruct 1; try reflexivity.
  by destruct outcome as [[]|].
Qed.

Lemma pendingChains_cons progress0 chain rest :
  pendingChains progress0 (chain :: rest)
  = if isComplete (progress0 !! id chain) then pendingChains progress0 rest
    else chain :: pendingChains progress0 rest.
Proof.
  unfold pendingChains. destruct (isComplete (progress0 !! id chain)) eqn:Hc.
  - by rewrite filter_cons_False by congruence.
  - by rewrite filter_cons_True.
Qed.

Lemma pendingChains_ids progress0 chains k :
  k ∈ map id (pendingChains progress0 chains) → k ∈ map id chains.
Proof.
  intros Hk. apply list_elem_of_fmap in Hk as (c & -> & Hc).
  apply list_elem_of_filter in Hc as [_ Hc]. by apply list_elem_of_fmap_2.
Qed.

(** The loop of [startOnboarding]: it attempts every pending chain, in order,
    whatever the earlier ones did, and (for chains with distinct identifiers)
    its flag ends true exactly when every pending chain is left complete. *)
Lemma startOnboarding_loop_spec gsma h progress0 chains :
  ∀ acc w,
    ∃ evs allSuccessful,
      (startOnboarding_loop gsma h progress0 chains acc w).1 = Returned allSuccessful
      ∧ (NoDup (map id chains) →
         allSuccessful
         = acc && forallb
                    (λ c, isComplete
                            (progress (st (startOnboarding_loop gsma h progress0
                                                                chains acc w).2)
                             !! id c))
                    (pendingChains progress0 chains))
      ∧ trace (startOnboarding_loop gsma h progress0 chains acc w).2 = trace w ++ evs
      ∧ createCalls evs = map chainId (pendingChains progress0 chains)
      ∧ Forall (λ e, ¬ isFetchEvent e) evs
      ∧ needsOnboarding (st (startOnboarding_loop gsma h progress0 chains acc w).2)
        = needsOnboarding (st w)
      ∧ isOnboarding (st (startOnboarding_loop gsma h progress0 chains acc w).2)
        = isOnboarding (st w)
      ∧ ∀ k, k ∉ map id (pendingChains progress0 chains) →
             progress (st (startOnboarding_loop gsma h progress0 chains acc w).2) !! k
             = progress (st w) !! k.
Proof.
  induction chains as [|chain rest IH]; intros acc w.
  { exists [], acc. cbn. rewrite app_nil_r, andb_true_r. by repeat split. }
  rewrite pendingChains_cons. cbn [startOnboarding_loop].
  destruct (isComplete (progress0 !! id chain)).
  { destruct (IH acc w) as (evs & b & Hloop & Hall & Hrest).
    exists evs, b. split; [done|]. split; [|done].
    intros Hnodup. apply NoDup_cons in Hnodup as [_ Hnodup]. by apply Hall. }
  unfold bind.
  destruct (processChain_cases gsma h chain w) as (sm & Hrun & Hres & Hst & Htr).
  destruct (processChain gsma h chain w) as [r w1]. cbn [fst snd] in *. subst r.
  destruct (IH (if negb (run_result sm) then false else acc) w1)
    as (evs & b & Hloop & Hall & Hltr & Hcalls & Hnofetch & Hneeds & Hison & Hframe).
  destruct (ChainRun_events _ _ _ _ _ Hrun) as (tail & Hev & Htail & Htailnf).
  exists (run_events sm ++ evs), b.
  split; [done|]. split; [|split; [|split; [|split; [|split; [|split]]]]].
  - intros Hnodup. apply NoDup_cons in Hnodup as [Hfresh Hnodup].
    rewrite (Hall Hnodup). cbn [forallb].
    rewrite Hframe, Hst; [|intros Hin; apply Hfresh; by eapply pendingChains_ids].
    cbn [progress stateAfter set_currentSigningChain set_progress].
    rewrite lookup_insert_eq, (ChainRun_complete _ _ _ _ _ Hrun).
    by destruct (run_result sm), acc.
  - by rewrite Hltr, Htr, app_assoc.
  - rewrite createCalls_app, Hcalls, Hev.
    change (createCalls (EvCreateSafeWallet ?o ?c ?r :: tail))
      with (c :: createCalls tail).
    by rewrite Htail.
  - apply Forall_app. split; [|done]. rewrite Hev.
    constructor; [intros Hf; exact Hf|done].
  - by rewrite Hneeds, Hst.
  - by rewrite Hison, Hst.
  - intros k Hk. cbn in Hk. rewrite not_elem_of_cons in Hk. destruct Hk as [Hne Hk].
    rewrite Hframe, Hst by done. cbn. by rewrite lookup_insert_ne.
Qed.

Lemma fetchUserData_trace h w :
  ∃ fetched,
    trace (fetchUserData h w).2 = trace w ++ fetched
    ∧ Forall isFetchEvent fetched
    ∧ (authenticated h = true → head fetched = Some EvGetAccessToken).
Proof.
  unfold fetchUserData. destruct (authenticated h).
  - unfold_run. simp_run.
    destruct (accessTokens (env w) 0%nat) as [token|e];
      [|by exists [EvGetAccessToken]; repeat constructor].
    destruct (truthy token); [|by exists [EvGetAccessToken]; repeat constructor].
    simp_run. exists [EvGetAccessToken; EvFetchUser (default "" token)].
    destruct (fetches (env w) 0%nat) as [e| |e|[] data]; simp_run;
      rewrite <- ?app_assoc; by repeat constructor.
  - exists []. rewrite app_nil_r. by repeat constructor.
Qed.

(** What [fetchUserData] logs. *)
Lemma fetchUserData_events h w :
  trace (fetchUserData h w).2 = trace w ++ refetchEvents h w.
Proof.
  unfold fetchUserData, refetchEvents. destruct (authenticated h); cbn [negb].
  - unfold_run. simp_run.
    destruct (accessTokens (env w) 0%nat) as [token|e]; [|done].
    destruct (truthy token); [|done]. simp_run.
    destruct (fetches (env w) 0%nat) as [e| |e|[] data]; simp_run;
      by rewrite <- ?app_assoc.
  - cbn. by rewrite app_nil_r.
Qed.

(** The steps of a chain use up no answer of the user-record requests. *)
Lemma LeavesFetch_ret {A} (a : A) : LeavesFetch (ret a).
Proof. by intros w. Qed.

Lemma LeavesFetch_throw {A} e : LeavesFetch (@throw A e).
Proof. by intros w. Qed.

Lemma LeavesFetch_bind {A B} (m : M A) (k : A → M B) :
  LeavesFetch m → (∀ a, LeavesFetch (k a)) → LeavesFetch (bind m k).
Proof.
  intros Hm Hk w. unfold bind. specialize (Hm w).
  destruct (m w) as [[a|e] w1]; cbn [fst snd] in *; [|done].
  destruct (Hk a w1) as [-> ->]. done.
Qed.

Lemma LeavesFetch_try_catch {A} (m : M A) (h : JsThrown → M A) :
  LeavesFetch m → (∀ e, LeavesFetch (h e)) → LeavesFetch (try_catch m h).
Proof.
  intros Hm Hh w. unfold try_catch. specialize (Hm w).
  destruct (m w) as [[a|e] w1]; cbn [fst snd] in *; [done|].
  destruct (Hh e w1) as [-> ->]. done.
Qed.

Lemma LeavesFetch_if {A} (b : bool) (m1 m2 : M A) :
  LeavesFetch m1 → LeavesFetch m2 → LeavesFetch (if b then m1 else m2).
Proof. by destruct b. Qed.

Lemma LeavesFetch_setProgressEntry key upd : LeavesFetch (setProgressEntry key upd).
Proof. by intros w. Qed.

Lemma LeavesFetch_setCurrentSigningChain slot :
  LeavesFetch (setCurrentSigningChain slot).
Proof. by intros w. Qed.

Lemma LeavesFetch_createSafeWallet owner chain :
  LeavesFetch (createSafeWallet owner chain).
Proof. by intros w. Qed.

Lemma LeavesFetch_switchChain chain : LeavesFetch (switchChain chain).
Proof. by intros w. Qed.

Lemma LeavesFetch_signEnableModule safe chain :
  LeavesFetch (signEnableModule safe chain).
Proof. by intros w. Qed.

Lemma LeavesFetch_submitEnableModule : LeavesFetch submitEnableModule.
Proof. by intros w. Qed.

Lemma LeavesFetch_isModuleEnabled safe moduleAddress :
  LeavesFetch (isModuleEnabled safe moduleAddress).
Proof. by intros w. Qed.

Lemma LeavesFetch_sleep ms : LeavesFetch (sleep ms).
Proof. by intros w. Qed.

Lemma LeavesFetch_ensureChainSelected wallet chain :
  LeavesFetch (ensureChainSelected wallet chain).
Proof.
  unfold ensureChainSelected. apply LeavesFetch_if; [apply LeavesFetch_throw|].
  apply LeavesFetch_try_catch; [apply LeavesFetch_switchChain|].
  intros e. apply LeavesFetch_throw.
Qed.

Lemma LeavesFetch_waitForChain target timeoutMs :
  LeavesFetch (waitForChain (λ _, Some target) target timeoutMs).
Proof.
  intros w. unfold waitForChain. rewrite waitForChain_loop_equation_1.
  destruct (decide (now w - now w < timeoutMs)); cbn; [|done].
  by destruct (decide (Some target = Some target)).
Qed.

Lemma LeavesFetch_verifyModuleEnabled_loop safe moduleAddress maxRetries delayMs
    remaining attempt lastError :
  LeavesFetch (verifyModuleEnabled_loop safe moduleAddress maxRetries delayMs
                                        remaining attempt lastError).
Proof.
  revert attempt lastError.
  induction remaining as [|remaining IH]; intros attempt lastError; cbn.
  - apply LeavesFetch_throw.
  - apply LeavesFetch_try_catch; [apply LeavesFetch_isModuleEnabled|].
    intros e. apply LeavesFetch_bind; [|intros; apply IH].
    apply LeavesFetch_if; [apply LeavesFetch_sleep|apply LeavesFetch_ret].
Qed.

Lemma LeavesFetch_verifyModuleEnabled gsma safe chain maxRetries delayMs :
  LeavesFetch (verifyModuleEnabled gsma safe chain maxRetries delayMs).
Proof.
  unfold verifyModuleEnabled. apply LeavesFetch_if; [apply LeavesFetch_throw|].
  apply LeavesFetch_bind; [intros w; by destruct safe|].
  intros _. apply LeavesFetch_verifyModuleEnabled_loop.
Qed.

Ltac leaves_step :=
  first [ apply LeavesFetch_ret | apply LeavesFetch_throw
        | apply LeavesFetch_createSafeWallet | apply LeavesFetch_signEnableModule
        | apply LeavesFetch_submitEnableModule | apply LeavesFetch_ensureChainSelected
        | apply LeavesFetch_waitForChain | apply LeavesFetch_verifyModuleEnabled
        | apply LeavesFetch_setProgressEntry | apply LeavesFetch_setCurrentSigningChain
        | apply LeavesFetch_bind
        | apply LeavesFetch_try_catch
        | apply LeavesFetch_if
        | intros ? ].

Lemma LeavesFetch_processChain gsma h chain : LeavesFetch (processChain gsma h chain).
Proof. unfold processChain. repeat leaves_step. Qed.

Lemma LeavesFetch_startOnboarding_loop gsma h progress0 chains :
  ∀ acc, LeavesFetch (startOnboarding_loop gsma h progress0 chains acc).
Proof.
  induction chains as [|chain rest IH]; intros acc; cbn [startOnboarding_loop].
  - apply LeavesFetch_ret.
  - apply LeavesFetch_if; [apply IH|].
    apply LeavesFetch_bind; [apply LeavesFetch_processChain|]. intros ok. apply IH.
Qed.

(** The flag of the loop of [startOnboarding] says whether every chain it
    processed returned [true]. *)
Lemma startOnboarding_loop_results gsma h progress0 chains :
  ∀ acc w,
    (startOnboarding_loop gsma h progress0 chains acc w).1
    = Returned (acc && forallb Datatypes.id
                         (chainResults gsma h (pendingChains progress0 chains) w)).
Proof.
  induction chains as [|chain rest IH]; intros acc w.
  { cbn. by rewrite andb_true_r. }
  rewrite pendingChains_cons. cbn [startOnboarding_loop].
  destruct (isComplete (progress0 !! id chain)); [apply IH|].
  unfold bind. cbn [chainResults forallb].
  destruct (processChain_returns gsma h chain w) as (ok & Hok).
  destruct (processChain gsma h chain w) as [r w1]. cbn [fst snd] in *. subst r.
  rewrite IH. by destruct ok, acc.
Qed.

(** C7.  In a full onboarding run (none already in progress) every chain
    that is not already complete is processed, in configuration order, whether
    or not an earlier chain failed: wallet creation is requested once for each
    of them.  After the loop the user record is fetched again: the token is
    requested and, when there is one, [/users/me] is requested with it.
    Needs-onboarding is cleared exactly when every chain processed in the run
    returned success, and is otherwise left as it was; with distinct chain
    keys, that is when every processed chain ends with its four steps at
    success. *)
Theorem startOnboarding_attempts_every_chain gsma h w :
  isOnboarding (st w) = false →
  ∃ evs,
    newEvents w (startOnboarding gsma h w).2 = evs ++ refetchEvents h w
    ∧ createCalls evs
      = map chainId (pendingChains (progress (st w)) (chainsToSetup (st w)))
    ∧ Forall (λ e, ¬ isFetchEvent e) evs
    ∧ needsOnboarding (st (startOnboarding gsma h w).2)
      = (if forallb Datatypes.id
              (chainResults gsma h
                 (pendingChains (progress (st w)) (chainsToSetup (st w)))
                 (with_st (set_isOnboarding true) w))
         then false else needsOnboarding (st w))
    ∧ (NoDup (map id (chainsToSetup (st w))) →
       forallb Datatypes.id
         (chainResults gsma h
            (pendingChains (progress (st w)) (chainsToSetup (st w)))
            (with_st (set_isOnboarding true) w))
       = forallb (λ c, isComplete (progress (st (startOnboarding gsma h w).2) !! id c))
                 (pendingChains (progress (st w)) (chainsToSetup (st w))))
    ∧ isOnboarding (st (startOnboarding gsma h w).2) = false.
Proof.
  intros Hidle.
  destruct (startOnboarding gsma h w) as [r w'] eqn:Hrun. cbn [snd].
  unfold startOnboarding in Hrun. rewrite Hidle in Hrun.
  unfold bind at 1, setIsOnboarding in Hrun. cbv beta iota zeta in Hrun.
  unfold bind at 1 in Hrun.
  assert (Hw0 : ∃ w0, w0 = with_st (set_isOnboarding true) w) by eauto.
  destruct Hw0 as (w0 & Hw0). rewrite <- Hw0 in *.
  assert (Htrace0 : trace w0 = trace w) by (by subst w0).
  assert (Hneeds0 : needsOnboarding (st w0) = needsOnboarding (st w)) by (by subst w0).
  assert (Htokens0 : accessTokens (env w0) = accessTokens (env w)) by (by subst w0).
  clear Hw0.
  destruct (startOnboarding_loop_spec gsma h (progress (st w)) (chainsToSetup (st w))
              true w0)
    as (evs & b & Hloop & Hall & Hltr & Hcalls & Hnofetch & Hneeds & _ & _).
  pose proof (startOnboarding_loop_results gsma h (progress (st w))
                (chainsToSetup (st w)) true w0) as Hresults.
  destruct (LeavesFetch_startOnboarding_loop gsma h (progress (st w))
              (chainsToSetup (st w)) true w0) as [Htokens _].
  rewrite Hloop in Hresults. cbn [andb] in Hresults. injection Hresults as Hb.
  destruct (startOnboarding_loop gsma h (progress (st w)) (chainsToSetup (st w)) true
              w0) as [rl w1].
  cbn [fst snd] in *. subst rl.
  unfold bind at 1 in Hrun.
  pose proof (fetchUserData_st h w1) as Hfst.
  pose proof (fetchUserData_events h w1) as Hftr.
  assert (Hsame : refetchEvents h w1 = refetchEvents h w)
    by (unfold refetchEvents; by rewrite Htokens, Htokens0).
  rewrite Hsame in Hftr.
  destruct (fetchUserData_returns h w1) as (u & Hu).
  destruct (fetchUserData h w1) as [ru w2]. cbn [fst snd] in *. subst ru.
  exists evs. rewrite <- Hb.
  destruct b; unfold_run_in Hrun; simp_run_in Hrun;
    injection Hrun as <- <-; unfold newEvents; simp_run;
    rewrite Hftr, Hltr, Hfst, Htrace0, <- ?app_assoc, ?drop_app_length, ?Hneeds,
      ?Hneeds0;
    by repeat split.
Qed.

Lemma startOnboarding_attempts_every_chain_witness :
  createCalls (newEvents firstFailsWorld
                 (startOnboarding moduleAddresses hooks firstFailsWorld).2)
  = [11155111; 1]
  ∧ needsOnboarding (st (startOnboarding moduleAddresses hooks firstFailsWorld).2)
    = true.
Proof.
  destruct (startOnboarding_attempts_every_chain moduleAddresses hooks firstFailsWorld)
    as (evs & Hev & Hcalls & _ & Hneeds & _).
  - reflexivity.
  - split.
    + rewrite Hev, createCalls_app, Hcalls. reflexivity.
    + rewrite Hneeds. reflexivity.
Defined.

(** * Properties beyond the specification *)

(** ** One chain *)

Ltac in_events :=
  repeat first [apply list_elem_of_here | apply list_elem_of_further].

Lemma runEvents_cases gsma h chain w :
  ∃ sm, ChainRun gsma h chain w sm
        ∧ (processChain gsma h chain w).1 = Returned (run_result sm)
        ∧ progress (st (processChain gsma h chain w).2) !! id chain
          = Some (run_entry sm)
        ∧ currentSigningChain (st (processChain gsma h chain w).2) = run_slot sm
        ∧ runEvents gsma h chain w = run_events sm.
Proof.
  destruct (processChain_cases gsma h chain w) as (sm & Hrun & Hres & Hst & Htr).
  exists sm. unfold runEvents.
  rewrite (newEvents_app _ _ _ Htr), (processChain_progress _ _ _ _ _ Hst), Hst.
  by repeat split.
Qed.

(** X1.  [processChain] never throws, and it returns [true] exactly when it
    leaves the four steps of the chain at success. *)
Theorem processChain_true_iff_complete gsma h chain w :
  ∃ ok, (processChain gsma h chain w).1 = Returned ok
        ∧ isComplete (progress (st (processChain gsma h chain w).2) !! id chain) = ok.
Proof.
  destruct (runEvents_cases gsma h chain w) as (sm & Hrun & Hres & Hentry & _).
  exists (run_result sm). rewrite Hentry. split; [done|].
  by eapply ChainRun_complete.
Qed.

(** X2.  Each step is attempted only when the one before it succeeded: the
    chain switch is requested only after a wallet creation that succeeded; the
    signature is requested only after the switch resolved, and for the address
    the creation returned; the submission is made only after a signature that
    succeeded without being the already-enabled one; the chain is read only
    with a provider and after a submission that succeeded. *)
Theorem processChain_steps_gated gsma h chain w :
  (∀ c r, EvSwitchChain c r ∈ runEvents gsma h chain w →
     ∃ owner cr, EvCreateSafeWallet owner c (Returned cr) ∈ runEvents gsma h chain w
                 ∧ create_success cr = true)
  ∧ (∀ safe c r, EvSignEnableModule safe c r ∈ runEvents gsma h chain w →
       EvSwitchChain c (Returned ()) ∈ runEvents gsma h chain w
       ∧ ∃ owner cr, EvCreateSafeWallet owner c (Returned cr) ∈ runEvents gsma h chain w
                     ∧ safe = create_safeAddress cr)
  ∧ (∀ r, EvSubmitEnableModule r ∈ runEvents gsma h chain w →
       ∃ safe c sg, EvSignEnableModule safe c (Returned sg) ∈ runEvents gsma h chain w
                    ∧ sign_success sg = true ∧ alreadyEnabled sg = false)
  ∧ (∀ safe addr r, EvIsModuleEnabled safe addr r ∈ runEvents gsma h chain w →
       ethereumProvider h = true
       ∧ ∃ sb, EvSubmitEnableModule (Returned sb) ∈ runEvents gsma h chain w
               ∧ submit_success sb = true).
Proof.
  destruct (runEvents_cases gsma h chain w) as (sm & Hrun & _ & _ & _ & ->).
  destruct Hrun; cbn [run_events app]; (split; [|split; [|split]]); intros;
    match goal with H : _ ∈ _ |- _ => events_inv H; try (inversion H; subst) end;
    repeat split; try done; repeat eexists; try in_events; done.
Qed.

(** X3.  When the wallet refuses the chain switch, module-sign ends as error
    with a message that names the chain, the signing slot is cleared,
    module-enable and module-verify are left as they were, no signature is
    requested, and the chain is reported as failed. *)
Theorem processChain_switch_refused gsma h chain w c e :
  EvSwitchChain c (Thrown e) ∈ runEvents gsma h chain w →
  (processChain gsma h chain w).1 = Returned false
  ∧ currentSigningChain (st (processChain gsma h chain w).2) = None
  ∧ (∀ safe c' r, EvSignEnableModule safe c' r ∉ runEvents gsma h chain w)
  ∧ ∃ p, progress (st (processChain gsma h chain w).2) !! id chain = Some p
         ∧ walletCreate p = Some success
         ∧ moduleSign p = Some error
         ∧ moduleEnable p = moduleEnable (spread (progress (st w) !! id chain))
         ∧ moduleVerify p = moduleVerify (spread (progress (st w) !! id chain))
         ∧ errorMsg p
           = Some ("Failed to switch to " +:+ name chain +:+ ": "
                   +:+ ("Failed to switch to chain " +:+ pretty (chainId chain) +:+ ": "
                        +:+ messageOrString e)).
Proof.
  intros Hin.
  destruct (runEvents_cases gsma h chain w) as (sm & Hrun & -> & -> & -> & Hev).
  rewrite Hev in *.
  destruct Hrun; cbn [run_events run_result run_entry run_slot app] in *;
    events_inv Hin; inversion Hin; subst.
  split; [done|]. split; [done|]. split; [|by eauto 10].
  intros safe c' r Hsign. events_inv Hsign.
Qed.

Lemma processChain_switch_refused_witness :
  (processChain moduleAddresses hooks sepolia switchThrowsWorld).1 = Returned false.
Proof.
  refine (proj1 (processChain_switch_refused moduleAddresses hooks sepolia
                   switchThrowsWorld 11155111 (ErrorObj "User rejected the request") _)).
  vm_compute. apply list_elem_of_further, list_elem_of_here.
Defined.

(** X4.  Without a wallet handle the switch is never requested of the wallet:
    once the wallet is created, module-sign ends as error with
    "Embedded wallet not available" after the chain's name, the slot is
    cleared, and the run logs the creation call alone. *)
Theorem processChain_without_wallet_handle gsma h chain w cr :
  embeddedWallet h = false →
  creates (env w) 0%nat = Returned cr → create_success cr = true →
  (processChain gsma h chain w).1 = Returned false
  ∧ currentSigningChain (st (processChain gsma h chain w).2) = None
  ∧ runEvents gsma h chain w
    = [EvCreateSafeWallet (default "" (walletAddress h)) (chainId chain) (Returned cr)]
  ∧ ∃ p, progress (st (processChain gsma h chain w).2) !! id chain = Some p
         ∧ moduleSign p = Some error
         ∧ safeAddress p = create_safeAddress cr
         ∧ errorMsg p = Some ("Failed to switch to " +:+ name chain
                              +:+ ": Embedded wallet not available").
Proof.
  intros Hnone Hcreate Hok.
  destruct (runEvents_cases gsma h chain w) as (sm & Hrun & -> & -> & -> & ->).
  destruct Hrun as [|?|cr0 Hc| | | | | | | |];
    cbn [run_events run_result run_entry run_slot]; try congruence.
  rewrite Hcreate in Hc. injection Hc as <-.
  by eauto 10.
Qed.

Lemma processChain_without_wallet_handle_witness :
  runEvents moduleAddresses hooksNoWallet sepolia happyWorld
  = [EvCreateSafeWallet "0xOWNER" 11155111 (Returned created)].
Proof.
  refine (proj1 (proj2 (proj2 (processChain_without_wallet_handle moduleAddresses
                                 hooksNoWallet sepolia happyWorld created _ _ _))));
    reflexivity.
Defined.

(** X5.  Without a provider the chain is never read; a run whose submission
    succeeded ends with module-verify = error and the message
    "Verification failed: Ethereum provider not available". *)
Theorem processChain_without_provider gsma h chain w :
  ethereumProvider h = false →
  (∀ safe addr r, EvIsModuleEnabled safe addr r ∉ runEvents gsma h chain w)
  ∧ (∀ sb, EvSubmitEnableModule (Returned sb) ∈ runEvents gsma h chain w →
           submit_success sb = true →
           (processChain gsma h chain w).1 = Returned false
           ∧ ∃ p, progress (st (processChain gsma h chain w).2) !! id chain = Some p
                  ∧ moduleEnable p = Some success
                  ∧ moduleVerify p = Some error
                  ∧ errorMsg p
                    = Some "Verification failed: Ethereum provider not available").
Proof.
  intros Hnone.
  destruct (runEvents_cases gsma h chain w) as (sm & Hrun & -> & -> & _ & ->).
  split.
  - intros safe addr r Hin.
    destruct Hrun; cbn [run_events app] in *; events_inv Hin; congruence.
  - intros sb' Hin Hok.
    destruct Hrun; cbn [run_events run_result run_entry app] in *; events_inv Hin;
      try congruence; inversion Hin; subst; try congruence.
    by eauto 10.
Qed.

Lemma processChain_without_provider_witness :
  EvIsModuleEnabled (Some "0xSAFE") "0xMODULE" (Returned true)
    ∉ runEvents moduleAddresses hooksNoProvider sepolia happyWorld.
Proof.
  refine (proj1 (processChain_without_provider moduleAddresses hooksNoProvider
                   sepolia happyWorld _) (Some "0xSAFE") "0xMODULE" (Returned true)).
  reflexivity.
Defined.

Lemma alreadyEnabled_false r : carriesHash r → alreadyEnabled r = false.
Proof.
  unfold carriesHash, alreadyEnabled. intros Hno.
  destruct (sign_data r) as [data|]; [|done].
  unfold truthy. destruct (String.eqb_spec (safeTxHash data) ""); [|done].
  destruct Hno. by eauto.
Qed.

(** X6.  Only a signature with data and an empty hash counts as "already
    enabled": after a signature that succeeded without data, or with a hash,
    the submission is made (once), whatever it then answers. *)
Theorem processChain_submits_signed_transaction gsma h chain w safe c r :
  EvSignEnableModule safe c (Returned r) ∈ runEvents gsma h chain w →
  sign_success r = true → carriesHash r →
  ∃ before after,
    runEvents gsma h chain w
    = before ++ EvSubmitEnableModule (submits (env w) 0%nat) :: after
    ∧ (∀ res, EvSubmitEnableModule res ∉ before)
    ∧ (∀ res, EvSubmitEnableModule res ∉ after).
Proof.
  intros Hin Hok Hhash. apply alreadyEnabled_false in Hhash.
  destruct (runEvents_cases gsma h chain w) as (sm & Hrun & _ & _ & _ & Hev).
  rewrite Hev in *.
  destruct Hrun as [| | | | | | |cr sg e Hc ? ? ? Hs ? ? Hsub
                    |cr sg sb Hc ? ? ? Hs ? ? Hsub
                    |cr sg sb Hc ? ? ? Hs ? ? Hsub
                    |cr sg sb w5 outcome w6 evs Hc ? ? ? Hs ? ? Hsub];
    cbn [run_events app] in *; events_inv Hin; inversion Hin; subst;
    try congruence; rewrite Hsub.
  all: eexists [_; _; _], _; split; [reflexivity|]; split;
    intros res Hres; events_inv Hres.
Qed.

Lemma processChain_submits_signed_transaction_witness :
  ∃ before after,
    runEvents moduleAddresses hooks sepolia signWithoutDataWorld
    = before ++ EvSubmitEnableModule (Returned submitted) :: after
    ∧ (∀ res, EvSubmitEnableModule res ∉ before)
    ∧ (∀ res, EvSubmitEnableModule res ∉ after).
Proof.
  apply (processChain_submits_signed_transaction moduleAddresses hooks sepolia
           signWithoutDataWorld (Some "0xSAFE") 11155111 signedWithoutData).
  - vm_compute. in_events.
  - reflexivity.
  - intros (data & Hdata & _). discriminate Hdata.
Defined.

(** X7.  The calls of a run come in one order, each at most once: wallet
    creation, chain switch, signature, submission, then reads and waits; the
    run may stop after any of them, and it reads the chain only after all
    four. *)
Theorem processChain_call_order gsma h chain w :
  ∃ n tail,
    (1 ≤ n ≤ 4)%nat
    ∧ map kindOf (runEvents gsma h chain w)
      = take n [KCreate; KSwitch; KSign; KSubmit] ++ map kindOf tail
    ∧ Forall isVerifyEvent tail
    ∧ (tail ≠ [] → n = 4%nat).
Proof.
  destruct (runEvents_cases gsma h chain w) as (sm & Hrun & _ & _ & _ & ->).
  destruct Hrun as [| | | | | | | | | |cr sg sb w5 outcome w6 evs];
    cbn [run_events].
  1-3: exists 1%nat, [].
  4: exists 2%nat, [].
  5-7: exists 3%nat, [].
  8-10: exists 4%nat, [].
  1-10: split; [lia|]; split; [reflexivity|]; split; [constructor|];
    intros Hne; by destruct Hne.
  exists 4%nat, evs. split; [lia|]. split; [by rewrite map_app|]. by split.
Qed.

(** ** The module verifier, in general *)

(** X9.  With a Safe address to build the contract handle on and a module
    address configured, when every read of the budget throws, the verifier
    throws "Failed to verify module status after N attempts: " followed by the
    message of the last error ("Unknown error" if that message is empty, or if
    the budget is 0), after exactly N reads and N - 1 waits: there is no wait
    after the last attempt. *)
Theorem verifyModuleEnabled_gives_up gsma safe chain addr maxRetries delayMs w errs :
  gsma chain = Some addr → truthy (Some addr) = true →
  length errs = maxRetries →
  throwsFirst (reads (env w)) errs →
  (verifyModuleEnabled gsma (Some safe) chain maxRetries delayMs w).1
  = Thrown (ErrorObj ("Failed to verify module status after " +:+ pretty maxRetries
                      +:+ " attempts: " +:+ lastErrorMessage (toError <$> last errs)))
  ∧ readCount (newEvents w (verifyModuleEnabled gsma (Some safe) chain maxRetries
                                                delayMs w).2)
    = maxRetries
  ∧ sleepCount (newEvents w (verifyModuleEnabled gsma (Some safe) chain maxRetries
                                                 delayMs w).2)
    = (maxRetries - 1)%nat.
Proof.
  intros Haddr Htruthy Hlen Hall.
  rewrite (verifyModuleEnabled_configured _ _ _ _ _ _ _ Haddr Htruthy).
  destruct (verifyModuleEnabled_loop_skip (Some safe) addr maxRetries delayMs errs
              maxRetries 0%nat None w Hall) as (w' & Hloop & Htr & _); [lia|].
  rewrite Hloop, Hlen, Nat.sub_diag. cbn [verifyModuleEnabled_loop throw fst snd].
  rewrite (newEvents_app _ _ _ Htr), readCount_thrownReads, sleepCount_thrownReads.
  split; [by destruct (last errs)|]. split; [done|]. lia.
Qed.

Lemma verifyModuleEnabled_gives_up_witness :
  (verifyModuleEnabled moduleAddresses (Some "0xSAFE") 11155111 3 2000 deadReadWorld).1
  = Thrown (ErrorObj "Failed to verify module status after 3 attempts: network error").
Proof.
  refine (proj1 (verifyModuleEnabled_gives_up moduleAddresses "0xSAFE" 11155111
                   "0xMODULE" 3 2000 deadReadWorld
                   (replicate 3 (ErrorObj "network error")) _ _ _ _)); try reflexivity.
  intros i e Hi. apply lookup_replicate in Hi as [-> _]. reflexivity.
Defined.

(** X10.  With a Safe address to build the contract handle on and a module
    address configured, the verifier returns the answer of the first read
    that does not throw, be it [true] or [false], provided the budget reaches
    that read; by then it has read once per failed attempt and once more, and
    waited once per failed attempt. *)
Theorem verifyModuleEnabled_first_answer gsma safe chain addr maxRetries delayMs w
    errs answer :
  gsma chain = Some addr → truthy (Some addr) = true →
  (length errs < maxRetries)%nat →
  throwsFirst (reads (env w)) errs →
  reads (env w) (length errs) = Returned answer →
  (verifyModuleEnabled gsma (Some safe) chain maxRetries delayMs w).1 = Returned answer
  ∧ newEvents w (verifyModuleEnabled gsma (Some safe) chain maxRetries delayMs w).2
    = thrownReads (Some safe) addr maxRetries delayMs errs 0
      ++ [EvIsModuleEnabled (Some safe) addr (Returned answer)]
  ∧ readCount (newEvents w (verifyModuleEnabled gsma (Some safe) chain maxRetries
                                                delayMs w).2)
    = S (length errs)
  ∧ sleepCount (newEvents w (verifyModuleEnabled gsma (Some safe) chain maxRetries
                                                 delayMs w).2)
    = length errs.
Proof.
  intros Haddr Htruthy Hlen Hall Hanswer.
  destruct (verifyModuleEnabled_answers gsma safe chain addr maxRetries delayMs w
              errs answer Haddr Htruthy Hlen Hall Hanswer) as (w' & Hv & Htr).
  rewrite Hv. cbn [fst snd]. rewrite (newEvents_app _ _ _ Htr).
  rewrite readCount_app, sleepCount_app, readCount_thrownReads,
    sleepCount_thrownReads.
  split; [done|]. split; [done|]. cbn. split; lia.
Qed.

Lemma verifyModuleEnabled_first_answer_witness :
  (verifyModuleEnabled moduleAddresses (Some "0xSAFE") 11155111 3 2000 flakyReadWorld).1
  = Returned true.
Proof.
  refine (proj1 (verifyModuleEnabled_first_answer moduleAddresses "0xSAFE"
                   11155111 "0xMODULE" 3 2000 flakyReadWorld
                   (replicate 2 (ErrorObj "network error")) true _ _ _ _ _));
    try reflexivity; [cbn; lia|].
  intros i e Hi. apply lookup_replicate in Hi as [-> Hi].
  destruct i as [|[|i]]; [reflexivity..|cbn in Hi; lia].
Defined.

(** X8.  In a run of [processChain] that reaches the verify step with a Safe
    address and a module address, and in which all five reads throw, the
    chain is reported as failed and module-verify ends as error with the
    message "Verification failed: Failed to verify module status after 5
    attempts: " followed by the message of the fifth error; the run has read
    five times and waited four. *)
Theorem processChain_reads_all_throw gsma h chain w addr safe e1 e2 e3 e4 e5 :
  reachesVerify h w = true →
  createdSafe w = Some safe →
  gsma (chainId chain) = Some addr → truthy (Some addr) = true →
  throwsFirst (reads (env w)) [e1; e2; e3; e4; e5] →
  (processChain gsma h chain w).1 = Returned false
  ∧ readCount (runEvents gsma h chain w) = 5%nat
  ∧ sleepCount (runEvents gsma h chain w) = 4%nat
  ∧ ∃ p, progress (st (processChain gsma h chain w).2) !! id chain = Some p
         ∧ moduleEnable p = Some success
         ∧ moduleVerify p = Some error
         ∧ errorMsg p
           = Some ("Verification failed: "
                   +:+ ("Failed to verify module status after 5 attempts: "
                        +:+ lastErrorMessage (Some (toError e5)))).
Proof.
  intros Hreach Hsafe Haddr Htruthy Hall.
  destruct (processChain_reaches_verify gsma h chain w Hreach)
    as (cr & sg & sb & w5 & outcome & w6 & evs & Hv & Henv & Htr & Hres & Hprog & Hev
        & Hcr).
  rewrite Hsafe in Hcr. rewrite <- Hcr in *.
  assert (Hall5 : throwsFirst (reads (env w5)) [e1; e2; e3; e4; e5])
    by (by rewrite Henv).
  destruct (verifyModuleEnabled_loop_skip (Some safe) addr 5 2000
              [e1; e2; e3; e4; e5] 5 0%nat None w5 Hall5)
    as (w' & Hloop & Htr' & _); [cbn; lia|].
  rewrite (verifyModuleEnabled_configured _ _ _ _ _ _ _ Haddr Htruthy), Hloop in Hv.
  cbn [length Nat.sub verifyModuleEnabled_loop throw last] in Hv.
  injection Hv as <- <-. rewrite Htr' in Htr. apply app_inv_head in Htr as <-.
  unfold runEvents. rewrite Hres, Hprog, Hev.
  split; [done|]. split; [reflexivity|]. split; [reflexivity|]. by eauto 10.
Qed.

Lemma processChain_reads_all_throw_witness :
  (processChain moduleAddresses hooks sepolia deadReadWorld).1 = Returned false.
Proof.
  refine (proj1 (processChain_reads_all_throw moduleAddresses hooks sepolia
                   deadReadWorld "0xMODULE" "0xSAFE" (ErrorObj "network error")
                   (ErrorObj "network error") (ErrorObj "network error")
                   (ErrorObj "network error") (ErrorObj "network error") _ _ _ _ _));
    try reflexivity.
  intros i e Hi. destruct i as [|[|[|[|[|i]]]]]; cbn in Hi; by simplify_option_eq.
Defined.

(** ** Waiting for the chain, in general *)

Lemma pollsLeft_done timeoutMs elapsed :
  ¬ elapsed < timeoutMs → pollsLeft timeoutMs elapsed = 0%nat.
Proof.
  intros Hge. unfold pollsLeft.
  assert ((timeoutMs - elapsed + 99) / 100 < 1)
    by (apply Z.div_lt_upper_bound; lia).
  lia.
Qed.

Lemma pollsLeft_step timeoutMs elapsed :
  elapsed < timeoutMs →
  pollsLeft timeoutMs elapsed = S (pollsLeft timeoutMs (elapsed + 100)).
Proof.
  intros Hlt. unfold pollsLeft.
  replace (timeoutMs - elapsed + 99)
    with (timeoutMs - (elapsed + 100) + 99 + 1 * 100) by lia.
  rewrite Z.div_add by lia.
  assert (0 ≤ (timeoutMs - (elapsed + 100) + 99) / 100)
    by (apply Z.div_pos; lia).
  lia.
Qed.

(** A getter that never reports the target chain is asked once per poll until
    the timeout has passed. *)
Lemma waitForChain_loop_poll_count getCurrentChainId target timeoutMs startTime w :
  (∀ w', env w' = env w → getCurrentChainId w' ≠ Some target) →
  (waitForChain_loop getCurrentChainId target timeoutMs startTime w).1
  = Thrown (ErrorObj ("Timeout waiting for chain " +:+ pretty target
                      +:+ " to become active"))
  ∧ trace (waitForChain_loop getCurrentChainId target timeoutMs startTime w).2
    = trace w ++ replicate (pollsLeft timeoutMs (now w - startTime))
                           (EvSleep (inject_Z 100))
  ∧ now (waitForChain_loop getCurrentChainId target timeoutMs startTime w).2
    = now w + 100 * Z.of_nat (pollsLeft timeoutMs (now w - startTime)).
Proof.
  intros Hnever.
  funelim (waitForChain_loop getCurrentChainId target timeoutMs startTime w).
  - rewrite pollsLeft_done by done. cbn. rewrite app_nil_r. split; [done|].
    split; [done|lia].
  - by destruct (Hnever w).
  - destruct (H Hnever) as (Hres & Htr & Hnow).
    rewrite (pollsLeft_step timeoutMs (now w - startTime)) by done.
    assert (Hclock : now (sleep_world (inject_Z 100) w) - startTime
                     = now w - startTime + 100)
      by (cbn; rewrite Z.div_1_r; lia).
    rewrite Hclock in Htr, Hnow.
    split; [done|]. split.
    + rewrite Htr. cbn. by rewrite <- app_assoc.
    + rewrite Hnow. cbn. rewrite Z.div_1_r. lia.
Qed.

(** X11.  Asked of a getter that never reports the target chain while the
    wait runs, [waitForChain] throws "Timeout waiting for chain N to become
    active" after one 100 ms wait per poll, ceil(timeoutMs / 100) of them
    (none when the timeout is not positive), and does nothing else: the React
    state is as before and the clock has advanced by the waits. *)
Theorem waitForChain_polls_until_timeout getCurrentChainId target timeoutMs w :
  (∀ w', env w' = env w → getCurrentChainId w' ≠ Some target) →
  (waitForChain getCurrentChainId target timeoutMs w).1
  = Thrown (ErrorObj ("Timeout waiting for chain " +:+ pretty target
                      +:+ " to become active"))
  ∧ newEvents w (waitForChain getCurrentChainId target timeoutMs w).2
    = replicate (pollsLeft timeoutMs 0) (EvSleep (inject_Z 100))
  ∧ now (waitForChain getCurrentChainId target timeoutMs w).2
    = now w + 100 * Z.of_nat (pollsLeft timeoutMs 0)
  ∧ st (waitForChain getCurrentChainId target timeoutMs w).2 = st w.
Proof.
  intros Hnever. unfold waitForChain.
  destruct (waitForChain_loop_poll_count getCurrentChainId target timeoutMs (now w) w
              Hnever) as (Hres & Htr & Hnow).
  rewrite Z.sub_diag in Htr, Hnow.
  split; [done|]. split; [by apply newEvents_app|]. split; [done|].
  apply waitForChain_loop_st.
Qed.

Lemma waitForChain_polls_until_timeout_witness :
  newEvents happyWorld
    (waitForChain currentProviderChainId (chainId sepolia) 250 happyWorld).2
  = [EvSleep (inject_Z 100); EvSleep (inject_Z 100); EvSleep (inject_Z 100)].
Proof.
  refine (proj1 (proj2 (waitForChain_polls_until_timeout currentProviderChainId
                          (chainId sepolia) 250 happyWorld _))).
  intros w' Henv. unfold currentProviderChainId. rewrite Henv. cbn. discriminate.
Defined.

(** The wallet provider reports the target chain at the [k]-th poll and not
    before. *)
Lemma waitForChain_loop_sees_switch target timeoutMs startTime k :
  ∀ w,
    (∀ j, (j < k)%nat →
          providerChain (env w) (now w + 100 * Z.of_nat j) ≠ Some target) →
    providerChain (env w) (now w + 100 * Z.of_nat k) = Some target →
    now w + 100 * Z.of_nat k - startTime < timeoutMs →
    (waitForChain_loop currentProviderChainId target timeoutMs startTime w).1
    = Returned ()
    ∧ trace (waitForChain_loop currentProviderChainId target timeoutMs startTime w).2
      = trace w ++ replicate k (EvSleep (inject_Z 100))
    ∧ now (waitForChain_loop currentProviderChainId target timeoutMs startTime w).2
      = now w + 100 * Z.of_nat k.
Proof.
  induction k as [|k IH]; intros w Hbefore Hat Hlt;
    rewrite waitForChain_loop_equation_1;
    (destruct (decide (now w - startTime < timeoutMs)) as [Hin|Hout]; [|lia]); cbn.
  - rewrite Z.add_0_r in Hat.
    destruct (decide (currentProviderChainId w = Some target)); [|done].
    cbn. rewrite app_nil_r. split; [done|]. split; [done|lia].
  - destruct (decide (currentProviderChainId w = Some target)) as [Hnow|Hne].
    { destruct (Hbefore 0%nat); [lia|]. by rewrite Z.add_0_r. }
    cbn.
    match goal with |- context [waitForChain_loop _ _ _ _ ?w1] =>
      destruct (IH w1) as (Hres & Htr & Hclock)
    end.
    + intros j Hj. cbn. rewrite Z.div_1_r.
      replace (now w + 100 + 100 * Z.of_nat j)
        with (now w + 100 * Z.of_nat (S j)) by lia.
      apply Hbefore. lia.
    + cbn. rewrite Z.div_1_r.
      by replace (now w + 100 + 100 * Z.of_nat k)
        with (now w + 100 * Z.of_nat (S k)) by lia.
    + cbn. rewrite Z.div_1_r. lia.
    + split; [done|]. split.
      * rewrite Htr. cbn. by rewrite <- app_assoc.
      * rewrite Hclock. cbn. rewrite Z.div_1_r. lia.
Qed.

(** X12.  Polling the wallet provider, [waitForChain] returns normally at the
    first poll instant (a multiple of 100 ms from its start) at which the
    provider reports the target chain, provided that instant lies before the
    timeout; it has then waited 100 ms once per earlier poll. *)
Theorem waitForChain_sees_switch target timeoutMs w k :
  (∀ j, (j < k)%nat →
        providerChain (env w) (now w + 100 * Z.of_nat j) ≠ Some target) →
  providerChain (env w) (now w + 100 * Z.of_nat k) = Some target →
  100 * Z.of_nat k < timeoutMs →
  (waitForChain currentProviderChainId target timeoutMs w).1 = Returned ()
  ∧ newEvents w (waitForChain currentProviderChainId target timeoutMs w).2
    = replicate k (EvSleep (inject_Z 100))
  ∧ now (waitForChain currentProviderChainId target timeoutMs w).2
    = now w + 100 * Z.of_nat k.
Proof.
  intros Hbefore Hat Hlt. unfold waitForChain.
  destruct (waitForChain_loop_sees_switch target timeoutMs (now w) k w Hbefore Hat)
    as (Hres & Htr & Hclock); [lia|].
  split; [done|]. split; [by apply newEvents_app|done].
Qed.

Lemma waitForChain_sees_switch_witness :
  (waitForChain currentProviderChainId 11155111 5000 switchingWorld).1 = Returned ()
  ∧ now (waitForChain currentProviderChainId 11155111 5000 switchingWorld).2
    = now switchingWorld + 300.
Proof.
  destruct (waitForChain_sees_switch 11155111 5000 switchingWorld 3)
    as (Hres & _ & Hclock).
  - intros j Hj. destruct j as [|[|[|j]]]; [by vm_compute..|lia].
  - by vm_compute.
  - lia.
  - split; [exact Hres|exact Hclock].
Defined.

(** ** The user record, in general *)

(** X13.  [fetchUserData] never throws.  What it returns is other than
    [null] in one case only: the user is authenticated, the token request
    resolves with a non-empty token, and the response is ok with a body whose
    [success] is true; it then returns the [data] of that body, a record, or
    [undefined] when the body has no [data].  In every other case (also when
    a request throws) it returns [null]. *)
Theorem fetchUserData_record_iff h w :
  (∃ r, (fetchUserData h w).1 = Returned r)
  ∧ (∀ r, r ≠ UserNull →
       ((fetchUserData h w).1 = Returned r
        ↔ authenticated h = true
          ∧ ∃ token, accessTokens (env w) 0%nat = Returned token
                     ∧ truthy token = true
                     ∧ fetches (env w) 0%nat = Body true r))
  ∧ ((fetchUserData h w).1 = Returned UserNull
     ↔ ¬ (authenticated h = true
          ∧ ∃ token r, accessTokens (env w) 0%nat = Returned token
                       ∧ truthy token = true
                       ∧ fetches (env w) 0%nat = Body true r
                       ∧ r ≠ UserNull)).
Proof.
  assert (Hnull : ∀ (P : FetchedUser → Prop),
            (∀ r, ¬ P r) →
            (∃ r, @Returned FetchedUser UserNull = Returned r)
            ∧ (∀ r, r ≠ UserNull → (Returned UserNull = Returned r ↔ P r))
            ∧ (@Returned FetchedUser UserNull = Returned UserNull
               ↔ ¬ ∃ r, P r ∧ r ≠ UserNull)).
  { intros P HP. split; [by eauto|]. split.
    - intros r Hr. split; [intros Heq; by injection Heq as <-|].
      intros HPr. by destruct (HP r).
    - split; [intros _ (r & HPr & _); by destruct (HP r)|done]. }
  unfold fetchUserData. destruct (authenticated h); cbn [negb].
  2:{ destruct (Hnull (λ _, False)) as (H1 & H2 & H3); [by intros ? []|].
      split; [exact H1|]. split.
      - intros r Hr. rewrite (H2 r Hr). split; [done|by intros [? _]].
      - split; [by intros _ [? _]|done]. }
  unfold_run. simp_run.
  destruct (accessTokens (env w) 0%nat) as [token|e].
  2:{ destruct (Hnull (λ _, False)) as (H1 & H2 & H3); [by intros ? []|].
      split; [exact H1|]. split.
      - intros r Hr. rewrite (H2 r Hr). split; [done|by intros (_ & ? & ? & _)].
      - split; [by intros _ (_ & ? & ? & ? & _)|done]. }
  destruct (truthy token) eqn:Htoken; cbn [negb].
  2:{ destruct (Hnull (λ _, False)) as (H1 & H2 & H3); [by intros ? []|].
      split; [exact H1|]. split.
      - intros r Hr. rewrite (H2 r Hr).
        split; [done|intros (_ & ? & ? & ? & _); congruence].
      - split; [intros _ (_ & ? & ? & ? & ? & _); congruence|done]. }
  simp_run.
  destruct (fetches (env w) 0%nat) as [e| |e|[] d]; cbn [fst].
  1-3,5:
    (destruct (Hnull (λ _, False)) as (H1 & H2 & H3); [by intros ? []|];
     split; [exact H1|]; split;
     [intros r Hr; rewrite (H2 r Hr);
      split; [done|intros (_ & ? & _ & _ & ?); congruence]
     |split; [intros _ (_ & ? & ? & _ & _ & ? & _); congruence|done]]).
  split; [by eauto|]. split.
  - intros r Hr. split.
    + intros Heq. injection Heq as <-. split; [done|]. by exists token.
    + intros (_ & token' & _ & _ & Hbody). by injection Hbody as <-.
  - split.
    + intros Heq (_ & token' & r & _ & _ & Hbody & Hr).
      injection Heq as ->. by injection Hbody as <-.
    + intros Hnot. destruct d as [user| |]; [|done|].
      * destruct Hnot. split; [done|]. by exists token, (UserRecord user).
      * destruct Hnot. split; [done|]. by exists token, UserUndefined.
Qed.

(** X14.  [fetchUserData] sends the user-record request only when the user is
    authenticated and the token request has resolved with a non-empty token,
    and with that very token; whatever happens it asks for a token at most
    once and sends at most one request. *)
Theorem fetchUserData_sends_token h w t :
  (EvFetchUser t ∈ newEvents w (fetchUserData h w).2
   ↔ authenticated h = true
     ∧ accessTokens (env w) 0%nat = Returned (Some t)
     ∧ truthy (Some t) = true)
  ∧ (length (newEvents w (fetchUserData h w).2) ≤ 2)%nat
  ∧ st (fetchUserData h w).2 = st w.
Proof.
  split; [|split; [|apply fetchUserData_st]].
  - unfold fetchUserData. destruct (authenticated h); cbn [negb].
    2:{ unfold newEvents, ret. cbn [snd]. rewrite drop_all.
        split; [by intros ?%elem_of_nil|by intros [? _]]. }
    unfold_run. simp_run.
    destruct (accessTokens (env w) 0%nat) as [token|e].
    2:{ unfold newEvents. simp_run. rewrite drop_app_length.
        split; [intros Hin; apply list_elem_of_singleton in Hin; discriminate
               |by intros (_ & ? & _)]. }
    destruct (truthy token) eqn:Htoken; cbn [negb].
    2:{ unfold newEvents. simp_run. rewrite drop_app_length.
        split; [intros Hin; apply list_elem_of_singleton in Hin; discriminate
               |intros (_ & Heq & ?); congruence]. }
    simp_run.
    assert (Hev : ∀ w',
              trace w' = (trace w ++ [EvGetAccessToken])
                         ++ [EvFetchUser (default "" token)] →
              EvFetchUser t ∈ newEvents w w'
              ↔ true = true ∧ Returned token = Returned (Some t)
                ∧ truthy (Some t) = true).
    { intros w' Htr. unfold newEvents. rewrite Htr, <- app_assoc, drop_app_length.
      cbn. rewrite elem_of_cons, list_elem_of_singleton. split.
      - intros [Hin|Hin]; [discriminate|]. injection Hin as ->.
        destruct token as [token|]; [by cbn|discriminate].
      - intros (_ & Heq & _). injection Heq as ->. by right. }
    destruct (fetches (env w) 0%nat) as [e| |e|[] data]; simp_run;
      by apply Hev.
  - unfold fetchUserData. destruct (authenticated h); cbn [negb].
    2:{ unfold newEvents, ret. cbn [snd]. rewrite drop_all. cbn. lia. }
    unfold newEvents. unfold_run. simp_run.
    destruct (accessTokens (env w) 0%nat) as [token|e];
      [|simp_run; rewrite drop_app_length; cbn; lia].
    destruct (truthy token); cbn [negb];
      [|simp_run; rewrite drop_app_length; cbn; lia].
    simp_run.
    destruct (fetches (env w) 0%nat) as [e| |e|[] data]; simp_run;
      rewrite <- app_assoc, drop_app_length; cbn; lia.
Qed.

(** ** The check of the user, in general *)

(** What [checkUser] says to the outside is what its one call of
    [fetchUserData] says. *)
Lemma checkUser_trace gc h w :
  trace (checkUser gc h w).2 = trace (fetchUserData h w).2.
Proof.
  destruct (fetchUserData_returns h w) as (u & Hu).
  destruct (checkUser gc h w) as [r w'] eqn:Hrun. cbn [snd].
  unfold checkUser, bind, setIsCheckingUser, try_finally, try_catch in Hrun.
  cbv beta iota zeta in Hrun.
  rewrite fetchUserData_with_st in Hrun.
  destruct (fetchUserData h w) as [r1 w1]. cbn [fst snd] in *. subst r1.
  destruct u as [user| |].
  - destruct (0 <? _)%nat; unfold_run_in Hrun; simp_run_in Hrun;
      by injection Hrun as <- <-.
  - unfold_run_in Hrun. simp_run_in Hrun. by injection Hrun as <- <-.
  - destruct (0 <? _)%nat; unfold_run_in Hrun; simp_run_in Hrun;
      by injection Hrun as <- <-.
Qed.

Lemma prefill_miss gc user chains m k :
  (∀ c, c ∈ chains → id c = k → hasWallet gc user c = false) →
  prefill gc user chains m !! k = m !! k.
Proof.
  revert m. induction chains as [|chain rest IH]; intros m Hk; [done|].
  cbn. rewrite IH by (intros c Hc; apply Hk; by apply list_elem_of_further).
  destruct (hasWallet gc user chain) eqn:Hwallet; [|done].
  rewrite lookup_insert_ne; [done|].
  intros Heq. rewrite (Hk chain) in Hwallet; [done|apply list_elem_of_here|done].
Qed.

Lemma filter_ext_elem {A} (P Q : A → Prop) `{∀ x, Decision (P x)}
    `{∀ x, Decision (Q x)} (l : list A) :
  (∀ x, x ∈ l → P x ↔ Q x) → filter P l = filter Q l.
Proof.
  induction l as [|x l IH]; intros Hext; [done|].
  assert (Hl : filter P l = filter Q l)
    by (apply IH; intros y Hy; apply Hext; by apply list_elem_of_further).
  destruct (decide (P x)) as [HP|HP].
  - rewrite !filter_cons_True, Hl; [done| |done].
    by apply (Hext x (list_elem_of_here _ _)).
  - rewrite !filter_cons_False, Hl; [done| |done].
    intros HQ. by apply HP, (Hext x (list_elem_of_here _ _)).
Qed.

Lemma isComplete_successProgress : isComplete (Some successProgress) = true.
Proof. reflexivity. Qed.

(** X15.  [checkUser] always ends normally and with the checking flag
    cleared (the [finally]), whatever the fetch did; it changes nothing of
    the mode, the configured chains, the in-progress flag or the signing
    slot, and its only traffic is that of its one [fetchUserData]. *)
Theorem checkUser_always_settles gc h w :
  (checkUser gc h w).1 = Returned ()
  ∧ isCheckingUser (st (checkUser gc h w).2) = false
  ∧ isOnboarding (st (checkUser gc h w).2) = isOnboarding (st w)
  ∧ isModeValid (st (checkUser gc h w).2) = isModeValid (st w)
  ∧ chainsToSetup (st (checkUser gc h w).2) = chainsToSetup (st w)
  ∧ currentSigningChain (st (checkUser gc h w).2) = currentSigningChain (st w)
  ∧ newEvents w (checkUser gc h w).2 = newEvents w (fetchUserData h w).2.
Proof.
  destruct (fetchUserData_returns h w) as (u & Hu).
  destruct (checkUser_state gc h w u Hu) as [Hres Hst].
  split; [done|]. unfold newEvents. rewrite checkUser_trace, Hst.
  destruct u as [user| |]; [destruct (0 <? _)%nat| |destruct (0 <? _)%nat]; by cbn.
Qed.

(** X16.  For an existing user, [checkUser] leaves the progress entry of a
    key as it was unless some configured chain with that key has its wallet
    on record: entries of chains that still need setup, and entries of keys
    that are not configured, are never written. *)
Theorem checkUser_keeps_pending_entries gc h w user k :
  (fetchUserData h w).1 = Returned (UserRecord user) →
  (∀ c, c ∈ chainsToSetup (st w) → id c = k →
        needsSetup gc (UserRecord user) c = true) →
  progress (st (checkUser gc h w).2) !! k = progress (st w) !! k.
Proof.
  intros Hu Hneeds.
  destruct (checkUser_state gc h w (UserRecord user) Hu) as [_ Hst]. rewrite Hst.
  destruct (0 <? _)%nat; cbn; [|done].
  apply prefill_miss. intros c Hc Hid.
  by rewrite hasWallet_needsSetup, (Hneeds c Hc Hid).
Qed.

Lemma checkUser_keeps_pending_entries_witness :
  progress (st (checkUser registry hooks testnetUserWorld).2) !! "mainnet"
  = progress (st testnetUserWorld) !! "mainnet".
Proof.
  apply (checkUser_keeps_pending_entries registry hooks testnetUserWorld testnetUser).
  - reflexivity.
  - intros c Hc Hid. vm_compute in Hc.
    apply elem_of_cons in Hc as [->|Hc]; [discriminate Hid|].
    apply elem_of_cons in Hc as [->|Hc]; [reflexivity|].
    by apply elem_of_nil in Hc.
Defined.

(** For an existing user of whose configured chains (with distinct keys, none
    complete yet) at least one needs setup, the chains left pending after
    [checkUser] are exactly those that need setup. *)
Lemma checkUser_pending gc h w user :
  (fetchUserData h w).1 = Returned (UserRecord user) →
  NoDup (map id (chainsToSetup (st w))) →
  (∀ c, c ∈ chainsToSetup (st w) → isComplete (progress (st w) !! id c) = false) →
  (∃ c, c ∈ chainsToSetup (st w) ∧ needsSetup gc (UserRecord user) c = true) →
  pendingChains (progress (st (checkUser gc h w).2)) (chainsToSetup (st w))
  = filter (λ c, needsSetup gc (UserRecord user) c = true) (chainsToSetup (st w)).
Proof.
  intros Hu Hnodup Hfresh (c0 & Hc0 & Hneeds0).
  destruct (checkUser_state gc h w (UserRecord user) Hu) as [_ Hst]. rewrite Hst.
  assert (Hsome : (0 <? length (filter (λ c, needsSetup gc (UserRecord user) c = true)
                                       (chainsToSetup (st w))))%nat = true).
  { apply Nat.ltb_lt.
    assert (Hin : c0 ∈ filter (λ c, needsSetup gc (UserRecord user) c = true)
                              (chainsToSetup (st w)))
      by (by apply list_elem_of_filter).
    destruct (filter _ (chainsToSetup (st w))); [by apply elem_of_nil in Hin|].
    cbn. lia. }
  rewrite Hsome. cbn [progress set_isCheckingUser set_progress].
  unfold pendingChains. apply filter_ext_elem. intros c Hc.
  destruct (needsSetup gc (UserRecord user) c) eqn:Hneeds.
  - rewrite prefill_miss; [by rewrite (Hfresh c Hc)|].
    intros c' Hc' Hid.
    assert (c' = c) as ->; [|by rewrite hasWallet_needsSetup, Hneeds].
    apply list_elem_of_lookup in Hc as [i Hi]. apply list_elem_of_lookup in Hc' as [j Hj].
    assert (i = j) as ->; [|congruence].
    apply (NoDup_lookup _ i j (id c) Hnodup);
      rewrite list_lookup_fmap; [by rewrite Hi|by rewrite Hj, <- Hid].
  - rewrite (prefill_hit gc (UserRecord user) _ _ c Hc), isComplete_successProgress;
      [done|by rewrite hasWallet_needsSetup, Hneeds].
Qed.

(** ** A full onboarding run, in general *)

(** The loop of [startOnboarding] touches neither the mode, nor the
    configured chains, nor the checking flag. *)
Lemma startOnboarding_loop_config gsma h progress0 chains :
  ∀ acc w,
    chainsToSetup (st (startOnboarding_loop gsma h progress0 chains acc w).2)
    = chainsToSetup (st w)
    ∧ isModeValid (st (startOnboarding_loop gsma h progress0 chains acc w).2)
      = isModeValid (st w)
    ∧ isCheckingUser (st (startOnboarding_loop gsma h progress0 chains acc w).2)
      = isCheckingUser (st w).
Proof.
  induction chains as [|chain rest IH]; intros acc w; [done|].
  cbn [startOnboarding_loop].
  destruct (isComplete (progress0 !! id chain)); [apply IH|].
  unfold bind.
  destruct (processChain_sameOutside gsma h chain w) as [_ _ Hchecking Hmode Hchains _].
  destruct (processChain gsma h chain w) as [[ok|e] w1]; cbn [fst snd] in *.
  - destruct (IH (if negb ok then false else acc) w1) as (-> & -> & ->). done.
  - done.
Qed.

(** With every configured chain already complete the loop does nothing. *)
Lemma startOnboarding_loop_nothing_pending gsma h progress0 chains acc w :
  (∀ c, c ∈ chains → isComplete (progress0 !! id c) = true) →
  startOnboarding_loop gsma h progress0 chains acc w = (Returned acc, w).
Proof.
  induction chains as [|chain rest IH]; intros Hdone; [done|].
  cbn [startOnboarding_loop]. rewrite (Hdone chain (list_elem_of_here _ _)).
  apply IH. intros c Hc. apply Hdone. by apply list_elem_of_further.
Qed.

(** A full run, from its loop and the refresh that follows it. *)
Lemma startOnboarding_run gsma h w :
  isOnboarding (st w) = false →
  ∃ evs fetched (allSuccessful : bool),
    (startOnboarding gsma h w).1 = Returned ()
    ∧ newEvents w (startOnboarding gsma h w).2 = evs ++ fetched
    ∧ createCalls evs
      = map chainId (pendingChains (progress (st w)) (chainsToSetup (st w)))
    ∧ Forall isFetchEvent fetched
    ∧ needsOnboarding (st (startOnboarding gsma h w).2)
      = (if allSuccessful then false else needsOnboarding (st w))
    ∧ isOnboarding (st (startOnboarding gsma h w).2) = false
    ∧ chainsToSetup (st (startOnboarding gsma h w).2) = chainsToSetup (st w)
    ∧ isModeValid (st (startOnboarding gsma h w).2) = isModeValid (st w)
    ∧ isCheckingUser (st (startOnboarding gsma h w).2) = isCheckingUser (st w)
    ∧ ∀ k, k ∉ map id (pendingChains (progress (st w)) (chainsToSetup (st w))) →
           progress (st (startOnboarding gsma h w).2) !! k = progress (st w) !! k.
Proof.
  intros Hidle.
  destruct (startOnboarding gsma h w) as [r w'] eqn:Hrun. cbn [fst snd].
  unfold startOnboarding in Hrun. rewrite Hidle in Hrun.
  unfold bind at 1, setIsOnboarding in Hrun. cbv beta iota zeta in Hrun.
  unfold bind at 1 in Hrun.
  destruct (startOnboarding_loop_spec gsma h (progress (st w)) (chainsToSetup (st w))
              true (with_st (set_isOnboarding true) w))
    as (evs & b & Hloop & _ & Hltr & Hcalls & _ & Hneeds & _ & Hframe).
  destruct (startOnboarding_loop_config gsma h (progress (st w))
              (chainsToSetup (st w)) true (with_st (set_isOnboarding true) w))
    as (Hchains & Hmode & Hchecking).
  destruct (startOnboarding_loop gsma h (progress (st w)) (chainsToSetup (st w)) true
              (with_st (set_isOnboarding true) w)) as [rl w1].
  cbn [fst snd] in *. subst rl.
  unfold bind at 1 in Hrun.
  pose proof (fetchUserData_st h w1) as Hfst.
  destruct (fetchUserData_trace h w1) as (fetched & Hftr & Hfetched & _).
  destruct (fetchUserData_returns h w1) as (u & Hu).
  destruct (fetchUserData h w1) as [ru w2]. cbn [fst snd] in *. subst ru.
  exists evs, fetched, b.
  destruct b; unfold_run_in Hrun; simp_run_in Hrun;
    injection Hrun as <- <-; unfold newEvents; simp_run;
    rewrite Hftr, Hltr, Hfst, <- ?app_assoc, ?drop_app_length, ?Hneeds,
      ?Hchains, ?Hmode, ?Hchecking;
    by repeat split.
Qed.

(** X18.  [startOnboarding] always ends normally.  Called while the
    in-progress flag is set it changes nothing at all: no call is made and
    nothing is written.  Called while the flag is clear it ends with the flag
    clear: no run leaves the flag set behind it.  The configured chains, the
    mode and the checking flag are never touched. *)
Theorem startOnboarding_always_returns gsma h w :
  (startOnboarding gsma h w).1 = Returned ()
  ∧ isOnboarding (st (startOnboarding gsma h w).2) = isOnboarding (st w)
  ∧ chainsToSetup (st (startOnboarding gsma h w).2) = chainsToSetup (st w)
  ∧ isModeValid (st (startOnboarding gsma h w).2) = isModeValid (st w)
  ∧ isCheckingUser (st (startOnboarding gsma h w).2) = isCheckingUser (st w)
  ∧ (isOnboarding (st w) = true → (startOnboarding gsma h w).2 = w).
Proof.
  destruct (isOnboarding (st w)) eqn:Hbusy.
  - unfold startOnboarding. rewrite Hbusy. by cbn.
  - destruct (startOnboarding_run gsma h w Hbusy)
      as (evs & fetched & b & Hres & _ & _ & _ & _ & Hison & Hchains & Hmode
          & Hchecking & _).
    by repeat split.
Qed.

(** X19.  When every configured chain is already complete, a full run
    processes no chain: its only traffic is the refresh of the user record,
    the progress map is as before, and needs-onboarding ends cleared. *)
Theorem startOnboarding_nothing_pending gsma h w :
  isOnboarding (st w) = false →
  (∀ c, c ∈ chainsToSetup (st w) → isComplete (progress (st w) !! id c) = true) →
  (startOnboarding gsma h w).1 = Returned ()
  ∧ newEvents w (startOnboarding gsma h w).2 = newEvents w (fetchUserData h w).2
  ∧ progress (st (startOnboarding gsma h w).2) = progress (st w)
  ∧ needsOnboarding (st (startOnboarding gsma h w).2) = false
  ∧ isOnboarding (st (startOnboarding gsma h w).2) = false.
Proof.
  intros Hidle Hdone.
  destruct (startOnboarding gsma h w) as [r w'] eqn:Hrun. cbn [fst snd].
  unfold startOnboarding in Hrun. rewrite Hidle in Hrun.
  unfold bind at 1, setIsOnboarding in Hrun. cbv beta iota zeta in Hrun.
  unfold bind at 1 in Hrun.
  rewrite startOnboarding_loop_nothing_pending in Hrun by done.
  cbn [fst snd] in Hrun. unfold bind at 1 in Hrun.
  rewrite fetchUserData_with_st in Hrun.
  pose proof (fetchUserData_st h w) as Hfst.
  destruct (fetchUserData_returns h w) as (u & Hu).
  destruct (fetchUserData h w) as [ru w2]. cbn [fst snd] in *. subst ru.
  unfold_run_in Hrun. simp_run_in Hrun. injection Hrun as <- <-.
  unfold newEvents. simp_run. by rewrite Hfst.
Qed.

Lemma startOnboarding_nothing_pending_witness :
  createCalls (newEvents doneWorld (startOnboarding moduleAddresses hooks doneWorld).2)
  = []
  ∧ needsOnboarding (st (startOnboarding moduleAddresses hooks doneWorld).2) = false.
Proof.
  destruct (startOnboarding_nothing_pending moduleAddresses hooks doneWorld)
    as (_ & Hev & _ & Hneeds & _).
  - reflexivity.
  - intros c Hc. vm_compute in Hc.
    apply elem_of_cons in Hc as [->|Hc]; [reflexivity|].
    apply elem_of_cons in Hc as [->|Hc]; [reflexivity|].
    by apply elem_of_nil in Hc.
  - split; [by rewrite Hev|exact Hneeds].
Defined.

(** X20.  A full run writes the progress entries of the chains it processes
    and no others: the entry of every key that is not the key of a pending
    chain (a chain already complete, a key not configured) is as before. *)
Theorem startOnboarding_leaves_other_entries gsma h w k :
  k ∉ map id (pendingChains (progress (st w)) (chainsToSetup (st w))) →
  progress (st (startOnboarding gsma h w).2) !! k = progress (st w) !! k.
Proof.
  intros Hk. destruct (isOnboarding (st w)) eqn:Hbusy.
  - unfold startOnboarding. by rewrite Hbusy.
  - destruct (startOnboarding_run gsma h w Hbusy)
      as (evs & fetched & b & _ & _ & _ & _ & _ & _ & _ & _ & _ & Hframe).
    by apply Hframe.
Qed.

Lemma startOnboarding_leaves_other_entries_witness :
  progress (st (startOnboarding moduleAddresses hooks
                  (checkUser registry hooks testnetUserWorld).2).2) !! "sepolia"
  = Some successProgress.
Proof.
  rewrite (startOnboarding_leaves_other_entries moduleAddresses hooks
             (checkUser registry hooks testnetUserWorld).2 "sepolia").
  - reflexivity.
  - vm_compute. intros Hin. apply list_elem_of_singleton in Hin. discriminate Hin.
Defined.

(** X17.  The check and the run compose: for an existing user of whose
    configured chains (with distinct keys, none complete yet) at least one
    needs setup, the chains left pending by [checkUser] are exactly those
    that need setup, and a full run started after it asks for the creation
    of a wallet on exactly those chains, in configuration order. *)
Theorem checkUser_then_startOnboarding gc gsma h w user :
  (fetchUserData h w).1 = Returned (UserRecord user) →
  NoDup (map id (chainsToSetup (st w))) →
  (∀ c, c ∈ chainsToSetup (st w) → isComplete (progress (st w) !! id c) = false) →
  (∃ c, c ∈ chainsToSetup (st w) ∧ needsSetup gc (UserRecord user) c = true) →
  isOnboarding (st w) = false →
  pendingChains (progress (st (checkUser gc h w).2)) (chainsToSetup (st w))
  = filter (λ c, needsSetup gc (UserRecord user) c = true) (chainsToSetup (st w))
  ∧ createCalls (newEvents (checkUser gc h w).2
                   (startOnboarding gsma h (checkUser gc h w).2).2)
    = map chainId (filter (λ c, needsSetup gc (UserRecord user) c = true)
                          (chainsToSetup (st w))).
Proof.
  intros Hu Hnodup Hfresh Hsome Hidle.
  pose proof (checkUser_pending gc h w user Hu Hnodup Hfresh Hsome) as Hpending.
  split; [done|].
  destruct (fetchUserData_returns h w) as (u & Hu').
  destruct (checkUser_state gc h w u Hu') as [_ Hst].
  assert (Hchains : chainsToSetup (st (checkUser gc h w).2) = chainsToSetup (st w)).
  { rewrite Hst.
    destruct u as [user'| |]; [destruct (0 <? _)%nat| |destruct (0 <? _)%nat];
      by cbn. }
  assert (Hidle' : isOnboarding (st (checkUser gc h w).2) = false).
  { rewrite Hst, <- Hidle.
    destruct u as [user'| |]; [destruct (0 <? _)%nat| |destruct (0 <? _)%nat];
      by cbn. }
  destruct (startOnboarding_run gsma h _ Hidle')
    as (evs & fetched & b & _ & Hev & Hcalls & Hfetched & _).
  rewrite Hev, createCalls_app, Hcalls, (createCalls_fetch fetched Hfetched),
    Hchains, Hpending. apply app_nil_r.
Qed.

Lemma checkUser_then_startOnboarding_witness :
  createCalls (newEvents (checkUser registry hooks testnetUserWorld).2
                 (startOnboarding moduleAddresses hooks
                    (checkUser registry hooks testnetUserWorld).2).2)
  = [1].
Proof.
  refine (proj2 (checkUser_then_startOnboarding registry moduleAddresses hooks
                   testnetUserWorld testnetUser _ _ _ _ _)).
  - reflexivity.
  - compute_done.
  - intros c Hc. vm_compute in Hc.
    apply elem_of_cons in Hc as [->|Hc]; [reflexivity|].
    apply elem_of_cons in Hc as [->|Hc]; [reflexivity|].
    by apply elem_of_nil in Hc.
  - exists mainnet. split; [|reflexivity].
    apply list_elem_of_further, list_elem_of_here.
  - reflexivity.
Defined.

(** ** A retry, in general *)

Lemma find_ext_elem {A} (f g : A → bool) (l : list A) :
  (∀ x, x ∈ l → f x = g x) → List.find f l = List.find g l.
Proof.
  induction l as [|x l IH]; intros Hext; [done|].
  cbn. rewrite <- (Hext x (list_elem_of_here _ _)).
  destruct (f x); [done|]. apply IH. intros y Hy. apply Hext.
  by apply list_elem_of_further.
Qed.

Lemma forallb_ext_elem {A} (f g : A → bool) (l : list A) :
  (∀ x, x ∈ l → f x = g x) → forallb f l = forallb g l.
Proof.
  induction l as [|x l IH]; intros Hext; [done|].
  cbn. rewrite <- (Hext x (list_elem_of_here _ _)), IH; [done|].
  intros y Hy. apply Hext. by apply list_elem_of_further.
Qed.

Lemma find_none_elem {A} (f : A → bool) (l : list A) :
  (∀ x, x ∈ l → f x = false) → List.find f l = None.
Proof.
  induction l as [|x l IH]; intros Hnone; [done|].
  cbn. rewrite (Hnone x (list_elem_of_here _ _)). apply IH.
  intros y Hy. apply Hnone. by apply list_elem_of_further.
Qed.

Lemma NoDup_fmap_elem_inj {A B} (f : A → B) (l : list A) x y :
  NoDup (map f l) → x ∈ l → y ∈ l → f x = f y → x = y.
Proof.
  intros Hnodup Hx Hy Heq.
  apply list_elem_of_lookup in Hx as [i Hi]. apply list_elem_of_lookup in Hy as [j Hj].
  assert (i = j) as ->; [|congruence].
  apply (NoDup_lookup _ i j (f x) Hnodup);
    rewrite list_lookup_fmap; [by rewrite Hi|by rewrite Hj, Heq].
Qed.

Lemma find_first_match {A} (f : A → bool) (l : list A) x :
  x ∈ l → f x = true → (∀ y, y ∈ l → f y = true → y = x) → List.find f l = Some x.
Proof.
  induction l as [|z l IH]; intros Hx Hfx Huniq.
  - by apply elem_of_nil in Hx.
  - cbn. destruct (f z) eqn:Hfz.
    + by rewrite (Huniq z (list_elem_of_here _ _) Hfz).
    + apply IH; [|done|].
      * apply elem_of_cons in Hx as [->|Hx]; [congruence|done].
      * intros y Hy. apply Huniq. by apply list_elem_of_further.
Qed.

(** The result and the flags a retry of a configured chain leaves, from the
    result of its run of [processChain]. *)
Lemma retryChain_flags gsma h identifier w chain ok :
  List.find (identifierMatch identifier) (chainsToSetup (st w)) = Some chain →
  (processChain gsma h chain w).1 = Returned ok →
  (retryChain gsma h identifier w).1 = Returned ()
  ∧ needsOnboarding (st (retryChain gsma h identifier w).2)
    = (if ok && othersVerified identifier (progress (st w)) (chainsToSetup (st w))
       then false else needsOnboarding (st w))
  ∧ isOnboarding (st (retryChain gsma h identifier w).2)
    = (if ok && othersVerified identifier (progress (st w)) (chainsToSetup (st w))
       then false else isOnboarding (st w)).
Proof.
  intros Hfind Hok.
  destruct (retryChain gsma h identifier w) as [rr w'] eqn:Hretry. cbn [fst snd].
  unfold retryChain in Hretry. rewrite Hfind in Hretry. unfold bind at 1 in Hretry.
  destruct (processChain_sameOutside gsma h chain w) as [Hneeds Hison _ _ _ _].
  destruct (processChain gsma h chain w) as [r w1]. cbn [fst snd] in *. subst r.
  fold (othersVerified identifier (progress (st w)) (chainsToSetup (st w))) in Hretry.
  destruct ok; cbn [andb].
  - unfold bind at 1 in Hretry.
    pose proof (fetchUserData_st h w1) as Hfst.
    destruct (fetchUserData_returns h w1) as (u & Hu).
    destruct (fetchUserData h w1) as [ru w2]. cbn [fst snd] in *. subst ru.
    destruct (othersVerified identifier (progress (st w)) (chainsToSetup (st w)));
      unfold_run_in Hretry; simp_run_in Hretry; injection Hretry as <- <-;
      simp_run; by rewrite ?Hfst, ?Hneeds, ?Hison.
  - unfold_run_in Hretry. by injection Hretry as <- <-.
Qed.

(** X21.  A retry of a configured chain clears needs-onboarding and the
    in-progress flag exactly when its run of [processChain] succeeded and
    every other configured chain had module-verify = success in the progress
    map the retry started from; otherwise both flags are as before. *)
Theorem retryChain_clears_flags gsma h identifier w chain ok :
  List.find (identifierMatch identifier) (chainsToSetup (st w)) = Some chain →
  (processChain gsma h chain w).1 = Returned ok →
  (ok = true ∧ othersVerified identifier (progress (st w)) (chainsToSetup (st w)) = true →
     needsOnboarding (st (retryChain gsma h identifier w).2) = false
     ∧ isOnboarding (st (retryChain gsma h identifier w).2) = false)
  ∧ (ok = false ∨ othersVerified identifier (progress (st w)) (chainsToSetup (st w)) = false →
     needsOnboarding (st (retryChain gsma h identifier w).2) = needsOnboarding (st w)
     ∧ isOnboarding (st (retryChain gsma h identifier w).2) = isOnboarding (st w)).
Proof.
  intros Hfind Hok.
  destruct (retryChain_flags gsma h identifier w chain ok Hfind Hok)
    as (_ & -> & ->).
  split.
  - by intros [-> ->].
  - intros [->| ->]; [done|]. by rewrite andb_false_r.
Qed.

Lemma retryChain_clears_flags_witness :
  needsOnboarding (st (retryChain moduleAddresses hooks (IdString "sepolia")
                         happyWorld).2)
  = needsOnboarding (st happyWorld).
Proof.
  refine (proj1 (proj2 (retryChain_clears_flags moduleAddresses hooks
                          (IdString "sepolia") happyWorld sepolia true _ _) _)).
  - reflexivity.
  - reflexivity.
  - right. reflexivity.
Defined.

(** X22.  [retryChain] always ends normally; asked for an identifier that no
    configured chain carries, it does nothing at all. *)
Theorem retryChain_always_returns gsma h identifier w :
  (retryChain gsma h identifier w).1 = Returned ()
  ∧ ((∀ c, c ∈ chainsToSetup (st w) → identifierMatch identifier c = false) →
     (retryChain gsma h identifier w).2 = w).
Proof.
  split.
  - destruct (List.find (identifierMatch identifier) (chainsToSetup (st w)))
      as [chain|] eqn:Hfind.
    + destruct (processChain_returns gsma h chain w) as (ok & Hok).
      by destruct (retryChain_flags gsma h identifier w chain ok Hfind Hok).
    + unfold retryChain. by rewrite Hfind.
  - intros Hnone. unfold retryChain. by rewrite find_none_elem.
Qed.

(** X23.  With distinct keys and distinct numeric ids among the configured
    chains, retrying a configured chain by its key and retrying it by its
    numeric id are the same operation. *)
Theorem retryChain_by_key_or_chain_id gsma h w c :
  c ∈ chainsToSetup (st w) →
  NoDup (map id (chainsToSetup (st w))) →
  NoDup (map chainId (chainsToSetup (st w))) →
  retryChain gsma h (IdString (id c)) w = retryChain gsma h (IdNumber (chainId c)) w.
Proof.
  intros Hc Hkeys Hids.
  assert (Hsame : ∀ c', c' ∈ chainsToSetup (st w) →
            identifierMatch (IdString (id c)) c'
            = identifierMatch (IdNumber (chainId c)) c').
  { intros c' Hc'. cbn.
    destruct (decide (id c' = id c)) as [Hkey|Hkey].
    - rewrite (NoDup_fmap_elem_inj id _ c' c Hkeys Hc' Hc Hkey).
      by rewrite !bool_decide_eq_true_2.
    - rewrite bool_decide_eq_false_2 by done.
      rewrite bool_decide_eq_false_2; [done|].
      intros Hid. apply Hkey.
      by rewrite (NoDup_fmap_elem_inj chainId _ c' c Hids Hc' Hc Hid). }
  unfold retryChain.
  rewrite (find_ext_elem _ _ _ Hsame).
  rewrite (forallb_ext_elem
             (λ c0, if identifierMatch (IdString (id c)) c0 then true
                    else verifySucceeded (progress (st w) !! id c0))
             (λ c0, if identifierMatch (IdNumber (chainId c)) c0 then true
                    else verifySucceeded (progress (st w) !! id c0))
             (chainsToSetup (st w)));
    [done|].
  intros c' Hc'. by rewrite (Hsame c' Hc').
Qed.

Lemma retryChain_by_key_or_chain_id_witness :
  retryChain moduleAddresses hooks (IdString "mainnet") happyWorld
  = retryChain moduleAddresses hooks (IdNumber 1) happyWorld.
Proof.
  apply (retryChain_by_key_or_chain_id moduleAddresses hooks happyWorld mainnet).
  - apply list_elem_of_further, list_elem_of_here.
  - compute_done.
  - compute_done.
Defined.

(** ** Validation of the mode *)

Lemma filter_all {A} (P : A → Prop) `{∀ x, Decision (P x)} (l : list A) :
  (∀ x, x ∈ l → P x) → filter P l = l.
Proof.
  induction l as [|x l IH]; intros Hall; [done|].
  rewrite filter_cons_True by apply Hall, list_elem_of_here.
  rewrite IH; [done|]. intros y Hy. by apply Hall, list_elem_of_further.
Qed.

(** X24.  After a successful validation the progress map holds exactly one
    entry per configured key, all four steps idle, and so every configured
    chain is pending: the first full run attempts them all. *)
Theorem validateMode_all_pending chains s :
  (∀ k, progress (validateMode (Returned chains) s) !! k
        = if decide (k ∈ map id chains) then Some idleProgress else None)
  ∧ pendingChains (progress (validateMode (Returned chains) s))
                  (chainsToSetup (validateMode (Returned chains) s))
    = chains
  ∧ isModeValid (validateMode (Returned chains) s) = Some true.
Proof.
  assert (Hlookup : ∀ k, initializeProgress chains !! k
                         = if decide (k ∈ map id chains) then Some idleProgress
                           else None).
  { intros k. unfold initializeProgress. destruct (decide (k ∈ map id chains)).
    - by apply initializeProgress_from_hit.
    - by rewrite initializeProgress_from_miss. }
  split; [exact Hlookup|]. split; [|done].
  cbn. unfold pendingChains. apply filter_all. intros c Hc.
  rewrite Hlookup, decide_True; [done|]. by apply list_elem_of_fmap_2.
Qed.

(** X25.  After a failed validation nothing is onboarded: the effect that
    would check the user sends no request and clears needs-onboarding, and a
    full run asks for no wallet. *)
Theorem validateMode_failure_disables_onboarding gc gsma h w e :
  newEvents (with_st (validateMode (Thrown e)) w)
            (checkUserEffect gc h (with_st (validateMode (Thrown e)) w)).2 = []
  ∧ needsOnboarding
      (st (checkUserEffect gc h (with_st (validateMode (Thrown e)) w)).2) = false
  ∧ createCalls
      (newEvents (with_st (validateMode (Thrown e)) w)
                 (startOnboarding gsma h (with_st (validateMode (Thrown e)) w)).2)
    = [].
Proof.
  split; [|split].
  - unfold checkUserEffect, newEvents. cbn. rewrite !orb_true_r. cbn.
    apply drop_all.
  - unfold checkUserEffect. cbn. by rewrite !orb_true_r.
  - destruct (isOnboarding (st w)) eqn:Hbusy.
    + unfold startOnboarding, newEvents. cbn. rewrite Hbusy. cbn. by rewrite drop_all.
    + destruct (startOnboarding_run gsma h (with_st (validateMode (Thrown e)) w))
        as (evs & fetched & b & _ & Hev & Hcalls & Hfetched & _); [done|].
      by rewrite Hev, createCalls_app, Hcalls, (createCalls_fetch fetched Hfetched).
Qed.

(** ** Reading a Safe *)

Ltac safe_rounds Hall :=
  try (pose proof (Hall 0%nat _ eq_refl) as H0);
  try (pose proof (Hall 1%nat _ eq_refl) as H1);
  try (pose proof (Hall 2%nat _ eq_refl) as H2);
  try (pose proof (Hall 3%nat _ eq_refl) as H3);
  try (pose proof (Hall 4%nat _ eq_refl) as H4).

(** X26.  [readSafeInfo] returns the values of the first round that resolves
    with a non-zero threshold, provided at most four rounds threw before it;
    it has then waited 1000 * 2^i ms after the i-th failed round. *)
Theorem readSafeInfo_first_resolving_round answers errs info :
  throwsFirst answers errs → (length errs < 5)%nat →
  answers (length errs) = Returned info → safe_threshold info ≠ 0 →
  readSafeInfo answers
  = (Returned info, mkSafeLog (S (length errs)) (safeWaits (length errs))).
Proof.
  intros Hall Hlen Hanswer Hthreshold.
  apply Z.eqb_neq in Hthreshold.
  destruct errs as [|e1 [|e2 [|e3 [|e4 [|e5 errs]]]]]; [..|cbn in Hlen; lia];
    safe_rounds Hall; cbn [length] in Hanswer; unfold readSafeInfo;
    cbn [readSafeInfo_loop Nat.leb];
    rewrite ?H0; cbn [readSafeInfo_loop Nat.leb];
    rewrite ?H1; cbn [readSafeInfo_loop Nat.leb];
    rewrite ?H2; cbn [readSafeInfo_loop Nat.leb];
    rewrite ?H3; cbn [readSafeInfo_loop Nat.leb];
    rewrite Hanswer, Hthreshold; reflexivity.
Qed.

Lemma readSafeInfo_first_resolving_round_witness :
  readSafeInfo flakySafe = (Returned safeInfo1, mkSafeLog 3 [2000; 4000]).
Proof.
  refine (readSafeInfo_first_resolving_round flakySafe
            [ErrorObj "timeout"; ErrorObj "timeout"] safeInfo1 _ _ _ _).
  - intros i e Hi. destruct i as [|[|i]]; cbn in Hi; by simplify_option_eq.
  - cbn. lia.
  - reflexivity.
  - discriminate.
Defined.

(** X27.  When five rounds in a row throw, [readSafeInfo] throws the error of
    the fifth round as it is (not the "after retries" error), having waited
    2, 4, 8 and 16 s between the rounds and not after the last; and
    [getSafeModuleStatus] then answers [false]. *)
Theorem readSafeInfo_gives_up answers e1 e2 e3 e4 e5 :
  throwsFirst answers [e1; e2; e3; e4; e5] →
  readSafeInfo answers = (Thrown e5, mkSafeLog 5 [2000; 4000; 8000; 16000])
  ∧ getSafeModuleStatus answers = (false, mkSafeLog 5 (safeWaits 4)).
Proof.
  intros Hall. safe_rounds Hall.
  assert (Hread : readSafeInfo answers
                  = (Thrown e5, mkSafeLog 5 [2000; 4000; 8000; 16000])).
  { unfold readSafeInfo. cbn [readSafeInfo_loop Nat.leb].
    rewrite H0; cbn [readSafeInfo_loop Nat.leb].
    rewrite H1; cbn [readSafeInfo_loop Nat.leb].
    rewrite H2; cbn [readSafeInfo_loop Nat.leb].
    rewrite H3; cbn [readSafeInfo_loop Nat.leb].
    rewrite H4. reflexivity. }
  split; [exact Hread|]. unfold getSafeModuleStatus. by rewrite Hread.
Qed.

Lemma readSafeInfo_gives_up_witness :
  readSafeInfo deadSafe
  = (Thrown (ErrorObj "network error 4"), mkSafeLog 5 [2000; 4000; 8000; 16000]).
Proof.
  refine (proj1 (readSafeInfo_gives_up deadSafe (ErrorObj "network error 0")
                   (ErrorObj "network error 1") (ErrorObj "network error 2")
                   (ErrorObj "network error 3") (ErrorObj "network error 4") _)).
  intros i e Hi. destruct i as [|[|[|[|[|i]]]]]; cbn in Hi; by simplify_option_eq.
Defined.

(** X28.  A round that resolves ends the reading, whatever it reports: when
    it reports threshold 0, [readSafeInfo] throws "Failed to read Safe
    information after retries" without reading again, although retries are
    left. *)
Theorem readSafeInfo_zero_threshold answers errs info :
  throwsFirst answers errs → (length errs < 5)%nat →
  answers (length errs) = Returned info → safe_threshold info = 0 →
  readSafeInfo answers
  = (Thrown (ErrorObj "Failed to read Safe information after retries"),
     mkSafeLog (S (length errs)) (safeWaits (length errs)))
  ∧ (getSafeModuleStatus answers).1 = false.
Proof.
  intros Hall Hlen Hanswer Hthreshold.
  apply Z.eqb_eq in Hthreshold.
  assert (Hread : readSafeInfo answers
                  = (Thrown (ErrorObj "Failed to read Safe information after retries"),
                     mkSafeLog (S (length errs)) (safeWaits (length errs)))).
  { destruct errs as [|e1 [|e2 [|e3 [|e4 [|e5 errs]]]]]; [..|cbn in Hlen; lia];
      safe_rounds Hall; cbn [length] in Hanswer; unfold readSafeInfo;
      cbn [readSafeInfo_loop Nat.leb];
      rewrite ?H0; cbn [readSafeInfo_loop Nat.leb];
      rewrite ?H1; cbn [readSafeInfo_loop Nat.leb];
      rewrite ?H2; cbn [readSafeInfo_loop Nat.leb];
      rewrite ?H3; cbn [readSafeInfo_loop Nat.leb];
      rewrite Hanswer, Hthreshold; reflexivity. }
  split; [exact Hread|]. unfold getSafeModuleStatus. by rewrite Hread.
Qed.

Lemma readSafeInfo_zero_threshold_witness :
  (getSafeModuleStatus (λ _, Returned safeInfo0)).1 = false.
Proof.
  refine (proj2 (readSafeInfo_zero_threshold (λ _, Returned safeInfo0) [] safeInfo0
                   _ _ _ _)).
  - intros i e Hi. discriminate Hi.
  - cbn. lia.
  - reflexivity.
  - reflexivity.
Defined.

(** X29.  [getSafeModuleStatus] answers [true] in one case only: some round
    among the first five resolves, every round before it having thrown, and
    it reports a non-zero threshold and the module as enabled.  The [while]
    condition of [readSafeInfo] is never what ends its loop. *)
Theorem getSafeModuleStatus_true_iff answers :
  ((getSafeModuleStatus answers).1 = true
   ↔ ∃ errs info, (length errs < 5)%nat ∧ throwsFirst answers errs
                  ∧ answers (length errs) = Returned info
                  ∧ safe_threshold info ≠ 0 ∧ safe_isEnabled info = true)
  ∧ (readSafeInfo_loop answers 5 5 0 []).1 ≠ Returned None.
Proof.
  split.
  - split.
    + unfold getSafeModuleStatus, readSafeInfo. cbn [readSafeInfo_loop Nat.leb].
      destruct (answers 0%nat) as [i0|e0] eqn:H0; cbn [readSafeInfo_loop Nat.leb];
        [|destruct (answers 1%nat) as [i1|e1] eqn:H1; cbn [readSafeInfo_loop Nat.leb];
          [|destruct (answers 2%nat) as [i2|e2] eqn:H2; cbn [readSafeInfo_loop Nat.leb];
            [|destruct (answers 3%nat) as [i3|e3] eqn:H3;
              cbn [readSafeInfo_loop Nat.leb];
              [|destruct (answers 4%nat) as [i4|e4] eqn:H4;
                cbn [readSafeInfo_loop Nat.leb]; [|discriminate]]]]].
      all: match goal with
           | |- context [safe_threshold ?i =? 0] =>
               destruct (Z.eqb_spec (safe_threshold i) 0) as [Hz|Hnz];
               cbn [fst]; [discriminate|]; intros Henabled
           end.
      * exists [], i0. repeat split; [cbn; lia|intros i e Hi; discriminate Hi|..];
          done.
      * exists [e0], i1. repeat split; [cbn; lia| |done..].
        intros i e Hi. destruct i as [|i]; cbn in Hi; by simplify_option_eq.
      * exists [e0; e1], i2. repeat split; [cbn; lia| |done..].
        intros i e Hi. destruct i as [|[|i]]; cbn in Hi; by simplify_option_eq.
      * exists [e0; e1; e2], i3. repeat split; [cbn; lia| |done..].
        intros i e Hi. destruct i as [|[|[|i]]]; cbn in Hi; by simplify_option_eq.
      * exists [e0; e1; e2; e3], i4. repeat split; [cbn; lia| |done..].
        intros i e Hi. destruct i as [|[|[|[|i]]]]; cbn in Hi; by simplify_option_eq.
    + intros (errs & info & Hlen & Hall & Hanswer & Hthreshold & Henabled).
      apply Z.eqb_neq in Hthreshold.
      destruct errs as [|e1 [|e2 [|e3 [|e4 [|e5 errs]]]]]; [..|cbn in Hlen; lia];
        safe_rounds Hall; cbn [length] in Hanswer;
        unfold getSafeModuleStatus, readSafeInfo;
        cbn [readSafeInfo_loop Nat.leb];
        rewrite ?H0; cbn [readSafeInfo_loop Nat.leb];
        rewrite ?H1; cbn [readSafeInfo_loop Nat.leb];
        rewrite ?H2; cbn [readSafeInfo_loop Nat.leb];
        rewrite ?H3; cbn [readSafeInfo_loop Nat.leb];
        rewrite Hanswer, Hthreshold; exact Henabled.
  - cbn [readSafeInfo_loop Nat.leb].
    destruct (answers 0%nat); cbn [readSafeInfo_loop Nat.leb]; [done|].
    destruct (answers 1%nat); cbn [readSafeInfo_loop Nat.leb]; [done|].
    destruct (answers 2%nat); cbn [readSafeInfo_loop Nat.leb]; [done|].
    destruct (answers 3%nat); cbn [readSafeInfo_loop Nat.leb]; [done|].
    destruct (answers 4%nat); cbn [readSafeInfo_loop Nat.leb]; done.
Qed.

(** ** Dismissal *)

(** X30.  Dismissing clears needs-onboarding and the in-progress flag and
    keeps the progress map, so onboarding can be resumed: a full run started
    after a dismissal is never turned away by the in-progress guard, and asks
    for a wallet on exactly the chains that were pending before. *)
Theorem dismissOnboarding_allows_resume gsma h w :
  (dismissOnboarding w).1 = Returned ()
  ∧ needsOnboarding (st (dismissOnboarding w).2) = false
  ∧ isOnboarding (st (dismissOnboarding w).2) = false
  ∧ progress (st (dismissOnboarding w).2) = progress (st w)
  ∧ newEvents w (dismissOnboarding w).2 = []
  ∧ createCalls (newEvents (dismissOnboarding w).2
                   (startOnboarding gsma h (dismissOnboarding w).2).2)
    = map chainId (pendingChains (progress (st w)) (chainsToSetup (st w))).
Proof.
  split; [done|]. split; [done|]. split; [done|]. split; [done|].
  split; [unfold newEvents; cbn; apply drop_all|].
  destruct (startOnboarding_run gsma h (dismissOnboarding w).2 eq_refl)
    as (evs & fetched & b & _ & Hev & Hcalls & Hfetched & _).
  rewrite Hev, createCalls_app, Hcalls, (createCalls_fetch fetched Hfetched).
  apply app_nil_r.
Qed.
